(** * wechatHelp: the note services and the live voice conversation

  A shallow embedding of
  - [types.ts]             (NoteType, NoteItem, ClassificationResult),
  - [services/geminiService.ts] (getClient, classifyContent,
    generateWeeklyReport),
  - [components/VoiceChatModal.tsx] (cleanupAudio, connectToLiveAPI, the
    callbacks onopen, onaudioprocess, onmessage, onclose, onerror, and
    the effect on [isOpen]),
  - [App.tsx] (handleFileSelect, clearAttachment, handleSend,
    handleSendAudio, handleGenerateReport and the note list).

  Conventions.
  - Playback time is counted in sample frames of the 24 kHz output
    context: [ctx.currentTime] and [audioBuffer.duration] are both a frame
    count divided by that rate, so they are integers here ([Z]); the
    rounding of their double representation is not represented.
  - Microphone samples are JavaScript numbers: IEEE 754 binary64 values,
    here the primitive [float] with its correctly rounded operations. The
    numbers of a parsed JSON text are only tested for being zero and are
    rationals ([Q]).
  - A [string] holds the UTF-8 form of a JavaScript string, which is
    taken to be well formed (no lone surrogate): a character takes one
    to four bytes, and [String.length] counts bytes.
  - A JavaScript exception or a rejected promise is the [Throw] case of
    [result]; [undefined] is [None].
  - What a callback reads from the browser (the output clock, the decoded
    buffer, the microphone grant) is an argument of its embedding. *)

From Stdlib Require Import ZArith QArith String Ascii List Lia Bool.
From Stdlib Require Import DecimalString.
From Stdlib Require PrimFloat FloatOps SpecFloat Uint63.
From stdpp Require Import base option list gmap sets strings.

Close Scope Q_scope.
Local Open Scope string_scope.
Local Set Warnings "-register-all".

(* ===================================================================== *)
(** ** JavaScript values, truthiness and exceptions *)
(* ===================================================================== *)

Module Js.

(** The values [JSON.parse] can produce. An object keeps its members as
    an association list, looked up from the front. *)
Inductive json : Type :=
| JNull
| JBool (b : bool)
| JNum (q : Q)
| JStr (s : string)
| JArr (items : list json)
| JObj (members : list (string * json)).

Inductive exn : Type :=
| Error (message : string)
| TypeError
| SyntaxError
| Rejected (reason : string).

Inductive result (A : Type) : Type :=
| Return (a : A)
| Throw (e : exn).
Arguments Return {A} a.
Arguments Throw {A} e.

Definition bind {A B} (m : result A) (k : A -> result B) : result B :=
  match m with
  | Return a => k a
  | Throw e => Throw e
  end.

(** [try { body } catch (error) { handler }] *)
Definition try_catch {A} (body : result A) (handler : exn -> result A)
  : result A :=
  match body with
  | Return a => Return a
  | Throw e => handler e
  end.

Fixpoint assoc (k : string) (members : list (string * json)) : option json :=
  match members with
  | [] => None
  | (k', v) :: rest => if String.eqb k k' then Some v else assoc k rest
  end.

(** The members of an object without the member [k]. *)
Definition without (k : string) (members : list (string * json))
  : list (string * json) :=
  List.filter (fun kv => negb (String.eqb k (fst kv))) members.

(** [v.k]: a TypeError on [null], [undefined] where the member is absent
    (none of the keys read below is on a prototype). *)
Definition get (v : json) (k : string) : result (option json) :=
  match v with
  | JNull => Throw TypeError
  | JObj members => Return (assoc k members)
  | _ => Return None
  end.

(** The value read by [v.k] where the read does not throw. *)
Definition member (v : json) (k : string) : option json :=
  match get v k with
  | Return x => x
  | Throw _ => None
  end.

Definition truthy (v : json) : bool :=
  match v with
  | JNull => false
  | JBool b => b
  | JNum q => negb (Qeq_bool q 0)
  | JStr s => negb (String.eqb s "")
  | JArr _ | JObj _ => true
  end.

(** [a || b] where [a] may be [undefined]. *)
Definition or_else (a : option json) (b : json) : json :=
  match a with
  | Some v => if truthy v then v else b
  | None => b
  end.

(** [a || undefined] *)
Definition or_undefined (a : option json) : option json :=
  match a with
  | Some v => if truthy v then Some v else None
  | None => None
  end.

(** [s || d] for [s : string | undefined] *)
Definition str_or (s : option string) (d : string) : string :=
  match s with
  | Some t => if String.eqb t "" then d else t
  | None => d
  end.

(** [!s] is false, for [s : string | undefined] *)
Definition str_truthy (s : option string) : bool :=
  match s with
  | Some t => negb (String.eqb t "")
  | None => false
  end.

(** [v === 'lit'] *)
Definition strict_eq_str (v : option json) (lit : string) : bool :=
  match v with
  | Some (JStr s) => String.eqb s lit
  | _ => false
  end.

(** The value of a byte. *)
Definition code (c : ascii) : N := N_of_ascii c.

(** White space is the regular-expression class [\s], which is also
    what [trim] removes: U+0009 to U+000D, U+0020, U+00A0, U+1680,
    U+2000 to U+200A, U+2028, U+2029, U+202F, U+205F, U+3000 and U+FEFF.
    In UTF-8 its members take one, two or three bytes. Those of one
    byte: tab, line feed, vertical tab, form feed, carriage return and
    space. *)
Definition is_space (c : ascii) : bool :=
  let n := code c in
  ((n =? 9) || (n =? 10) || (n =? 11) || (n =? 12) || (n =? 13)
   || (n =? 32))%N%bool.

(** U+00A0, the bytes C2 A0. *)
Definition is_space2 (a b : ascii) : bool :=
  ((code a =? 194) && (code b =? 160))%N%bool.

(** U+1680 (E1 9A 80); U+2000 to U+200A, U+2028, U+2029 and U+202F
    (E2 80 80 to 8A, A8, A9, AF); U+205F (E2 81 9F); U+3000 (E3 80 80);
    U+FEFF (EF BB BF). *)
Definition is_space3 (a b c : ascii) : bool :=
  let x := code a in
  let y := code b in
  let z := code c in
  (((x =? 225) && (y =? 154) && (z =? 128))
   || ((x =? 226) && (y =? 128)
       && (((128 <=? z) && (z <=? 138)) || (z =? 168) || (z =? 169)
           || (z =? 175)))
   || ((x =? 226) && (y =? 129) && (z =? 159))
   || ((x =? 227) && (y =? 128) && (z =? 128))
   || ((x =? 239) && (y =? 187) && (z =? 191)))%N%bool.

(** The number of bytes of the white-space character that a text begins
    with, 0 when it begins with none. *)
Definition space_width (l : list ascii) : nat :=
  match l with
  | [] => 0
  | a :: l1 =>
      if is_space a then 1
      else match l1 with
           | [] => 0
           | b :: l2 =>
               if is_space2 a b then 2
               else match l2 with
                    | [] => 0
                    | c :: _ => if is_space3 a b c then 3 else 0
                    end
           end
  end.

(** The same for the character that a text ends with, read off the
    reversed text. *)
Definition space_width_back (r : list ascii) : nat :=
  match r with
  | [] => 0
  | c :: r1 =>
      if is_space c then 1
      else match r1 with
           | [] => 0
           | b :: r2 =>
               if is_space2 b c then 2
               else match r2 with
                    | [] => 0
                    | a :: _ => if is_space3 a b c then 3 else 0
                    end
           end
  end.

(** A byte that does not continue a character: below 128, or 192 and
    above. What follows a text cannot complete a white-space character
    begun in it when it starts with such a byte. *)
Definition starts_afresh (l : list ascii) : Prop :=
  match l with
  | [] => True
  | x :: _ => (code x < 128)%N \/ (192 <= code x)%N
  end.

(** A text that is exactly one white-space character. *)
Definition space_char (w : list ascii) : bool :=
  (Nat.eqb (space_width w) (length w) && negb (Nat.eqb (length w) 0))%bool.

(** Characters are taken off the front as long as [width] finds one;
    every step takes at least one byte, so the length of the text is
    fuel enough. *)
Fixpoint drop_while (width : list ascii -> nat) (fuel : nat)
    (l : list ascii) : list ascii :=
  match fuel with
  | O => l
  | S fuel' =>
      match width l with
      | O => l
      | S w => drop_while width fuel' (drop (S w) l)
      end
  end.

(** The text without its leading white space ... *)
Definition drop_spaces (l : list ascii) : list ascii :=
  drop_while space_width (length l) l.

(** ... and, on the reversed text, without its trailing white space. *)
Definition drop_spaces_back (r : list ascii) : list ascii :=
  drop_while space_width_back (length r) r.

Fixpoint starts_with (p l : list ascii) : option (list ascii) :=
  match p, l with
  | [], _ => Some l
  | a :: p', b :: l' => if Ascii.eqb a b then starts_with p' l' else None
  | _ :: _, [] => None
  end.

Definition backtick : ascii := ascii_of_nat 96.
Definition fence : list ascii := [backtick; backtick; backtick].

(** [s.replace(/^```json\s*/, "")] *)
Definition strip_open_fence (s : string) : string :=
  match starts_with (fence ++ list_ascii_of_string "json")%list
                    (list_ascii_of_string s) with
  | Some rest => string_of_list_ascii (drop_spaces rest)
  | None => s
  end.

(** [s.replace(/\s*```$/, "")]: the leftmost match takes the closing
    fence with all the white space before it. *)
Definition strip_close_fence (s : string) : string :=
  match starts_with fence (rev (list_ascii_of_string s)) with
  | Some rest => string_of_list_ascii (rev (drop_spaces_back rest))
  | None => s
  end.

Definition upper (c : ascii) : ascii :=
  let n := nat_of_ascii c in
  if (Nat.leb 97 n && Nat.leb n 122)%bool then ascii_of_nat (n - 32) else c.

(** [s.toUpperCase()] for a text of ASCII characters, as the values of
    [NoteType] are: only the letters a to z change. *)
Fixpoint toUpperCase (s : string) : string :=
  match s with
  | EmptyString => EmptyString
  | String c rest => String (upper c) (toUpperCase rest)
  end.

Definition nl : string := String (ascii_of_nat 10) EmptyString.

End Js.

Notation "'do' x <- m ; k" := (Js.bind m (fun x => k))
(at level 10, x name, m at level 100, k at level 200, only parsing).

(* ===================================================================== *)
(** ** types.ts *)
(* ===================================================================== *)

Module Types.
Import Js.

Inductive NoteType : Type := THOUGHT | ARTICLE | CHAT | UNKNOWN.

(** The string value of each enum member. *)
Definition NoteType_value (t : NoteType) : string :=
  match t with
  | THOUGHT => "thought"
  | ARTICLE => "article"
  | CHAT => "chat"
  | UNKNOWN => "unknown"
  end.

Record Media : Type := { mimeType : string; data : string }.

Record NoteItem : Type := {
  id : string;
  content : string;
  type : NoteType;
  title : string;
  summary : string;
  createdAt : Z;
  sourceUrl : option string;
  media : option Media
}.

(** The fields of a classification hold whatever value the response
    carried: the declared [string] is not checked at run time. *)
Record ClassificationResult : Type := {
  cr_type : NoteType;
  cr_title : json;
  cr_summary : json;
  cr_sourceUrl : option json;
  cr_content : json
}.

End Types.

(* ===================================================================== *)
(** ** services/geminiService.ts *)
(* ===================================================================== *)

Module GeminiService.
Import Js Types.

Inductive Part : Type :=
| InlineData (m : Media)
| Text (prompt_argument : string).

(** The entry of one note in the report request (the object literal of
    [items.map]). *)
Record ReportEntry : Type := {
  re_type : NoteType;
  re_title : string;
  re_content : string;
  re_summary : string;
  re_sourceUrl : option string;
  re_hasMedia : bool;
  re_date : string
}.

(** A [generateContent] request: the model and what is interpolated in
    its [contents]; the fixed wording of the prompt and the response
    schema are constants of the source and are left out. *)
Inductive Contents : Type :=
| ClassifyParts (parts : list Part)
| ReportData (itemsJson : list ReportEntry).

Record Request : Type := { model : string; contents : Contents }.

(** [response.text] is a string or [undefined]. *)
Record Response : Type := { text : option string }.

(** What the module reads from its surroundings. *)
Record Env : Type := {
  API_KEY : option string;
  generateContent : Request -> result Response;
  JSON_parse : string -> result json;
  toLocaleDateString : Z -> string
}.

Inductive Client : Type := GoogleGenAI (apiKey : string).

Definition getClient (env : Env) : result Client :=
  match API_KEY env with
  | Some k => if String.eqb k "" then Throw (Error "API Key not found")
              else Return (GoogleGenAI k)
  | None => Throw (Error "API Key not found")
  end.

(** [let noteType = THOUGHT; if (...) noteType = ARTICLE; if (...) noteType = CHAT] *)
Definition map_type (t : option json) : NoteType :=
  let noteType := THOUGHT in
  let noteType := if strict_eq_str t "article" then ARTICLE else noteType in
  let noteType := if strict_eq_str t "chat" then CHAT else noteType in
  noteType.

(** Lines 131-142: from the parsed [result] to the returned object. *)
Definition build_result (text_in : string) (parsed : json)
  : result ClassificationResult :=
  do t <- get parsed "type" ;
  do ti <- get parsed "title" ;
  do su <- get parsed "summary" ;
  do co <- get parsed "content" ;
  do so <- get parsed "sourceUrl" ;
  Return {| cr_type := map_type t;
            cr_title := or_else ti (JStr "Untitled Note");
            cr_summary := or_else su (JStr "No summary available.");
            cr_content := or_else co (JStr text_in);
            cr_sourceUrl := or_undefined so |}.

Definition classify_parts (text_in : string) (media_in : option Media)
  : list Part :=
  let parts : list Part := [] in
  let parts := match media_in with
               | Some m => (parts ++ [InlineData m])%list
               | None => parts
               end in
  (parts ++ [Text text_in])%list.

Definition classifyContent (env : Env) (text_in : string)
    (media_in : option Media) : result ClassificationResult :=
  do _ <- getClient env ;
  let parts := classify_parts text_in media_in in
  try_catch
    (do response <- generateContent env
         {| model := "gemini-2.5-flash"; contents := ClassifyParts parts |} ;
     let jsonStr := str_or (text response) "{}" in
     let jsonStr := strip_close_fence (strip_open_fence jsonStr) in
     do parsed <- JSON_parse env jsonStr ;
     build_result text_in parsed)
    (fun error => Throw error).

Definition report_entry (env : Env) (item : NoteItem) : ReportEntry :=
  {| re_type := type item;
     re_title := title item;
     re_content := content item;
     re_summary := summary item;
     re_sourceUrl := sourceUrl item;
     re_hasMedia := match media item with Some _ => true | None => false end;
     re_date := toLocaleDateString env (createdAt item) |}.

Definition generateWeeklyReport (env : Env) (items : list NoteItem)
  : result string :=
  do _ <- getClient env ;
  let itemsJson := map (report_entry env) items in
  try_catch
    (do response <- generateContent env
         {| model := "gemini-3-pro-preview"; contents := ReportData itemsJson |} ;
     Return (str_or (text response) "Failed to generate report."))
    (fun _ =>
       Return "Failed to generate report. Please check your network or API quota.").

(** *** Sample surroundings *)

(** A backend that answers every request with an object of type
    article and nothing else. *)
Definition article_env : Env :=
  {| API_KEY := Some "key";
     generateContent := fun _ => Return {| text := Some "reply" |};
     JSON_parse := fun _ => Return (JObj [("type", JStr "article")]);
     toLocaleDateString := fun _ => "1/1/2025" |}.

(** A backend whose generation call fails, and one that answers with
    an empty text. *)
Definition failing_env : Env :=
  {| API_KEY := Some "key";
     generateContent := fun _ => Throw (Rejected "quota");
     JSON_parse := fun _ => Throw SyntaxError;
     toLocaleDateString := fun _ => "1/1/2025" |}.

Definition silent_env : Env :=
  {| API_KEY := Some "key";
     generateContent := fun _ => Return {| text := Some "" |};
     JSON_parse := fun _ => Throw SyntaxError;
     toLocaleDateString := fun _ => "1/1/2025" |}.

End GeminiService.

(* ===================================================================== *)
(** ** components/VoiceChatModal.tsx *)
(* ===================================================================== *)

Module VoiceChat.
Import Js Types.
Local Open Scope Z_scope.

(** *** The inbound message ([LiveServerMessage], as far as it is read) *)

Record InlineBlob : Type := { blob_data : option string }.
Record MessagePart : Type := { inlineData : option InlineBlob }.
Record Content : Type := { parts : option (list MessagePart) }.
Record ServerContent : Type := {
  modelTurn : option Content;
  interrupted : option bool
}.
Record LiveServerMessage : Type := { serverContent : option ServerContent }.

(** [serverContent?.modelTurn?.parts?.[0]?.inlineData?.data] *)
Definition base64Audio (message : LiveServerMessage) : option string :=
  sc ← serverContent message;
  mt ← modelTurn sc;
  ps ← parts mt;
  p ← ps !! 0%nat;
  blob ← inlineData p;
  blob_data blob.

(** [serverContent?.interrupted] as a condition *)
Definition is_interrupted (message : LiveServerMessage) : bool :=
  match serverContent message with
  | Some sc => match interrupted sc with Some b => b | None => false end
  | None => false
  end.

(** *** The browser side: audio nodes, contexts, streams, the channel *)

(** Identity of an [AudioBufferSourceNode]. *)
Definition Handle : Type := nat.

(** A decoded chunk; [duration] is its length in frames. *)
Record AudioBuffer : Type := { frames : N }.
Definition duration (b : AudioBuffer) : Z := Z.of_N (frames b).

(** One [source.start(when)] on a source of context [sch_ctx]. *)
Record Scheduled : Type := {
  sch_ctx : nat;
  sch_when : Z;
  sch_duration : Z
}.

Record World : Type := {
  next_id : nat;                        (* identity of the next object *)
  scheduled : gmap Handle Scheduled;    (* [source.start(when)] *)
  stopped : gset Handle;                (* [source.stop()] *)
  ended_listeners : gset Handle;        (* [addEventListener('ended', ..)] *)
  closed_contexts : gset nat;           (* [context.close()] *)
  stopped_streams : gset nat;           (* every track of the stream stopped *)
  disconnected : gset nat;              (* [node.disconnect()] *)
  live_config : option string;          (* systemInstruction of [live.connect] *)
  realtime_input : list (list PrimFloat.float)
                                        (* blocks given to [sendRealtimeInput] *)
}.

Definition set_next_id (n : nat) (w : World) : World :=
  {| next_id := n; scheduled := scheduled w; stopped := stopped w;
     ended_listeners := ended_listeners w;
     closed_contexts := closed_contexts w;
     stopped_streams := stopped_streams w; disconnected := disconnected w;
     live_config := live_config w; realtime_input := realtime_input w |}.

Definition set_scheduled (m : gmap Handle Scheduled) (w : World) : World :=
  {| next_id := next_id w; scheduled := m; stopped := stopped w;
     ended_listeners := ended_listeners w;
     closed_contexts := closed_contexts w;
     stopped_streams := stopped_streams w; disconnected := disconnected w;
     live_config := live_config w; realtime_input := realtime_input w |}.

Definition set_stopped (x : gset Handle) (w : World) : World :=
  {| next_id := next_id w; scheduled := scheduled w; stopped := x;
     ended_listeners := ended_listeners w;
     closed_contexts := closed_contexts w;
     stopped_streams := stopped_streams w; disconnected := disconnected w;
     live_config := live_config w; realtime_input := realtime_input w |}.

Definition set_ended_listeners (x : gset Handle) (w : World) : World :=
  {| next_id := next_id w; scheduled := scheduled w; stopped := stopped w;
     ended_listeners := x;
     closed_contexts := closed_contexts w;
     stopped_streams := stopped_streams w; disconnected := disconnected w;
     live_config := live_config w; realtime_input := realtime_input w |}.

Definition set_closed_contexts (x : gset nat) (w : World) : World :=
  {| next_id := next_id w; scheduled := scheduled w; stopped := stopped w;
     ended_listeners := ended_listeners w;
     closed_contexts := x;
     stopped_streams := stopped_streams w; disconnected := disconnected w;
     live_config := live_config w; realtime_input := realtime_input w |}.

Definition set_stopped_streams (x : gset nat) (w : World) : World :=
  {| next_id := next_id w; scheduled := scheduled w; stopped := stopped w;
     ended_listeners := ended_listeners w;
     closed_contexts := closed_contexts w;
     stopped_streams := x; disconnected := disconnected w;
     live_config := live_config w; realtime_input := realtime_input w |}.

Definition set_disconnected (x : gset nat) (w : World) : World :=
  {| next_id := next_id w; scheduled := scheduled w; stopped := stopped w;
     ended_listeners := ended_listeners w;
     closed_contexts := closed_contexts w;
     stopped_streams := stopped_streams w; disconnected := x;
     live_config := live_config w; realtime_input := realtime_input w |}.

Definition set_live_config (x : option string) (w : World) : World :=
  {| next_id := next_id w; scheduled := scheduled w; stopped := stopped w;
     ended_listeners := ended_listeners w;
     closed_contexts := closed_contexts w;
     stopped_streams := stopped_streams w; disconnected := disconnected w;
     live_config := x; realtime_input := realtime_input w |}.

Definition set_realtime_input (x : list (list PrimFloat.float)) (w : World)
  : World :=
  {| next_id := next_id w; scheduled := scheduled w; stopped := stopped w;
     ended_listeners := ended_listeners w;
     closed_contexts := closed_contexts w;
     stopped_streams := stopped_streams w; disconnected := disconnected w;
     live_config := live_config w; realtime_input := x |}.

Definition empty_world : World :=
  {| next_id := 0; scheduled := ∅; stopped := ∅; ended_listeners := ∅;
     closed_contexts := ∅; stopped_streams := ∅; disconnected := ∅;
     live_config := None; realtime_input := [] |}.

(** [new AudioContext(..)], [createGain()], [createBufferSource()], ...:
    a fresh identity. *)
Definition fresh (w : World) : nat * World :=
  (next_id w, set_next_id (S (next_id w)) w).

Definition node_disconnect (n : nat) (w : World) : World :=
  set_disconnected ({[n]} ∪ disconnected w) w.

Definition tracks_stop (stream : nat) (w : World) : World :=
  set_stopped_streams ({[stream]} ∪ stopped_streams w) w.

Definition context_close (c : nat) (w : World) : World :=
  set_closed_contexts ({[c]} ∪ closed_contexts w) w.

(** [source.stop()] *)
Definition source_stop (h : Handle) (w : World) : World :=
  set_stopped ({[h]} ∪ stopped w) w.

(** [source.start(when)] for a source of [ctx] holding [audioBuffer] *)
Definition source_start (ctx : nat) (h : Handle) (when : Z)
    (audioBuffer : AudioBuffer) (w : World) : World :=
  set_scheduled
    (<[h := {| sch_ctx := ctx; sch_when := when;
               sch_duration := duration audioBuffer |}]> (scheduled w)) w.

(** [sources.forEach(s => s.stop())] *)
Definition stop_each (sources : gset Handle) (w : World) : World :=
  set_fold source_stop w sources.

(** The source [h] sounds at frame [t], where [called] is what the clock
    of its context read when [start] was called on it. A start time that
    is already past starts the source at once, so the source plays from
    the later of its start time and [called], for its duration; with the
    world as it stands it does so unless it was stopped or its context
    was closed. *)
Definition sounds (w : World) (called : Z) (h : Handle) (t : Z) : bool :=
  match scheduled w !! h with
  | Some e =>
      let from := Z.max (sch_when e) called in
      bool_decide (from ≤ t < from + sch_duration e)
      && bool_decide (h ∉ stopped w)
      && bool_decide (sch_ctx e ∉ closed_contexts w)
  | None => false
  end.

(** *** The component: React state and refs *)

Record State : Type := {
  isConnected : bool;
  isSpeaking : bool;
  isAIResponding : bool;
  error : option string;
  inputAudioContextRef : option nat;
  outputAudioContextRef : option nat;
  streamRef : option nat;
  processorRef : option nat;
  sourceRef : option nat;
  nextStartTimeRef : Z;
  sourcesRef : gset Handle;
  sessionRef : bool;               (* a session promise is stored *)
  world : World
}.

Definition setIsConnected (b : bool) (s : State) : State :=
  {| isConnected := b; isSpeaking := isSpeaking s;
     isAIResponding := isAIResponding s; error := error s;
     inputAudioContextRef := inputAudioContextRef s;
     outputAudioContextRef := outputAudioContextRef s;
     streamRef := streamRef s; processorRef := processorRef s;
     sourceRef := sourceRef s; nextStartTimeRef := nextStartTimeRef s;
     sourcesRef := sourcesRef s; sessionRef := sessionRef s;
     world := world s |}.

Definition setIsSpeaking (b : bool) (s : State) : State :=
  {| isConnected := isConnected s; isSpeaking := b;
     isAIResponding := isAIResponding s; error := error s;
     inputAudioContextRef := inputAudioContextRef s;
     outputAudioContextRef := outputAudioContextRef s;
     streamRef := streamRef s; processorRef := processorRef s;
     sourceRef := sourceRef s; nextStartTimeRef := nextStartTimeRef s;
     sourcesRef := sourcesRef s; sessionRef := sessionRef s;
     world := world s |}.

Definition setIsAIResponding (b : bool) (s : State) : State :=
  {| isConnected := isConnected s; isSpeaking := isSpeaking s;
     isAIResponding := b; error := error s;
     inputAudioContextRef := inputAudioContextRef s;
     outputAudioContextRef := outputAudioContextRef s;
     streamRef := streamRef s; processorRef := processorRef s;
     sourceRef := sourceRef s; nextStartTimeRef := nextStartTimeRef s;
     sourcesRef := sourcesRef s; sessionRef := sessionRef s;
     world := world s |}.

Definition setError (e : option string) (s : State) : State :=
  {| isConnected := isConnected s; isSpeaking := isSpeaking s;
     isAIResponding := isAIResponding s; error := e;
     inputAudioContextRef := inputAudioContextRef s;
     outputAudioContextRef := outputAudioContextRef s;
     streamRef := streamRef s; processorRef := processorRef s;
     sourceRef := sourceRef s; nextStartTimeRef := nextStartTimeRef s;
     sourcesRef := sourcesRef s; sessionRef := sessionRef s;
     world := world s |}.

Definition set_inputAudioContextRef (x : option nat) (s : State) : State :=
  {| isConnected := isConnected s; isSpeaking := isSpeaking s;
     isAIResponding := isAIResponding s; error := error s;
     inputAudioContextRef := x;
     outputAudioContextRef := outputAudioContextRef s;
     streamRef := streamRef s; processorRef := processorRef s;
     sourceRef := sourceRef s; nextStartTimeRef := nextStartTimeRef s;
     sourcesRef := sourcesRef s; sessionRef := sessionRef s;
     world := world s |}.

Definition set_outputAudioContextRef (x : option nat) (s : State) : State :=
  {| isConnected := isConnected s; isSpeaking := isSpeaking s;
     isAIResponding := isAIResponding s; error := error s;
     inputAudioContextRef := inputAudioContextRef s;
     outputAudioContextRef := x;
     streamRef := streamRef s; processorRef := processorRef s;
     sourceRef := sourceRef s; nextStartTimeRef := nextStartTimeRef s;
     sourcesRef := sourcesRef s; sessionRef := sessionRef s;
     world := world s |}.

Definition set_streamRef (x : option nat) (s : State) : State :=
  {| isConnected := isConnected s; isSpeaking := isSpeaking s;
     isAIResponding := isAIResponding s; error := error s;
     inputAudioContextRef := inputAudioContextRef s;
     outputAudioContextRef := outputAudioContextRef s;
     streamRef := x; processorRef := processorRef s;
     sourceRef := sourceRef s; nextStartTimeRef := nextStartTimeRef s;
     sourcesRef := sourcesRef s; sessionRef := sessionRef s;
     world := world s |}.

Definition set_processorRef (x : option nat) (s : State) : State :=
  {| isConnected := isConnected s; isSpeaking := isSpeaking s;
     isAIResponding := isAIResponding s; error := error s;
     inputAudioContextRef := inputAudioContextRef s;
     outputAudioContextRef := outputAudioContextRef s;
     streamRef := streamRef s; processorRef := x;
     sourceRef := sourceRef s; nextStartTimeRef := nextStartTimeRef s;
     sourcesRef := sourcesRef s; sessionRef := sessionRef s;
     world := world s |}.

Definition set_sourceRef (x : option nat) (s : State) : State :=
  {| isConnected := isConnected s; isSpeaking := isSpeaking s;
     isAIResponding := isAIResponding s; error := error s;
     inputAudioContextRef := inputAudioContextRef s;
     outputAudioContextRef := outputAudioContextRef s;
     streamRef := streamRef s; processorRef := processorRef s;
     sourceRef := x; nextStartTimeRef := nextStartTimeRef s;
     sourcesRef := sourcesRef s; sessionRef := sessionRef s;
     world := world s |}.

Definition set_nextStartTimeRef (x : Z) (s : State) : State :=
  {| isConnected := isConnected s; isSpeaking := isSpeaking s;
     isAIResponding := isAIResponding s; error := error s;
     inputAudioContextRef := inputAudioContextRef s;
     outputAudioContextRef := outputAudioContextRef s;
     streamRef := streamRef s; processorRef := processorRef s;
     sourceRef := sourceRef s; nextStartTimeRef := x;
     sourcesRef := sourcesRef s; sessionRef := sessionRef s;
     world := world s |}.

Definition set_sourcesRef (x : gset Handle) (s : State) : State :=
  {| isConnected := isConnected s; isSpeaking := isSpeaking s;
     isAIResponding := isAIResponding s; error := error s;
     inputAudioContextRef := inputAudioContextRef s;
     outputAudioContextRef := outputAudioContextRef s;
     streamRef := streamRef s; processorRef := processorRef s;
     sourceRef := sourceRef s; nextStartTimeRef := nextStartTimeRef s;
     sourcesRef := x; sessionRef := sessionRef s;
     world := world s |}.

Definition set_sessionRef (x : bool) (s : State) : State :=
  {| isConnected := isConnected s; isSpeaking := isSpeaking s;
     isAIResponding := isAIResponding s; error := error s;
     inputAudioContextRef := inputAudioContextRef s;
     outputAudioContextRef := outputAudioContextRef s;
     streamRef := streamRef s; processorRef := processorRef s;
     sourceRef := sourceRef s; nextStartTimeRef := nextStartTimeRef s;
     sourcesRef := sourcesRef s; sessionRef := x;
     world := world s |}.

Definition set_world (w : World) (s : State) : State :=
  {| isConnected := isConnected s; isSpeaking := isSpeaking s;
     isAIResponding := isAIResponding s; error := error s;
     inputAudioContextRef := inputAudioContextRef s;
     outputAudioContextRef := outputAudioContextRef s;
     streamRef := streamRef s; processorRef := processorRef s;
     sourceRef := sourceRef s; nextStartTimeRef := nextStartTimeRef s;
     sourcesRef := sourcesRef s; sessionRef := sessionRef s;
     world := w |}.

(** [useState(false)] three times, [useState(null)], [useRef(null)] five
    times, [useRef(0)], [useRef(new Set())], [useRef(null)]. *)
Definition initial : State :=
  {| isConnected := false; isSpeaking := false; isAIResponding := false;
     error := None;
     inputAudioContextRef := None; outputAudioContextRef := None;
     streamRef := None; processorRef := None; sourceRef := None;
     nextStartTimeRef := 0; sourcesRef := ∅; sessionRef := false;
     world := empty_world |}.

(** Allocation of a browser object from within the component. *)
Definition new_object (s : State) : nat * State :=
  (next_id (world s), set_world (snd (fresh (world s))) s).

(** *** cleanupAudio (lines 33-64) *)

Definition cleanupAudio (s : State) : State :=
  let s := match processorRef s with
           | Some p =>
               set_processorRef None
                 (set_world (node_disconnect p (world s)) s)
           | None => s
           end in
  let s := match sourceRef s with
           | Some n =>
               set_sourceRef None (set_world (node_disconnect n (world s)) s)
           | None => s
           end in
  let s := match streamRef s with
           | Some st =>
               set_streamRef None (set_world (tracks_stop st (world s)) s)
           | None => s
           end in
  let s := match inputAudioContextRef s with
           | Some c =>
               set_inputAudioContextRef None
                 (set_world (context_close c (world s)) s)
           | None => s
           end in
  let s := match outputAudioContextRef s with
           | Some c =>
               set_outputAudioContextRef None
                 (set_world (context_close c (world s)) s)
           | None => s
           end in
  (* Stop all playing sources; [stop] is total here, so the try/catch
     around it has nothing to catch. *)
  let s := set_world (stop_each (sourcesRef s) (world s)) s in
  let s := set_sourcesRef ∅ s in
  let s := setIsConnected false s in
  let s := setIsSpeaking false s in
  setIsAIResponding false s.

(** *** connectToLiveAPI (lines 66-192) *)

(** [`[${n.type.toUpperCase()}] ${n.title}: ${n.summary}`] *)
Definition context_line (n : NoteItem) : string :=
  ("[" ++ toUpperCase (NoteType_value (type n)) ++ "] "
     ++ title n ++ ": " ++ summary n)%string.

(** [notes.slice(0, 50).map(..).join('\n')] *)
Definition contextSummary (notes : list NoteItem) : string :=
  String.concat nl (map context_line (take 50 notes)).

Definition instruction_head : string :=
  ("You are my personal WeChat assistant. I have sent you various articles, thoughts, and chats this week. "
   ++ nl ++
   "      Your goal is to discuss these with me, help me reflect, or answer questions about them."
   ++ nl ++ "      " ++ nl ++
   "      Here is a summary of my recent content:"
   ++ nl ++ "      ")%string.

Definition instruction_tail : string :=
  (nl ++ "      " ++ nl ++
   "      Be concise, friendly, and conversational. Spoken language style.")%string.

Definition systemInstruction (notes : list NoteItem) : string :=
  (instruction_head ++ contextSummary notes ++ instruction_tail)%string.

Definition connect_failed : string :=
  "Failed to access microphone or connect.".

(** [apiKey] is [process.env.API_KEY]; [getUserMedia] is the outcome of
    [navigator.mediaDevices.getUserMedia({ audio: true })]. *)
Definition connectToLiveAPI (apiKey : option string)
    (notes : list NoteItem) (getUserMedia : result unit) (s : State)
  : State :=
  let s := setError None s in
  if negb (str_truthy apiKey) then
    (* throw new Error("No API Key"), caught at line 188 *)
    setError (Some connect_failed) s
  else
    let instruction := systemInstruction notes in
    let '(inputCtx, s) := new_object s in
    let s := set_inputAudioContextRef (Some inputCtx) s in
    let '(outputCtx, s) := new_object s in
    let s := set_outputAudioContextRef (Some outputCtx) s in
    let '(outputNode, s) := new_object s in
    match getUserMedia with
    | Throw _ => setError (Some connect_failed) s
    | Return _ =>
        let '(stream, s) := new_object s in
        let s := set_streamRef (Some stream) s in
        let s := set_world (set_live_config (Some instruction) (world s)) s in
        set_sessionRef true s
    end.

(** *** onopen (lines 105-134) *)

Definition onopen (s : State) : State :=
  let s := setIsConnected true s in
  match inputAudioContextRef s, streamRef s with
  | Some _, Some _ =>
      let '(source, s) := new_object s in
      let s := set_sourceRef (Some source) s in
      let '(processor, s) := new_object s in
      set_processorRef (Some processor) s
  | _, _ => s
  end.

(** *** onaudioprocess (lines 118-130) *)

Section Gate.
Import PrimFloat.

(** [inputData.reduce((a, b) => a + Math.abs(b), 0)]: the samples of the
    Float32Array are read as numbers and added from the left, each sum
    rounded to the nearest double. *)
Definition block_sum (inputData : list float) : float :=
  fold_left (fun a b => (a + abs b)%float) inputData 0%float.

(** [inputData.length], as a number. *)
Definition block_length (inputData : list float) : float :=
  of_uint63 (Uint63.of_Z (Z.of_nat (length inputData))).

(** [sum / inputData.length]; for an empty block this is 0 / 0, which is
    not a number. *)
Definition block_avg (inputData : list float) : float :=
  (block_sum inputData / block_length inputData)%float.

(** The literal [0.01]: the double nearest to one hundredth. *)
Definition vad_threshold : float := 0x1.47ae147ae147bp-7%float.

(** [x > y] *)
Definition gtb (x y : float) : bool := (y <? x)%float.

End Gate.

Definition onaudioprocess (inputData : list PrimFloat.float) (s : State)
  : State :=
  let avg := block_avg inputData in
  let s := if gtb avg vad_threshold then setIsSpeaking true s
           else setIsSpeaking false s in
  (* createBlob(inputData), then sendRealtimeInput once the session is there *)
  set_world
    (set_realtime_input (realtime_input (world s) ++ [inputData]) (world s)) s.

(** *** onmessage (lines 135-173) *)

(** The handler is asynchronous: it runs to [await decodeAudioData(..)]
    (line 145), and resumes with the decoded buffer. [Pending] is what
    the suspended handler holds: the captured [ctx] and the message. *)
Record Pending : Type := {
  p_ctx : nat;
  p_message : LiveServerMessage
}.

(** Lines 167-172. *)
Definition interrupt (s : State) : State :=
  let s := set_world (stop_each (sourcesRef s) (world s)) s in
  let s := set_sourcesRef ∅ s in
  let s := set_nextStartTimeRef 0 s in
  setIsAIResponding false s.

(** Lines 166-172: [if (serverContent?.interrupted) { .. }] *)
Definition handle_interruption (message : LiveServerMessage) (s : State)
  : State :=
  if is_interrupted message then interrupt s else s.

(** The listener of lines 156-159, for the source [h]. *)
Definition source_ended (h : Handle) (s : State) : State :=
  let s := set_sourcesRef (sourcesRef s ∖ {[h]}) s in
  if Nat.eqb (size (sourcesRef s)) 0 then setIsAIResponding false s else s.

(** Lines 141-143, up to the [await]; [now] is [ctx.currentTime]. *)
Definition prepare (now : Z) (s : State) : State :=
  let s := setIsAIResponding true s in
  set_nextStartTimeRef (Z.max (nextStartTimeRef s) now) s.

(** Lines 152-163, after the [await]. *)
Definition schedule (ctx : nat) (audioBuffer : AudioBuffer) (s : State)
  : State :=
  let '(source, s) := new_object s in
  let s := set_world
             (set_ended_listeners
                ({[source]} ∪ ended_listeners (world s)) (world s)) s in
  let s := set_world
             (source_start ctx source (nextStartTimeRef s) audioBuffer
                (world s)) s in
  let s := set_nextStartTimeRef
             (nextStartTimeRef s + duration audioBuffer) s in
  set_sourcesRef ({[source]} ∪ sourcesRef s) s.

(** From the arrival of [message] to the first suspension, or to the
    end of the handler when it holds no audio. *)
Definition onmessage_begin (message : LiveServerMessage) (now : Z)
    (s : State) : State * option Pending :=
  match outputAudioContextRef s with
  | Some ctx =>
      if str_truthy (base64Audio message) then
        (prepare now s, Some {| p_ctx := ctx; p_message := message |})
      else (handle_interruption message s, None)
  | None => (handle_interruption message s, None)
  end.

(** The rest of the handler, once [decodeAudioData] has resolved. *)
Definition onmessage_resume (k : Pending) (audioBuffer : AudioBuffer)
    (s : State) : State :=
  handle_interruption (p_message k) (schedule (p_ctx k) audioBuffer s).

(** The whole handler when nothing else runs while it is suspended. *)
Definition onmessage (message : LiveServerMessage) (now : Z)
    (audioBuffer : AudioBuffer) (s : State) : State :=
  match onmessage_begin message now s with
  | (s', Some k) => onmessage_resume k audioBuffer s'
  | (s', None) => s'
  end.

(** *** onclose, onerror (lines 174-182) *)

Definition onclose (s : State) : State := setIsConnected false s.

Definition onerror (s : State) : State :=
  let s := setError (Some "Connection error.") s in
  setIsConnected false s.

(** *** App.tsx: [setNotes(prev => [newNote, ...prev])] *)

Definition add_note (newNote : NoteItem) (prev : list NoteItem)
  : list NoteItem := newNote :: prev.

(** *** The component as a transition system *)

(** A callback that runs to completion in one turn of the event loop;
    [CbMessage] is a message whose decode resolves before anything else
    runs. *)
Inductive Callback : Type :=
| CbConnect (apiKey : option string) (notes : list NoteItem)
            (getUserMedia : result unit)
| CbCleanup
| CbOpen
| CbClose
| CbError
| CbAudioProcess (inputData : list PrimFloat.float)
| CbMessage (message : LiveServerMessage) (now : Z)
            (audioBuffer : AudioBuffer)
| CbEnded (h : Handle).

Definition call (c : Callback) (s : State) : State :=
  match c with
  | CbConnect apiKey notes media => connectToLiveAPI apiKey notes media s
  | CbCleanup => cleanupAudio s
  | CbOpen => onopen s
  | CbClose => onclose s
  | CbError => onerror s
  | CbAudioProcess inputData =>
      match processorRef s with
      | Some _ => onaudioprocess inputData s
      | None => s
      end
  | CbMessage message now audioBuffer => onmessage message now audioBuffer s
  | CbEnded h =>
      if bool_decide (h ∈ ended_listeners (world s)) then source_ended h s
      else s
  end.

(** The component together with its suspended message handlers. *)
Record Sys : Type := { st : State; awaiting : list Pending }.

(** What can happen next: a callback that runs through; the arrival of a
    message, whose handler runs to its [await] or, without audio, to its
    end; the decode awaited by the [i]-th suspended handler resolving
    with a buffer; that decode being rejected, which ends the handler at
    line 145 with the rest of it not run. *)
Inductive Event : Type :=
| Call (c : Callback)
| Arrive (message : LiveServerMessage) (now : Z)
| Decoded (i : nat) (audioBuffer : AudioBuffer)
| Failed (i : nat).

Definition step (sys : Sys) (e : Event) : Sys :=
  match e with
  | Call c => {| st := call c (st sys); awaiting := awaiting sys |}
  | Arrive message now =>
      match onmessage_begin message now (st sys) with
      | (s', Some k) => {| st := s'; awaiting := awaiting sys ++ [k] |}
      | (s', None) => {| st := s'; awaiting := awaiting sys |}
      end
  | Decoded i audioBuffer =>
      match awaiting sys !! i with
      | Some k =>
          {| st := onmessage_resume k audioBuffer (st sys);
             awaiting := delete i (awaiting sys) |}
      | None => sys
      end
  | Failed i => {| st := st sys; awaiting := delete i (awaiting sys) |}
  end.

Definition run (events : list Event) (sys : Sys) : Sys :=
  fold_left step events sys.

Definition boot : Sys := {| st := initial; awaiting := [] |}.

(** States reached when every handler runs to completion. *)
Inductive serial_reachable : State -> Prop :=
| serial_initial : serial_reachable initial
| serial_call c s : serial_reachable s -> serial_reachable (call c s).

(** The indicator agrees with the active set. *)
Definition indicator_matches (s : State) : Prop :=
  isAIResponding s = true <-> sourcesRef s ≠ ∅.

(** *** Sequences of chunk messages *)

(** One inbound message with what its handler reads from the browser. *)
Record Arrival : Type := {
  a_message : LiveServerMessage;
  a_now : Z;
  a_buffer : AudioBuffer
}.

Definition deliver (s : State) (a : Arrival) : State :=
  onmessage (a_message a) (a_now a) (a_buffer a) s.

Definition deliver_all (arrivals : list Arrival) (s : State) : State :=
  fold_left deliver arrivals s.

(** The message holds audio and no interruption. *)
Definition chunk_only (message : LiveServerMessage) : bool :=
  str_truthy (base64Audio message) && negb (is_interrupted message).




(** The order of the specification, for comparison with [onmessage]:
    the interruption of a message first, its chunk after it. *)
Definition onmessage_interruption_first (message : LiveServerMessage)
    (now : Z) (audioBuffer : AudioBuffer) (s : State) : State :=
  let s := handle_interruption message s in
  match outputAudioContextRef s with
  | Some ctx =>
      if str_truthy (base64Audio message) then
        schedule ctx audioBuffer (prepare now s)
      else s
  | None => s
  end.

(** *** Sample data *)

Definition audio_message (data : string) (interruption : option bool)
  : LiveServerMessage :=
  {| serverContent :=
       Some {| modelTurn :=
                 Some {| parts :=
                           Some [ {| inlineData :=
                                       Some {| blob_data := Some data |} |} ] |};
               interrupted := interruption |} |}.

Definition interruption_message : LiveServerMessage :=
  {| serverContent := Some {| modelTurn := None; interrupted := Some true |} |}.

(** The modal opened with a key and a granted microphone, the channel
    open: contexts 0 and 1, gain node 2, stream 3, capture nodes 4, 5. *)
Definition opened : State :=
  call CbOpen (call (CbConnect (Some "key"%string) [] (Return tt)) initial).

(** ... and one chunk of 10 frames received at clock 5: source 6 is
    scheduled over [5, 15). *)
Definition playing : State :=
  call (CbMessage (audio_message "AAAA" None) 5 {| frames := 10 |}) opened.

(** Chunks of 1 s, 0.5 s and 1 s at 24 kHz, the second and third
    arriving while the one before is still scheduled. *)
Definition three_chunks : list Arrival :=
  [ {| a_message := audio_message "AAAA" None; a_now := 100;
       a_buffer := {| frames := 24000 |} |};
    {| a_message := audio_message "BBBB" None; a_now := 300;
       a_buffer := {| frames := 12000 |} |};
    {| a_message := audio_message "CCCC" None; a_now := 30000;
       a_buffer := {| frames := 24000 |} |} ].

Definition sample_note (t : NoteType) (ti su : string) : NoteItem :=
  {| id := "1"%string; content := "body"%string; type := t; title := ti;
     summary := su; createdAt := 0; sourceUrl := None; media := None |}.

Definition fifty_notes : list NoteItem :=
  replicate 50 (sample_note ARTICLE "Title"%string "Summary"%string).

(** *** Samples as numbers without rounding *)

(** The number a finite double stands for, counted in units of 2^-1074,
    of which every finite double is a whole multiple. *)
Definition exact_scaled (x : PrimFloat.float) : option Z :=
  match FloatOps.Prim2SF x with
  | SpecFloat.S754_zero _ => Some 0
  | SpecFloat.S754_finite sign m e =>
      Some ((if sign then -1 else 1) * Z.shiftl (Z.pos m) (e + 1074))
  | _ => None
  end.

(** The sum of the absolute values of the samples of a block, without
    rounding, in the same unit. *)
Fixpoint exact_abs_sum (inputData : list PrimFloat.float) : option Z :=
  match inputData with
  | [] => Some 0
  | x :: rest =>
      match exact_scaled x, exact_abs_sum rest with
      | Some z, Some total => Some (Z.abs z + total)
      | _, _ => None
      end
  end.

(** A finite single-precision number, as the samples of a
    [Float32Array] are: zero, or a number with at most 24 significant
    bits whose last one is worth 2^-149 or more, below 2^128 in absolute
    value. [low] is the lowest bit set in the significand. *)
Definition single (x : PrimFloat.float) : bool :=
  match FloatOps.Prim2SF x with
  | SpecFloat.S754_zero _ => true
  | SpecFloat.S754_finite _ m e =>
      let low := Z.land (Z.pos m) (- Z.pos m) in
      (Z.pos m / low <? 2 ^ 24)
      && (-149 <=? e + Z.log2 low)
      && (Z.log2 (Z.pos m) + 1 + e <=? 128)
  | _ => false
  end.

Section Blocks.
Import PrimFloat.

(** Two blocks of 4096 samples with the same mean absolute amplitude:
    4092 samples just below 0.01, two that bring the sum to 4096 times
    the double 0.01 without rounding, and three quarters of the last
    binary place of that sum, in one sample or in two halves. *)
Definition rounded_up : list float :=
  (repeat 0x1.47ae14p-7%float 4092
     ++ [0x1.47affep-5; 0x1.851ecp-29; 0x1.8p-48; 0])%float%list.

Definition rounded_down : list float :=
  (repeat 0x1.47ae14p-7%float 4092
     ++ [0x1.47affep-5; 0x1.851ecp-29; 0x1.8p-49; 0x1.8p-49])%float%list.

(** A loud block and a silent one, of two samples each. *)
Definition loud : list float := [0.5; -0.5]%float.

Definition quiet : list float := [0; 0]%float.

End Blocks.

End VoiceChat.

(* ===================================================================== *)
(** ** The playback timeline and the life of the modal *)
(* ===================================================================== *)

Module Playback.
Import Js Types VoiceChat.
Local Open Scope Z_scope.

(** The frame at which a started source runs out. *)
Definition span_end (e : Scheduled) : Z := sch_when e + sch_duration e.

(** Two sources that do not sound at a common frame. *)
Definition apart (e1 e2 : Scheduled) : Prop :=
  span_end e1 <= sch_when e2 \/ span_end e2 <= sch_when e1.

(** The timeline is in order: the cursor and every start are not
    negative, identities are below the next fresh one, every source of
    the active set was started, has its listener, was not stopped and
    ends at or before the cursor, and no two of them overlap. *)
Record in_order (s : State) : Prop := {
  cursor_nonneg : 0 <= nextStartTimeRef s;
  started_known :
    forall h e, scheduled (world s) !! h = Some e ->
      (h < next_id (world s))%nat /\ 0 <= sch_when e /\ 0 <= sch_duration e;
  stopped_known :
    forall h, h ∈ stopped (world s) -> (h < next_id (world s))%nat;
  active_live :
    forall h, h ∈ sourcesRef s ->
      (h ∉ stopped (world s)) /\ (h ∈ ended_listeners (world s))
      /\ (exists e, scheduled (world s) !! h = Some e
                    /\ span_end e <= nextStartTimeRef s);
  active_apart :
    forall h1 h2 e1 e2,
      h1 ∈ sourcesRef s -> h2 ∈ sourcesRef s -> h1 <> h2 ->
      scheduled (world s) !! h1 = Some e1 ->
      scheduled (world s) !! h2 = Some e2 ->
      apart e1 e2
}.

(** [s'] has the timeline of [s]: the same cursor, active set, started,
    stopped and listened sources, and no identity taken back. *)
Definition same_timeline (s s' : State) : Prop :=
  nextStartTimeRef s' = nextStartTimeRef s
  /\ sourcesRef s' = sourcesRef s
  /\ scheduled (world s') = scheduled (world s)
  /\ stopped (world s') = stopped (world s)
  /\ ended_listeners (world s') = ended_listeners (world s)
  /\ (next_id (world s) <= next_id (world s'))%nat.

(** A message with the given parts. *)
Definition parts_message (ps : list MessagePart) (interruption : option bool)
  : LiveServerMessage :=
  {| serverContent :=
       Some {| modelTurn := Some {| parts := Some ps |};
               interrupted := interruption |} |}.

(** A message without [serverContent]. *)
Definition bare_message : LiveServerMessage := {| serverContent := None |}.

(** Lines 194-202: the effect on [isOpen] and the cleanup it returns.
    When [isOpen] changes React runs the cleanup of the last run and then
    the effect; when the modal unmounts it runs the cleanup. *)
Definition modal_effect (isOpen : bool) (apiKey : option string)
    (notes : list NoteItem) (getUserMedia : result unit) (s : State) : State :=
  if isOpen then connectToLiveAPI apiKey notes getUserMedia s
  else cleanupAudio s.

Definition modal_effect_cleanup (s : State) : State := cleanupAudio s.

Definition isOpen_changed (isOpen : bool) (apiKey : option string)
    (notes : list NoteItem) (getUserMedia : result unit) (s : State) : State :=
  modal_effect isOpen apiKey notes getUserMedia (modal_effect_cleanup s).

(** The handler of [message] stops at the [await] of line 145: there is
    an output context and the first part holds audio. *)
Definition suspends (message : LiveServerMessage) (s : State) : bool :=
  match outputAudioContextRef s with
  | Some _ => str_truthy (base64Audio message)
  | None => false
  end.

(** The event runs the interruption block, lines 167-172: the handler of
    a message with an interruption reaches them, on arrival when it does
    not suspend, and otherwise when its decode resolves. *)
Definition applies_interruption (sys : Sys) (e : Event) : bool :=
  match e with
  | Call (CbMessage message _ _) => is_interrupted message
  | Call _ => false
  | Arrive message _ =>
      is_interrupted message && negb (suspends message (st sys))
  | Decoded i _ =>
      match awaiting sys !! i with
      | Some k => is_interrupted (p_message k)
      | None => false
      end
  | Failed _ => false
  end.

(** No event of the run applies an interruption. *)
Fixpoint undisturbed (sys : Sys) (events : list Event) : bool :=
  match events with
  | [] => true
  | e :: rest =>
      negb (applies_interruption sys e) && undisturbed (step sys e) rest
  end.



(** Capture ticks one after the other, while a processor is in place. *)
Definition capture (blocks : list (list PrimFloat.float)) (s : State)
  : State :=
  fold_left (fun s inputData => call (CbAudioProcess inputData) s) blocks s.

End Playback.

(* ===================================================================== *)
(** ** App.tsx *)
(* ===================================================================== *)

Module App.
Import Js Types GeminiService.

Inductive ViewMode : Type := FEED | REPORT.

(** The attachment chosen in the file input; [sf_data] is
    [base64String.split(',')[1]], which is [undefined] for a result
    without a comma. *)
Record SelectedFile : Type := {
  sf_data : option string;
  sf_mimeType : string;
  sf_preview : string;
  sf_video : bool                       (* [type]: 'video' or 'image' *)
}.

Record AppState : Type := {
  inputText : string;
  notes : list NoteItem;
  isProcessing : bool;
  viewMode : ViewMode;
  weeklyReport : string;
  isGeneratingReport : bool;
  selectedFile : option SelectedFile;
  alerts : list string                  (* the texts given to [alert] *)
}.

Definition setInputText (x : string) (s : AppState) : AppState :=
  {| inputText := x; notes := notes s; isProcessing := isProcessing s;
     viewMode := viewMode s; weeklyReport := weeklyReport s;
     isGeneratingReport := isGeneratingReport s;
     selectedFile := selectedFile s; alerts := alerts s |}.

Definition setNotes (f : list NoteItem -> list NoteItem) (s : AppState)
  : AppState :=
  {| inputText := inputText s; notes := f (notes s);
     isProcessing := isProcessing s;
     viewMode := viewMode s; weeklyReport := weeklyReport s;
     isGeneratingReport := isGeneratingReport s;
     selectedFile := selectedFile s; alerts := alerts s |}.

Definition setIsProcessing (x : bool) (s : AppState) : AppState :=
  {| inputText := inputText s; notes := notes s; isProcessing := x;
     viewMode := viewMode s; weeklyReport := weeklyReport s;
     isGeneratingReport := isGeneratingReport s;
     selectedFile := selectedFile s; alerts := alerts s |}.

Definition setViewMode (x : ViewMode) (s : AppState) : AppState :=
  {| inputText := inputText s; notes := notes s;
     isProcessing := isProcessing s;
     viewMode := x; weeklyReport := weeklyReport s;
     isGeneratingReport := isGeneratingReport s;
     selectedFile := selectedFile s; alerts := alerts s |}.

Definition setWeeklyReport (x : string) (s : AppState) : AppState :=
  {| inputText := inputText s; notes := notes s;
     isProcessing := isProcessing s;
     viewMode := viewMode s; weeklyReport := x;
     isGeneratingReport := isGeneratingReport s;
     selectedFile := selectedFile s; alerts := alerts s |}.

Definition setIsGeneratingReport (x : bool) (s : AppState) : AppState :=
  {| inputText := inputText s; notes := notes s;
     isProcessing := isProcessing s;
     viewMode := viewMode s; weeklyReport := weeklyReport s;
     isGeneratingReport := x;
     selectedFile := selectedFile s; alerts := alerts s |}.

Definition setSelectedFile (x : option SelectedFile) (s : AppState)
  : AppState :=
  {| inputText := inputText s; notes := notes s;
     isProcessing := isProcessing s;
     viewMode := viewMode s; weeklyReport := weeklyReport s;
     isGeneratingReport := isGeneratingReport s;
     selectedFile := x; alerts := alerts s |}.

(** [alert(text)] *)
Definition alert (text : string) (s : AppState) : AppState :=
  {| inputText := inputText s; notes := notes s;
     isProcessing := isProcessing s;
     viewMode := viewMode s; weeklyReport := weeklyReport s;
     isGeneratingReport := isGeneratingReport s;
     selectedFile := selectedFile s; alerts := (alerts s ++ [text])%list |}.

(** [s.split(',')]: the pieces between the commas, at least one. *)
Fixpoint split_comma (s : string) : list string :=
  match s with
  | EmptyString => [EmptyString]
  | String c rest =>
      if Ascii.eqb c ","%char then EmptyString :: split_comma rest
      else match split_comma rest with
           | piece :: pieces => String c piece :: pieces
           | [] => [String c EmptyString]
           end
  end.

(** What is chosen in the file input: nothing, or a file with its MIME
    type and the outcome of [readAsDataURL] ([reader.result], [null] when
    the read failed). *)
Record ChosenFile : Type := {
  file_type : string;
  reader_result : option string
}.

(** handleFileSelect (lines 73-93) with its [onloadend]. A failed read
    makes [split] throw inside the callback, which leaves the state as it
    was. *)
Definition handleFileSelect (file : option ChosenFile) (s : AppState)
  : AppState :=
  match file with
  | None => s
  | Some f =>
      match reader_result f with
      | None => s
      | Some base64String =>
          let base64Data := split_comma base64String !! 1%nat in
          let isVideo := String.prefix "video/" (file_type f) in
          setSelectedFile
            (Some {| sf_data := base64Data; sf_mimeType := file_type f;
                     sf_preview := base64String; sf_video := isVideo |}) s
      end
  end.

(** clearAttachment (lines 95-97) *)
Definition clearAttachment (s : AppState) : AppState := setSelectedFile None s.

(** [!text.trim()]: nothing is left once the white space is removed,
    that is, every code unit of the text is white space. *)
Definition blank (text : string) : bool :=
  match drop_spaces (list_ascii_of_string text) with
  | [] => true
  | _ :: _ => false
  end.

(** [Date.now().toString()] *)
Definition toString (n : N) : string :=
  DecimalString.NilEmpty.string_of_uint (N.to_uint n).

(** A value read at its declared type [string]. The notes are declared
    to hold strings; a response that puts another value there is outside
    what this embedding of the feed represents. *)
Definition declared_string (v : json) : option string :=
  match v with
  | JStr t => Some t
  | _ => None
  end.

Definition declared_url (v : option json) : option (option string) :=
  match v with
  | None => Some None
  | Some u => option_map Some (declared_string u)
  end.

(** The object literal [newNote] of lines 147-159 and 185-194;
    [fallback] is what [result.content || ..] falls back to. *)
Definition newNote (id_ms created_ms : N) (r : ClassificationResult)
    (fallback : string) (m : option Media) : option NoteItem :=
  match declared_string (or_else (Some (cr_content r)) (JStr fallback)),
        declared_string (cr_title r),
        declared_string (cr_summary r),
        declared_url (cr_sourceUrl r) with
  | Some c, Some ti, Some su, Some url =>
      Some {| id := toString id_ms; content := c; type := cr_type r;
              title := ti; summary := su; createdAt := Z.of_N created_ms;
              sourceUrl := url; media := m |}
  | _, _, _, _ => None
  end.

(** [selectedFile ? { mimeType, data } : undefined]; [None] outside when
    the stored data is [undefined]. *)
Definition mediaPayload (f : option SelectedFile) : option (option Media) :=
  match f with
  | None => Some None
  | Some sf =>
      match sf_data sf with
      | Some d => Some (Some {| mimeType := sf_mimeType sf; data := d |})
      | None => None
      end
  end.

(** handleSend (lines 171-210). [id_ms] and [created_ms] are the two
    readings of [Date.now()]. The result is [None] where a value outside
    its declared type would enter the feed. *)
Definition handleSend (env : Env) (id_ms created_ms : N) (s : AppState)
  : option AppState :=
  if (blank (inputText s)
      && match selectedFile s with Some _ => false | None => true end)%bool
  then Some s
  else
    match mediaPayload (selectedFile s) with
    | None => None
    | Some payload =>
        let text_in := inputText s in
        let s := setIsProcessing true s in
        match classifyContent env text_in payload with
        | Return r =>
            match newNote id_ms created_ms r text_in payload with
            | Some note =>
                let s := setNotes (fun prev => note :: prev) s in
                let s := setInputText "" s in
                let s := setSelectedFile None s in
                Some (setIsProcessing false s)
            | None => None
            end
        | Throw _ =>
            let s := alert "Failed to process content. Check console." s in
            Some (setIsProcessing false s)
        end
    end.

(** handleSendAudio (lines 135-168). [blob_type] is [audioBlob.type] and
    [base64Data] what [arrayBufferToBase64] made of the recording. *)
Definition handleSendAudio (env : Env) (blob_type base64Data : string)
    (id_ms created_ms : N) (s : AppState) : option AppState :=
  let s := setIsProcessing true s in
  let recording :=
    {| mimeType := str_or (Some blob_type) "audio/webm";
       data := base64Data |} in
  match classifyContent env "" (Some recording) with
  | Return r =>
      match newNote id_ms created_ms r "(Audio Note)" (Some recording) with
      | Some note =>
          let s := setNotes (fun prev => note :: prev) s in
          Some (setIsProcessing false s)
      | None => None
      end
  | Throw _ =>
      let s := alert "Failed to transcribe audio." s in
      Some (setIsProcessing false s)
  end.

(** handleGenerateReport (lines 212-224) *)
Definition handleGenerateReport (env : Env) (s : AppState) : AppState :=
  if Nat.eqb (length (notes s)) 0 then s
  else
    let items := notes s in
    let s := setIsGeneratingReport true s in
    let s := setViewMode REPORT s in
    let s := match generateWeeklyReport env items with
             | Return report => setWeeklyReport report s
             | Throw _ => s
             end in
    setIsGeneratingReport false s.

(** [useState] of lines 29-38. *)
Definition initial : AppState :=
  {| inputText := ""; notes := []; isProcessing := false; viewMode := FEED;
     weeklyReport := ""; isGeneratingReport := false; selectedFile := None;
     alerts := [] |}.

End App.

(* ===================================================================== *)
(** ** Shapes of texts and sample surroundings *)
(* ===================================================================== *)

Module Samples.
Import Js Types GeminiService VoiceChat App.

(** A line feed, a no-break space and an ideographic space. *)
Definition line_feed : list ascii := [ascii_of_nat 10].

Definition no_break_space : list ascii := [ascii_of_nat 194; ascii_of_nat 160].

Definition ideographic_space : list ascii :=
  [ascii_of_nat 227; ascii_of_nat 128; ascii_of_nat 128].

(** Backends: no key; a response that is the JSON [null]; a response
    without text that parses as the empty object; a chat with all its
    members. *)
Definition keyless_env : Env :=
  {| API_KEY := None;
     generateContent := fun _ => Return {| text := Some "reply" |};
     JSON_parse := fun _ => Return (JObj []);
     toLocaleDateString := fun _ => "1/1/2025" |}.

Definition null_env : Env :=
  {| API_KEY := Some "key";
     generateContent := fun _ => Return {| text := Some "null" |};
     JSON_parse := fun _ => Return JNull;
     toLocaleDateString := fun _ => "1/1/2025" |}.

Definition textless_env : Env :=
  {| API_KEY := Some "key";
     generateContent := fun _ => Return {| text := None |};
     JSON_parse := fun _ => Return (JObj []);
     toLocaleDateString := fun _ => "1/1/2025" |}.

Definition chat_env : Env :=
  {| API_KEY := Some "key";
     generateContent := fun _ => Return {| text := Some "reply" |};
     JSON_parse := fun _ =>
       Return (JObj [("type", JStr "chat"); ("title", JStr "Lunch");
                     ("summary", JStr "Plans for lunch.");
                     ("content", JStr "")]);
     toLocaleDateString := fun _ => "1/1/2025" |}.

(** A parsed response whose members are all present and all empty. *)
Definition sparse : list (string * json) :=
  [("type", JStr ""); ("title", JStr ""); ("summary", JNull);
   ("content", JNum 0); ("sourceUrl", JBool false)].

Definition chat_result : ClassificationResult :=
  {| cr_type := CHAT; cr_title := JStr "Lunch";
     cr_summary := JStr "Plans for lunch."; cr_sourceUrl := None;
     cr_content := JStr "hello" |}.

Definition voice_result : ClassificationResult :=
  {| cr_type := CHAT; cr_title := JStr "Lunch";
     cr_summary := JStr "Plans for lunch."; cr_sourceUrl := None;
     cr_content := JStr "" |}.

Definition recording : Media :=
  {| mimeType := "audio/webm"; data := "UklGRg" |}.

(** The feed with "hello" typed, with blanks typed, and with one note. *)
Definition typing : AppState := App.setInputText "hello" App.initial.

Definition idle : AppState :=
  App.setInputText
    (string_of_list_ascii
       (list_ascii_of_string " " ++ ideographic_space ++ no_break_space))
    App.initial.

Definition one_note : AppState :=
  App.setNotes (fun _ => [sample_note THOUGHT "Idea" "An idea."]) App.initial.

(** A session in which two chunks arrive before either is decoded, and
    the second is decoded first. *)
Definition interleaved : list Event :=
  [ Call (CbConnect (Some "key") [] (Return tt));
    Call CbOpen;
    Arrive (audio_message "AAAA" None) 5;
    Arrive (audio_message "BBBB" None) 6;
    Decoded 1 {| frames := 3 |};
    Decoded 0 {| frames := 10 |} ].


Definition playing_sys : Sys := {| st := playing; awaiting := [] |}.

(** On the playing session a chunk arrives at clock 20; before its decode
    resolves a second chunk arrives, a capture tick runs and the second
    chunk is decoded. *)
Definition busy_decode : list Event :=
  [ Arrive (audio_message "CCCC" None) 21;
    Call (CbAudioProcess quiet);
    Decoded 1 {| frames := 3 |} ].


Definition silent_part : MessagePart := {| inlineData := None |}.

Definition audio_part : MessagePart :=
  {| inlineData := Some {| blob_data := Some "AAAA" |} |}.

End Samples.

(* ===================================================================== *)
(** ** Properties of the services *)
(* ===================================================================== *)

Module GeminiServiceFacts.
Import Js Types GeminiService.

Lemma getClient_present env k :
  API_KEY env = Some k -> k <> "" -> getClient env = Return (GoogleGenAI k).
Proof.
  intros Hk Hne. unfold getClient. rewrite Hk.
  destruct (String.eqb_spec k ""); [contradiction | reflexivity].
Qed.

Lemma map_type_cases t :
  map_type t = match t with
               | Some (JStr s) =>
                   if String.eqb s "chat" then CHAT
                   else if String.eqb s "article" then ARTICLE else THOUGHT
               | _ => THOUGHT
               end.
Proof.
  unfold map_type, strict_eq_str.
  destruct t as [[| | |s| |]|]; reflexivity.
Qed.

Lemma map_type_known t : map_type t <> UNKNOWN.
Proof.
  rewrite map_type_cases.
  destruct t as [[| | |s| |]|]; try discriminate.
  destruct (String.eqb s "chat"); [discriminate|].
  destruct (String.eqb s "article"); discriminate.
Qed.

Lemma build_result_object text_in parsed :
  parsed <> JNull ->
  build_result text_in parsed =
    Return {| cr_type := map_type (member parsed "type");
              cr_title := or_else (member parsed "title") (JStr "Untitled Note");
              cr_summary := or_else (member parsed "summary")
                              (JStr "No summary available.");
              cr_content := or_else (member parsed "content") (JStr text_in);
              cr_sourceUrl := or_undefined (member parsed "sourceUrl") |}.
Proof.
  intros Hnn. destruct parsed; try contradiction; reflexivity.
Qed.

Lemma build_result_null text_in : build_result text_in JNull = Throw TypeError.
Proof. reflexivity. Qed.

Lemma build_result_type text_in parsed r :
  build_result text_in parsed = Return r -> cr_type r <> UNKNOWN.
Proof.
  destruct parsed; simpl; intros H; try discriminate;
    injection H as <-; apply map_type_known.
Qed.

(** What [classifyContent] returns is what [build_result] returned. *)
Lemma classifyContent_returns env text_in media_in r :
  classifyContent env text_in media_in = Return r ->
  exists parsed, build_result text_in parsed = Return r.
Proof.
  unfold classifyContent, bind, try_catch.
  destruct (getClient env); [|discriminate].
  destruct (generateContent env _); [|discriminate].
  destruct (JSON_parse env _) as [parsed|]; [|discriminate].
  destruct (build_result text_in parsed) eqn:Hb; [|discriminate].
  intros [= <-]. eauto.
Qed.

(** C9. Whenever [classifyContent] returns, the type of its result is
    thought, article or chat and never unknown. Where the key is present
    and the response parses to a value other than [null], it does return:
    the type is article or chat exactly for those two strings and thought
    for every other string or value, and an absent title, summary or
    content is replaced by "Untitled Note", "No summary available." and
    the caller's text. *)
Theorem classifyContent_result (env : Env) (text_in : string)
    (media_in : option Media) :
  (forall r, classifyContent env text_in media_in = Return r ->
     cr_type r = THOUGHT \/ cr_type r = ARTICLE \/ cr_type r = CHAT)
  /\
  (forall k response parsed,
     API_KEY env = Some k -> k <> "" ->
     generateContent env
       {| model := "gemini-2.5-flash";
          contents := ClassifyParts (classify_parts text_in media_in) |}
       = Return response ->
     JSON_parse env
       (strip_close_fence (strip_open_fence (str_or (text response) "{}")))
       = Return parsed ->
     parsed <> JNull ->
     exists r,
       classifyContent env text_in media_in = Return r
       /\ cr_type r <> UNKNOWN
       /\ (member parsed "type" = Some (JStr "article") -> cr_type r = ARTICLE)
       /\ (member parsed "type" = Some (JStr "chat") -> cr_type r = CHAT)
       /\ (member parsed "type" <> Some (JStr "article") ->
           member parsed "type" <> Some (JStr "chat") -> cr_type r = THOUGHT)
       /\ (member parsed "title" = None -> cr_title r = JStr "Untitled Note")
       /\ (member parsed "summary" = None ->
           cr_summary r = JStr "No summary available.")
       /\ (member parsed "content" = None -> cr_content r = JStr text_in)).
Proof.
  split.
  - intros r Hr. apply classifyContent_returns in Hr as [parsed Hb].
    apply build_result_type in Hb.
    destruct (cr_type r); auto. contradiction.
  - intros k response parsed Hk Hne Hgen Hparse Hnn.
    eexists. split.
    { unfold classifyContent. rewrite (getClient_present _ _ Hk Hne). simpl.
      rewrite Hgen. simpl. rewrite Hparse. simpl.
      rewrite (build_result_object _ _ Hnn). reflexivity. }
    simpl. split; [apply map_type_known|].
    split; [intros ->; reflexivity|].
    split; [intros ->; reflexivity|].
    split.
    { intros Ha Hc. rewrite map_type_cases.
      destruct (member parsed "type") as [[| | |s| |]|]; try reflexivity.
      destruct (String.eqb_spec s "chat") as [->|]; [contradiction|].
      destruct (String.eqb_spec s "article") as [->|]; [contradiction|].
      reflexivity. }
    split; [intros ->; reflexivity|].
    split; intros ->; reflexivity.
Qed.

(** C10. With the API key present, [generateWeeklyReport] always returns
    a string: the quota message when the generation call throws, the
    short failure message when the call succeeds with no or empty text,
    and the response text otherwise. *)
Theorem generateWeeklyReport_never_rejects (env : Env)
    (items : list NoteItem) (k : string) :
  API_KEY env = Some k -> k <> "" ->
  let request :=
    {| model := "gemini-3-pro-preview";
       contents := ReportData (map (report_entry env) items) |} in
  (exists report, generateWeeklyReport env items = Return report)
  /\ (forall e, generateContent env request = Throw e ->
        generateWeeklyReport env items =
          Return "Failed to generate report. Please check your network or API quota.")
  /\ (forall response,
        generateContent env request = Return response ->
        str_truthy (text response) = false ->
        generateWeeklyReport env items = Return "Failed to generate report.")
  /\ (forall response t,
        generateContent env request = Return response ->
        text response = Some t -> t <> "" ->
        generateWeeklyReport env items = Return t).
Proof.
  intros Hk Hne request.
  unfold generateWeeklyReport. rewrite (getClient_present _ _ Hk Hne). simpl.
  fold request.
  split; [|split; [|split]].
  - destruct (generateContent env request); simpl; eauto.
  - intros e ->. reflexivity.
  - intros response -> Hfalsy. simpl. f_equal.
    unfold str_truthy in Hfalsy. unfold str_or.
    destruct (text response) as [t|]; [|reflexivity].
    destruct (String.eqb t ""); [reflexivity | discriminate].
  - intros response t -> Ht Hnet. simpl. f_equal.
    unfold str_or. rewrite Ht.
    destruct (String.eqb_spec t ""); [contradiction | reflexivity].
Qed.

(** Without the key the client cannot be built and the call rejects. *)
Lemma generateWeeklyReport_no_key env items :
  API_KEY env = None ->
  generateWeeklyReport env items = Throw (Error "API Key not found").
Proof. intros H. unfold generateWeeklyReport, getClient. rewrite H. reflexivity. Qed.

End GeminiServiceFacts.

(* ===================================================================== *)
(** ** Properties of the voice conversation *)
(* ===================================================================== *)

Module VoiceChatFacts.
Import Js Types VoiceChat Playback.

(** *** Stopping a set of sources *)

Lemma set_stopped_same w : set_stopped (stopped w) w = w.
Proof. destruct w; reflexivity. Qed.

Lemma stop_list l w :
  foldr source_stop w l = set_stopped (list_to_set l ∪ stopped w) w.
Proof.
  induction l as [|h l IH]; simpl.
  - rewrite (left_id_L ∅ (∪)). symmetry. apply set_stopped_same.
  - rewrite IH. unfold source_stop, set_stopped. simpl.
    f_equal. apply (assoc_L (∪)).
Qed.

Lemma stop_each_eq sources w :
  stop_each sources w = set_stopped (sources ∪ stopped w) w.
Proof.
  unfold stop_each, set_fold. simpl.
  rewrite stop_list, list_to_set_elements_L. reflexivity.
Qed.

Lemma stop_each_empty w : stop_each ∅ w = w.
Proof.
  rewrite stop_each_eq, (left_id_L ∅ (∪)). apply set_stopped_same.
Qed.

(** *** Teardown *)

Lemma cleanupAudio_refs s :
  processorRef (cleanupAudio s) = None
  /\ sourceRef (cleanupAudio s) = None
  /\ streamRef (cleanupAudio s) = None
  /\ inputAudioContextRef (cleanupAudio s) = None
  /\ outputAudioContextRef (cleanupAudio s) = None
  /\ sourcesRef (cleanupAudio s) = ∅
  /\ isConnected (cleanupAudio s) = false
  /\ isSpeaking (cleanupAudio s) = false
  /\ isAIResponding (cleanupAudio s) = false.
Proof.
  destruct s as [? ? ? ? ictx octx stream processor source ? ? ? ?].
  destruct processor, source, stream, ictx, octx; repeat split; reflexivity.
Qed.

Lemma cleanupAudio_clean s :
  processorRef s = None -> sourceRef s = None -> streamRef s = None ->
  inputAudioContextRef s = None -> outputAudioContextRef s = None ->
  sourcesRef s = ∅ ->
  isConnected s = false -> isSpeaking s = false ->
  isAIResponding s = false ->
  cleanupAudio s = s.
Proof.
  destruct s; simpl; intros; subst.
  unfold cleanupAudio; simpl. rewrite stop_each_empty. reflexivity.
Qed.

Lemma interrupt_clean s :
  sourcesRef s = ∅ -> nextStartTimeRef s = 0%Z ->
  isAIResponding s = false -> interrupt s = s.
Proof.
  destruct s; simpl; intros; subst.
  unfold interrupt; simpl. rewrite stop_each_empty. reflexivity.
Qed.

(** C7. Teardown and interruption are idempotent: [cleanupAudio] run
    twice leaves the state of one run, the interruption of lines 167-172
    run twice leaves the state of one run (no active source, cursor 0),
    and on the initial state, where nothing was started, both change
    nothing. *)
Theorem teardown_and_interrupt_idempotent (s : State) :
  cleanupAudio (cleanupAudio s) = cleanupAudio s
  /\ interrupt (interrupt s) = interrupt s
  /\ sourcesRef (interrupt s) = ∅
  /\ nextStartTimeRef (interrupt s) = 0%Z
  /\ cleanupAudio initial = initial
  /\ interrupt initial = initial.
Proof.
  split; [|split; [|split; [|split; [|split]]]].
  - destruct (cleanupAudio_refs s) as (?&?&?&?&?&?&?&?&?).
    apply cleanupAudio_clean; assumption.
  - apply interrupt_clean; reflexivity.
  - reflexivity.
  - reflexivity.
  - apply cleanupAudio_clean; reflexivity.
  - apply interrupt_clean; reflexivity.
Qed.

(** *** The speaking gate *)

Lemma isSpeaking_onaudioprocess inputData s :
  isSpeaking (onaudioprocess inputData s)
  = gtb (block_avg inputData) vad_threshold.
Proof.
  unfold onaudioprocess.
  destruct (gtb (block_avg inputData) vad_threshold); reflexivity.
Qed.

(** C6, as amended. After a capture tick the speaking indicator is the
    comparison of the mean absolute amplitude of the block, as the
    handler computes it in double arithmetic (the absolute values added
    from the left starting from 0, each sum rounded, the total divided
    by the length of the block), with the double nearest to 0.01, which
    is 5764607523034235 / 2^59: true exactly when that computed mean is
    greater. It depends on the block alone: two ticks over the same
    block, or over blocks with the same computed mean, give the same
    indicator whatever the states before them. An empty block, whose
    mean is not a number, is silent. *)
Theorem speaking_gate (s : State) (inputData : list PrimFloat.float) :
  (isSpeaking (onaudioprocess inputData s) = true
     <-> PrimFloat.ltb vad_threshold (block_avg inputData) = true)
  /\ FloatOps.Prim2SF vad_threshold
     = SpecFloat.S754_finite false 5764607523034235 (-59)
  /\ (Z.abs (100 * 5764607523034235 - 2 ^ 59) <= 50)%Z
  /\ block_avg inputData
     = PrimFloat.div
         (fold_left (fun a b => PrimFloat.add a (PrimFloat.abs b))
            inputData PrimFloat.zero)
         (PrimFloat.of_uint63 (Uint63.of_Z (Z.of_nat (length inputData))))
  /\ (forall s',
        isSpeaking (onaudioprocess inputData s')
        = isSpeaking (onaudioprocess inputData s))
  /\ (forall s' inputData',
        block_avg inputData' = block_avg inputData ->
        isSpeaking (onaudioprocess inputData' s')
        = isSpeaking (onaudioprocess inputData s))
  /\ isSpeaking (onaudioprocess [] s) = false.
Proof.
  split; [|split; [|split; [|split; [|split; [|split]]]]].
  - rewrite isSpeaking_onaudioprocess. reflexivity.
  - vm_compute. reflexivity.
  - vm_compute. discriminate.
  - reflexivity.
  - intros s'. rewrite !isSpeaking_onaudioprocess. reflexivity.
  - intros s' inputData' Heq. rewrite !isSpeaking_onaudioprocess, Heq.
    reflexivity.
  - rewrite isSpeaking_onaudioprocess. vm_compute. reflexivity.
Qed.

(** *** The enqueue step *)

Local Open Scope Z_scope.

(** With an output context, a message that holds audio runs the enqueue
    step (lines 141-163) and then the interruption check. *)
Lemma onmessage_audio s ctx message now audioBuffer :
  outputAudioContextRef s = Some ctx ->
  str_truthy (base64Audio message) = true ->
  onmessage message now audioBuffer s
  = handle_interruption message (schedule ctx audioBuffer (prepare now s)).
Proof.
  intros Hctx Haudio. unfold onmessage, onmessage_begin.
  rewrite Hctx, Haudio. reflexivity.
Qed.

Lemma onmessage_no_audio s message now audioBuffer :
  str_truthy (base64Audio message) = false ->
  onmessage message now audioBuffer s = handle_interruption message s.
Proof.
  intros Haudio. unfold onmessage, onmessage_begin. rewrite Haudio.
  destruct (outputAudioContextRef s); reflexivity.
Qed.

Lemma onmessage_no_context s message now audioBuffer :
  outputAudioContextRef s = None ->
  onmessage message now audioBuffer s = handle_interruption message s.
Proof.
  intros Hctx. unfold onmessage, onmessage_begin. rewrite Hctx. reflexivity.
Qed.

Lemma chunk_only_spec message :
  chunk_only message = true ->
  str_truthy (base64Audio message) = true /\ is_interrupted message = false.
Proof.
  unfold chunk_only. intros H. apply andb_true_iff in H as [H1 H2].
  apply negb_true_iff in H2. auto.
Qed.

Lemma onmessage_chunk s ctx message now audioBuffer :
  outputAudioContextRef s = Some ctx ->
  chunk_only message = true ->
  onmessage message now audioBuffer s
  = schedule ctx audioBuffer (prepare now s).
Proof.
  intros Hctx Hc. apply chunk_only_spec in Hc as [Ha Hi].
  rewrite (onmessage_audio _ _ _ _ _ Hctx Ha).
  unfold handle_interruption. rewrite Hi. reflexivity.
Qed.

Section Enqueue.
Variables (s : State) (ctx : nat) (now : Z) (audioBuffer : AudioBuffer).

Let s' := schedule ctx audioBuffer (prepare now s).
Let source := next_id (world s).
Let startAt := Z.max (nextStartTimeRef s) now.


Lemma enqueue_sources : sourcesRef s' = {[source]} ∪ sourcesRef s.
Proof. reflexivity. Qed.

Lemma enqueue_scheduled :
  scheduled (world s')
  = <[source := {| sch_ctx := ctx; sch_when := startAt;
                   sch_duration := duration audioBuffer |}]>
      (scheduled (world s)).
Proof. reflexivity. Qed.

Lemma enqueue_next_id : next_id (world s') = S source.
Proof. reflexivity. Qed.


Lemma enqueue_stopped : stopped (world s') = stopped (world s).
Proof. reflexivity. Qed.

Lemma enqueue_closed :
  closed_contexts (world s') = closed_contexts (world s).
Proof. reflexivity. Qed.

Lemma enqueue_context :
  outputAudioContextRef s' = outputAudioContextRef s.
Proof. reflexivity. Qed.

Lemma enqueue_indicator : isAIResponding s' = true.
Proof. reflexivity. Qed.
End Enqueue.

Lemma source_ended_sources h s :
  sourcesRef (source_ended h s) = sourcesRef s ∖ {[h]}.
Proof.
  unfold source_ended. simpl.
  destruct (Nat.eqb (size (sourcesRef s ∖ {[h]})) 0); reflexivity.
Qed.

(** *** Gapless scheduling *)





(** *** Interruption *)

Lemma interrupt_world s :
  world (interrupt s)
  = set_stopped (sourcesRef s ∪ stopped (world s)) (world s).
Proof. unfold interrupt. simpl. apply stop_each_eq. Qed.

Lemma handle_interruption_scheduled message s :
  scheduled (world (handle_interruption message s)) = scheduled (world s).
Proof.
  unfold handle_interruption. destruct (is_interrupted message); [|reflexivity].
  rewrite interrupt_world. reflexivity.
Qed.

Lemma handle_interruption_next_id message s :
  next_id (world (handle_interruption message s)) = next_id (world s).
Proof.
  unfold handle_interruption. destruct (is_interrupted message); [|reflexivity].
  rewrite interrupt_world. reflexivity.
Qed.

Lemma handle_interruption_context message s :
  outputAudioContextRef (handle_interruption message s)
  = outputAudioContextRef s.
Proof.
  unfold handle_interruption. destruct (is_interrupted message); reflexivity.
Qed.

(** Whatever the state, a chunk is started no earlier than the clock its
    handler read. *)
Lemma enqueue_not_before_clock s ctx message now audioBuffer :
  outputAudioContextRef s = Some ctx ->
  str_truthy (base64Audio message) = true ->
  scheduled (world (onmessage message now audioBuffer s))
    !! next_id (world s)
  = Some {| sch_ctx := ctx; sch_when := Z.max (nextStartTimeRef s) now;
            sch_duration := duration audioBuffer |}.
Proof.
  intros Hctx Haudio. rewrite (onmessage_audio _ _ _ _ _ Hctx Haudio).
  rewrite handle_interruption_scheduled, enqueue_scheduled.
  apply lookup_insert_eq.
Qed.

(** After the interruption of lines 167-172 the active set is empty and
    the cursor is zero, and a chunk whose message is handled after it
    with nothing else in between, at once or from any later state, is
    started at or after the output clock read by its handler: right
    after the interruption, at the maximum of zero and that clock. *)
Lemma interrupt_whole_handler (s : State) :
  sourcesRef (interrupt s) = ∅
  /\ nextStartTimeRef (interrupt s) = 0
  /\ (forall ctx message now audioBuffer,
        outputAudioContextRef s = Some ctx ->
        str_truthy (base64Audio message) = true ->
        exists e,
          scheduled (world (onmessage message now audioBuffer (interrupt s)))
            !! next_id (world (interrupt s)) = Some e
          /\ sch_when e = Z.max 0 now
          /\ now <= sch_when e)
  /\ (forall later ctx message now audioBuffer,
        outputAudioContextRef later = Some ctx ->
        str_truthy (base64Audio message) = true ->
        exists e,
          scheduled (world (onmessage message now audioBuffer later))
            !! next_id (world later) = Some e
          /\ now <= sch_when e).
Proof.
  split; [reflexivity|]. split; [reflexivity|]. split.
  - intros ctx message now audioBuffer Hctx Haudio.
    eexists. split.
    { apply enqueue_not_before_clock; [exact Hctx | exact Haudio]. }
    simpl. split; lia.
  - intros later ctx message now audioBuffer Hctx Haudio.
    eexists. split.
    { apply enqueue_not_before_clock; [exact Hctx | exact Haudio]. }
    simpl. lia.
Qed.

(** A message with an interruption whose handler runs with nothing else
    in between. When it holds a chunk, the chunk is enqueued first, on
    the timeline as it stands, and the interruption is applied after it:
    the chunk's own source is stopped with the others. Afterwards the
    active set is empty, the cursor is zero and every source that was
    active is stopped; the chunk of a message handled after it, again
    with nothing in between, is the only member of the active set and
    starts a new timeline at the maximum of zero and the clock. *)
Lemma interruption_whole_handler (s : State) (ctx : nat)
    (message : LiveServerMessage) (now : Z) (audioBuffer : AudioBuffer) :
  outputAudioContextRef s = Some ctx ->
  is_interrupted message = true ->
  let s1 := onmessage message now audioBuffer s in
  (str_truthy (base64Audio message) = true ->
     s1 = interrupt (schedule ctx audioBuffer (prepare now s))
     /\ scheduled (world s1) !! next_id (world s)
        = Some {| sch_ctx := ctx;
                  sch_when := Z.max (nextStartTimeRef s) now;
                  sch_duration := duration audioBuffer |}
     /\ next_id (world s) ∈ stopped (world s1))
  /\ (str_truthy (base64Audio message) = false -> s1 = interrupt s)
  /\ sourcesRef s1 = ∅
  /\ nextStartTimeRef s1 = 0
  /\ isAIResponding s1 = false
  /\ sourcesRef s ⊆ stopped (world s1)
  /\ (forall message' now' audioBuffer',
        chunk_only message' = true ->
        let s2 := onmessage message' now' audioBuffer' s1 in
        sourcesRef s2 = {[next_id (world s1)]}
        /\ scheduled (world s2) !! next_id (world s1)
           = Some {| sch_ctx := ctx; sch_when := Z.max 0 now';
                     sch_duration := duration audioBuffer' |}).
Proof.
  intros Hctx Hint s1.
  assert (Hcases :
            (str_truthy (base64Audio message) = true
             /\ s1 = interrupt (schedule ctx audioBuffer (prepare now s)))
            \/ (str_truthy (base64Audio message) = false
                /\ s1 = interrupt s)).
  { destruct (str_truthy (base64Audio message)) eqn:Haudio; [left|right];
      (split; [reflexivity|]); unfold s1.
    - rewrite (onmessage_audio _ _ _ _ _ Hctx Haudio).
      unfold handle_interruption. rewrite Hint. reflexivity.
    - rewrite (onmessage_no_audio _ _ _ _ Haudio).
      unfold handle_interruption. rewrite Hint. reflexivity. }
  assert (Hctx1 : outputAudioContextRef s1 = Some ctx).
  { destruct Hcases as [[_ ->]|[_ ->]]; exact Hctx. }
  assert (Hsrc1 : sourcesRef s1 = ∅).
  { destruct Hcases as [[_ ->]|[_ ->]]; reflexivity. }
  assert (Hcur1 : nextStartTimeRef s1 = 0).
  { destruct Hcases as [[_ ->]|[_ ->]]; reflexivity. }
  split.
  { intros Haudio. destruct Hcases as [[_ Hs1]|[Hno _]]; [|congruence].
    split; [exact Hs1|]. split.
    - unfold s1. apply enqueue_not_before_clock; assumption.
    - rewrite Hs1, interrupt_world. simpl.
      apply elem_of_union_l, elem_of_union_l, elem_of_singleton. reflexivity. }
  split.
  { intros Haudio. destruct Hcases as [[Hyes _]|[_ Hs1]]; [congruence|].
    exact Hs1. }
  split; [exact Hsrc1|]. split; [exact Hcur1|]. split.
  { destruct Hcases as [[_ ->]|[_ ->]]; reflexivity. }
  split.
  { destruct Hcases as [[_ ->]|[_ ->]]; rewrite interrupt_world; simpl.
    - intros h Hh. apply elem_of_union_l, elem_of_union_r, Hh.
    - intros h Hh. apply elem_of_union_l, Hh. }
  intros message' now' audioBuffer' Hchunk s2. unfold s2.
  rewrite (onmessage_chunk _ _ _ _ _ Hctx1 Hchunk).
  split.
  - rewrite enqueue_sources, Hsrc1. apply (right_id_L ∅ (∪)).
  - rewrite enqueue_scheduled, lookup_insert_eq, Hcur1. reflexivity.
Qed.

(** *** The responding indicator *)

Lemma connectToLiveAPI_playback apiKey notes media s :
  isAIResponding (connectToLiveAPI apiKey notes media s) = isAIResponding s
  /\ sourcesRef (connectToLiveAPI apiKey notes media s) = sourcesRef s.
Proof.
  unfold connectToLiveAPI.
  destruct (negb (str_truthy apiKey)); [split; reflexivity|].
  destruct media; split; reflexivity.
Qed.

Lemma onopen_playback s :
  isAIResponding (onopen s) = isAIResponding s
  /\ sourcesRef (onopen s) = sourcesRef s.
Proof.
  destruct s as [? ? ? ? ictx ? stream ? ? ? ? ? ?]. unfold onopen. simpl.
  destruct ictx, stream; split; reflexivity.
Qed.

Lemma onaudioprocess_playback inputData s :
  isAIResponding (onaudioprocess inputData s) = isAIResponding s
  /\ sourcesRef (onaudioprocess inputData s) = sourcesRef s.
Proof.
  unfold onaudioprocess.
  destruct (gtb (block_avg inputData) vad_threshold); split; reflexivity.
Qed.

Lemma indicator_matches_off s :
  isAIResponding s = false -> sourcesRef s = ∅ -> indicator_matches s.
Proof.
  intros Hi Hs. unfold indicator_matches. rewrite Hi, Hs.
  split; [discriminate | intros H; contradiction H; reflexivity].
Qed.

Lemma indicator_matches_on s h :
  isAIResponding s = true -> h ∈ sourcesRef s -> indicator_matches s.
Proof.
  intros Hi Hs. unfold indicator_matches. rewrite Hi.
  split; [intros _ Hempty | reflexivity].
  rewrite Hempty in Hs. exact (not_elem_of_empty h Hs).
Qed.

Lemma handle_interruption_matches message s :
  indicator_matches s -> indicator_matches (handle_interruption message s).
Proof.
  intros Hs. unfold handle_interruption.
  destruct (is_interrupted message); [|exact Hs].
  apply indicator_matches_off; reflexivity.
Qed.

Lemma schedule_matches ctx audioBuffer now s :
  indicator_matches (schedule ctx audioBuffer (prepare now s)).
Proof.
  apply (indicator_matches_on _ (next_id (world s))); [reflexivity|].
  rewrite enqueue_sources. apply elem_of_union_l, elem_of_singleton.
  reflexivity.
Qed.

Lemma onmessage_matches message now audioBuffer s :
  indicator_matches s ->
  indicator_matches (onmessage message now audioBuffer s).
Proof.
  intros Hs.
  destruct (outputAudioContextRef s) as [ctx|] eqn:Hctx.
  - destruct (str_truthy (base64Audio message)) eqn:Haudio.
    + rewrite (onmessage_audio _ _ _ _ _ Hctx Haudio).
      apply handle_interruption_matches, schedule_matches.
    + rewrite (onmessage_no_audio _ _ _ _ Haudio).
      apply handle_interruption_matches, Hs.
  - rewrite (onmessage_no_context _ _ _ _ Hctx).
    apply handle_interruption_matches, Hs.
Qed.

Lemma empty_without (h : Handle) : (∅ : gset Handle) ∖ {[h]} = ∅.
Proof.
  apply leibniz_equiv. intros x. rewrite elem_of_difference.
  split; [intros [Hx _]; exact Hx|].
  intros Hx. exfalso. exact (not_elem_of_empty x Hx).
Qed.


Lemma source_ended_matches h s :
  indicator_matches s -> indicator_matches (source_ended h s).
Proof.
  intros Hs. unfold source_ended. simpl.
  destruct (Nat.eqb (size (sourcesRef s ∖ {[h]})) 0) eqn:Hsize.
  - apply Nat.eqb_eq, size_empty_iff in Hsize.
    apply indicator_matches_off; [reflexivity|]. simpl.
    apply leibniz_equiv, Hsize.
  - unfold indicator_matches in *. simpl.
    apply Nat.eqb_neq in Hsize.
    split; [intros _ Hempty | intros Hne].
    + apply Hsize. rewrite Hempty. apply size_empty.
    + apply Hs. intros Hempty. apply Hne. rewrite Hempty.
      apply empty_without.
Qed.

Lemma call_matches c s : indicator_matches s -> indicator_matches (call c s).
Proof.
  intros Hs. destruct c as [k n g| | | | |d|m now b|h]; simpl.
  - unfold indicator_matches in *.
    destruct (connectToLiveAPI_playback k n g s) as [-> ->]. exact Hs.
  - destruct (cleanupAudio_refs s) as (_&_&_&_&_&Hsrc&_&_&Hind).
    apply indicator_matches_off; assumption.
  - unfold indicator_matches in *.
    destruct (onopen_playback s) as [-> ->]. exact Hs.
  - exact Hs.
  - exact Hs.
  - destruct (processorRef s); [|exact Hs].
    unfold indicator_matches in *.
    destruct (onaudioprocess_playback d s) as [-> ->]. exact Hs.
  - apply onmessage_matches, Hs.
  - destruct (bool_decide _); [|exact Hs].
    apply source_ended_matches, Hs.
Qed.

Lemma serial_reachable_matches s : serial_reachable s -> indicator_matches s.
Proof.
  induction 1 as [|c s _ IH].
  - apply indicator_matches_off; reflexivity.
  - apply call_matches, IH.
Qed.


(** *** Channel error and teardown *)

(** Membership in a union of singletons and a rest. *)
Ltac in_union :=
  first [ assumption
        | apply elem_of_singleton; reflexivity
        | apply elem_of_union_l; in_union
        | apply elem_of_union_r; in_union ].

(** Unfolds the teardown down to the sets it changes. *)
Ltac expose_teardown :=
  lazy beta iota zeta delta
    [cleanupAudio world set_world set_sourcesRef setIsConnected
     setIsSpeaking setIsAIResponding set_processorRef set_sourceRef
     set_streamRef set_inputAudioContextRef set_outputAudioContextRef
     processorRef sourceRef streamRef inputAudioContextRef
     outputAudioContextRef sourcesRef error nextStartTimeRef
     node_disconnect tracks_stop context_close
     set_disconnected set_stopped_streams set_closed_contexts set_stopped
     scheduled stopped closed_contexts stopped_streams disconnected].

Lemma cleanupAudio_world s :
  scheduled (world (cleanupAudio s)) = scheduled (world s)
  /\ stopped (world (cleanupAudio s)) = sourcesRef s ∪ stopped (world s)
  /\ (forall c, inputAudioContextRef s = Some c
                \/ outputAudioContextRef s = Some c ->
        c ∈ closed_contexts (world (cleanupAudio s)))
  /\ (forall n, processorRef s = Some n \/ sourceRef s = Some n ->
        n ∈ disconnected (world (cleanupAudio s)))
  /\ (forall st, streamRef s = Some st ->
        st ∈ stopped_streams (world (cleanupAudio s)))
  /\ error (cleanupAudio s) = error s
  /\ nextStartTimeRef (cleanupAudio s) = nextStartTimeRef s.
Proof.
  destruct s as [? ? ? ? ictx octx stream processor source ? ? ? w].
  destruct processor, source, stream, ictx, octx;
    expose_teardown; rewrite stop_each_eq; expose_teardown;
    (split; [reflexivity|]); (split; [reflexivity|]);
    (split; [intros c [[= <-]|[= <-]]; in_union|]);
    (split; [intros c [[= <-]|[= <-]]; in_union|]);
    (split; [intros c [= <-]; in_union|]);
    split; reflexivity.
Qed.

Lemma sounds_stopped w called h t :
  h ∈ stopped w -> sounds w called h t = false.
Proof.
  intros Hin. unfold sounds. destruct (scheduled w !! h); [|reflexivity].
  cbv zeta.
  rewrite (bool_decide_eq_false_2 (h ∉ stopped w)) by (intros H; exact (H Hin)).
  rewrite andb_false_r. reflexivity.
Qed.

Lemma sounds_closed w called h e t :
  scheduled w !! h = Some e -> sch_ctx e ∈ closed_contexts w ->
  sounds w called h t = false.
Proof.
  intros Hsch Hin. unfold sounds. rewrite Hsch. cbv zeta.
  rewrite (bool_decide_eq_false_2 (sch_ctx e ∉ closed_contexts w))
    by (intros H; exact (H Hin)).
  apply andb_false_r.
Qed.

(** C4, as amended. A channel error sets the message "Connection error."
    and marks the session as not connected: what the close signal does,
    plus the message. It leaves the two capture nodes, the microphone
    stream, both audio contexts, the active set, the cursor and all that
    was scheduled as they were, so what sounded before it sounds after
    it. The teardown is [cleanupAudio], which the effect on [isOpen] runs
    when the modal closes or unmounts: after it both capture nodes are
    disconnected, the tracks of the microphone stream are stopped, both
    contexts are closed, every source of the active set is stopped and
    the set is empty, the message is still shown, and no source of the
    active set or of the output context sounds. *)
Theorem onerror_reports_without_teardown (s : State) :
  error (onerror s) = Some "Connection error."%string
  /\ isConnected (onerror s) = false
  /\ onerror s = setError (Some "Connection error."%string) (onclose s)
  /\ world (onerror s) = world s
  /\ sourcesRef (onerror s) = sourcesRef s
  /\ nextStartTimeRef (onerror s) = nextStartTimeRef s
  /\ processorRef (onerror s) = processorRef s
  /\ sourceRef (onerror s) = sourceRef s
  /\ streamRef (onerror s) = streamRef s
  /\ inputAudioContextRef (onerror s) = inputAudioContextRef s
  /\ outputAudioContextRef (onerror s) = outputAudioContextRef s
  /\ (forall called h t,
        sounds (world (onerror s)) called h t = sounds (world s) called h t)
  /\ modal_effect_cleanup (onerror s) = cleanupAudio (onerror s)
  /\ (forall apiKey notes getUserMedia,
        isOpen_changed false apiKey notes getUserMedia (onerror s)
        = cleanupAudio (onerror s))
  /\ (let s' := cleanupAudio (onerror s) in
      error s' = Some "Connection error."%string
      /\ processorRef s' = None /\ sourceRef s' = None
      /\ streamRef s' = None
      /\ inputAudioContextRef s' = None /\ outputAudioContextRef s' = None
      /\ sourcesRef s' = ∅
      /\ (forall n, processorRef s = Some n \/ sourceRef s = Some n ->
            n ∈ disconnected (world s'))
      /\ (forall st, streamRef s = Some st -> st ∈ stopped_streams (world s'))
      /\ (forall c, inputAudioContextRef s = Some c
                    \/ outputAudioContextRef s = Some c ->
            c ∈ closed_contexts (world s'))
      /\ sourcesRef s ⊆ stopped (world s')
      /\ (forall called h t,
            h ∈ sourcesRef s -> sounds (world s') called h t = false)
      /\ (forall called c h e t,
            outputAudioContextRef s = Some c ->
            scheduled (world s) !! h = Some e -> sch_ctx e = c ->
            sounds (world s') called h t = false)).
Proof.
  do 13 (split; [reflexivity|]).
  destruct (cleanupAudio_refs (onerror s)) as (Hp&Hn&Hst&Hi&Ho&Hsrc&Hc1&Hc2&Hc3).
  split.
  { intros apiKey notes getUserMedia.
    unfold isOpen_changed, modal_effect, modal_effect_cleanup.
    apply cleanupAudio_clean; assumption. }
  intros s'.
  destruct (cleanupAudio_world (onerror s))
    as (Hsch&Hstop&Hclosed&Hdisc&Hstreams&Herr&_).
  split; [unfold s'; rewrite Herr; reflexivity|].
  do 6 (split; [assumption|]).
  split; [intros n Hn'; apply Hdisc; exact Hn'|].
  split; [intros st Hst'; apply Hstreams; exact Hst'|].
  split; [intros c Hc; apply Hclosed; exact Hc|].
  split.
  { unfold s'. rewrite Hstop. intros h Hh. apply elem_of_union_l. exact Hh. }
  split.
  - intros called h t Hh. apply sounds_stopped. unfold s'. rewrite Hstop.
    apply elem_of_union_l. exact Hh.
  - intros called c h e t Hc Hh Hctx. apply (sounds_closed _ _ _ e).
    + unfold s'. rewrite Hsch. exact Hh.
    + rewrite Hctx. apply Hclosed. right. exact Hc.
Qed.

(** *** Suspended handlers *)


End VoiceChatFacts.

(* ===================================================================== *)
(** ** The context payload of the live session *)
(* ===================================================================== *)

Module ContextFacts.
Import Js Types VoiceChat.

Lemma string_length_app (s1 s2 : string) :
  String.length (s1 ++ s2) = String.length s1 + String.length s2.
Proof. induction s1 as [|c s1 IH]; simpl; [reflexivity | rewrite IH; reflexivity]. Qed.

Lemma concat_length_le (sep : string) (l : list string) (M : nat) :
  Forall (fun x => String.length x <= M) l ->
  String.length (String.concat sep l) <= length l * (M + String.length sep).
Proof.
  induction l as [|x r IH]; intros Hall; [simpl; lia|].
  apply Forall_cons in Hall as [Hx Hr]. specialize (IH Hr).
  destruct r as [|y r'].
  - simpl. lia.
  - change (String.concat sep (x :: y :: r'))
      with (x ++ sep ++ String.concat sep (y :: r'))%string.
    rewrite !string_length_app. simpl length in *. lia.
Qed.

Lemma add_notes_rev (added prev : list NoteItem) :
  fold_left (fun acc n => add_note n acc) added prev
  = (rev added ++ prev)%list.
Proof.
  revert prev. induction added as [|n added IH]; intros prev; simpl.
  - reflexivity.
  - rewrite IH. unfold add_note. rewrite <- app_assoc. reflexivity.
Qed.

Lemma connect_config k notes s :
  k <> ""%string ->
  live_config (world (connectToLiveAPI (Some k) notes (Return tt) s))
  = Some (systemInstruction notes).
Proof.
  intros Hk. unfold connectToLiveAPI. simpl.
  destruct (String.eqb_spec k ""); [contradiction|]. reflexivity.
Qed.

Lemma context_line_shape n :
  context_line n
  = ("[" ++ match type n with
            | THOUGHT => "THOUGHT"
            | ARTICLE => "ARTICLE"
            | CHAT => "CHAT"
            | UNKNOWN => "UNKNOWN"
            end ++ "] " ++ title n ++ ": " ++ summary n)%string.
Proof. unfold context_line. destruct (type n); reflexivity. Qed.

Lemma context_line_length n :
  String.length (context_line n)
  <= String.length (title n) + String.length (summary n) + 12.
Proof.
  rewrite context_line_shape.
  destruct (type n); cbn [append String.length]; rewrite !string_length_app;
    cbn [append String.length]; rewrite ?string_length_app;
    cbn [String.length]; lia.
Qed.

(** C8. The instruction given to the live session holds one line per
    note for the first 50 notes of the list, in their order, and no
    other: at most 50 lines, the line of a note being its type in
    capitals between brackets, its title, a colon and its summary, and
    nothing else of the note. Notes past the 50th change nothing, so
    with lines of at most [M] bytes the summary has at most
    [50 * (M + 1)] bytes however many notes there are, and with titles
    and summaries of at most [T] and [S] bytes at most
    [50 * (T + S + 13)]. The list is kept newest first, so these are the
    most recent notes: once 50 notes have been added, no older note
    contributes. *)
Theorem context_payload_bounded (notes : list NoteItem) :
  (forall k s, k <> ""%string ->
     live_config (world (connectToLiveAPI (Some k) notes (Return tt) s))
     = Some (instruction_head ++ contextSummary notes ++ instruction_tail)%string)
  /\ contextSummary notes
     = String.concat nl (map context_line (take 50 notes))
  /\ length (map context_line (take 50 notes)) <= 50
  /\ (forall j n, j < 50 -> notes !! j = Some n ->
        map context_line (take 50 notes) !! j = Some (context_line n))
  /\ (forall n,
        context_line n
        = ("[" ++ match type n with
                  | THOUGHT => "THOUGHT"
                  | ARTICLE => "ARTICLE"
                  | CHAT => "CHAT"
                  | UNKNOWN => "UNKNOWN"
                  end ++ "] " ++ title n ++ ": " ++ summary n)%string)
  /\ (forall T S,
        (forall n, n ∈ take 50 notes ->
           String.length (title n) <= T /\ String.length (summary n) <= S) ->
        String.length (contextSummary notes) <= 50 * (T + S + 13))
  /\ (forall n1 n2,
        type n1 = type n2 -> title n1 = title n2 -> summary n1 = summary n2 ->
        context_line n1 = context_line n2)
  /\ (forall extra, 50 <= length notes ->
        contextSummary (notes ++ extra)%list = contextSummary notes)
  /\ (forall M,
        (forall n, n ∈ take 50 notes -> String.length (context_line n) <= M) ->
        String.length (contextSummary notes) <= 50 * (M + 1))
  /\ (forall added, 50 <= length added ->
        contextSummary (fold_left (fun acc n => add_note n acc) added notes)
        = contextSummary (rev added)).
Proof.
  assert (Hbound : forall M,
            (forall n, n ∈ take 50 notes -> String.length (context_line n) <= M) ->
            String.length (contextSummary notes) <= 50 * (M + 1)).
  { intros M HM. unfold contextSummary.
    etransitivity.
    - apply (concat_length_le nl _ M).
      apply Forall_forall. intros x Hx.
      apply list_elem_of_In, in_map_iff in Hx as (n & <- & Hn).
      apply HM, list_elem_of_In, Hn.
    - rewrite length_map, length_take. simpl String.length.
      apply Nat.mul_le_mono_r. lia. }
  split; [intros k s Hk; apply connect_config, Hk|].
  split; [reflexivity|].
  split; [rewrite length_map, length_take; lia|].
  split.
  { intros j n Hj Hn. rewrite list_lookup_fmap, lookup_take_lt by exact Hj.
    rewrite Hn. reflexivity. }
  split; [exact context_line_shape|].
  split.
  { intros T S HTS.
    replace (T + S + 13) with ((T + S + 12) + 1) by lia.
    apply Hbound. intros n Hn. destruct (HTS n Hn) as [Ht Hs].
    pose proof (context_line_length n). lia. }
  split.
  { intros n1 n2 Ht Hti Hs. unfold context_line. rewrite Ht, Hti, Hs.
    reflexivity. }
  split.
  { intros extra Hlen. unfold contextSummary.
    rewrite take_app_le by exact Hlen. reflexivity. }
  split; [exact Hbound|].
  intros added Hlen. rewrite add_notes_rev. unfold contextSummary.
  rewrite take_app_le by (rewrite length_rev; exact Hlen). reflexivity.
Qed.

End ContextFacts.

(* ===================================================================== *)
(** ** Instances on concrete sessions and backends *)
(* ===================================================================== *)

Module Instances.
Import Js Types GeminiService VoiceChat.
Import GeminiServiceFacts VoiceChatFacts ContextFacts.
Local Open Scope Z_scope.

(** The same run computed: 1 s, 0.5 s and 1 s of audio fill the window
    from frame 100 to frame 60100 without a gap. *)
Lemma three_chunks_schedule :
  let s := deliver_all three_chunks opened in
  scheduled (world s) !! 6%nat
  = Some {| sch_ctx := 1; sch_when := 100; sch_duration := 24000 |}
  /\ scheduled (world s) !! 7%nat
     = Some {| sch_ctx := 1; sch_when := 24100; sch_duration := 12000 |}
  /\ scheduled (world s) !! 8%nat
     = Some {| sch_ctx := 1; sch_when := 36100; sch_duration := 24000 |}
  /\ nextStartTimeRef s = 60100
  /\ size (sourcesRef s) = 3%nat.
Proof. repeat split; vm_compute; reflexivity. Qed.

Lemma onerror_reports_without_teardown_witness :
  (4%nat ∈ disconnected (world (cleanupAudio (onerror playing))))
  /\ (5%nat ∈ disconnected (world (cleanupAudio (onerror playing))))
  /\ (3%nat ∈ stopped_streams (world (cleanupAudio (onerror playing))))
  /\ (0%nat ∈ closed_contexts (world (cleanupAudio (onerror playing))))
  /\ (1%nat ∈ closed_contexts (world (cleanupAudio (onerror playing))))
  /\ sounds (world (cleanupAudio (onerror playing))) 5 6%nat 10 = false.
Proof.
  destruct (onerror_reports_without_teardown playing)
    as (_&_&_&_&_&_&_&_&_&_&_&_&_&_&Hdown).
  destruct Hdown as (_&_&_&_&_&_&_&Hdisc&Hstream&Hclosed&_&Hsilent&_).
  split; [exact (Hdisc 4%nat (or_intror eq_refl))|].
  split; [exact (Hdisc 5%nat (or_introl eq_refl))|].
  split; [exact (Hstream 3%nat eq_refl)|].
  split; [exact (Hclosed 0%nat (or_introl eq_refl))|].
  split; [exact (Hclosed 1%nat (or_intror eq_refl))|].
  apply Hsilent.
  apply (bool_decide_unpack (6%nat ∈ sourcesRef playing)).
  vm_compute. exact I.
Defined.

Lemma playing_serial_reachable : serial_reachable playing.
Proof.
  unfold playing, opened. do 3 apply serial_call. apply serial_initial.
Defined.


Lemma speaking_gate_witness :
  isSpeaking (onaudioprocess loud playing) = true
  /\ isSpeaking (onaudioprocess (rev loud) playing)
     = isSpeaking (onaudioprocess loud initial)
  /\ isSpeaking (onaudioprocess [] initial) = false.
Proof.
  destruct (speaking_gate initial loud) as (_ & _ & _ & _ & _ & Hsame & _).
  destruct (speaking_gate playing loud) as (Hgate & _).
  destruct (speaking_gate initial []) as (_ & _ & _ & _ & _ & _ & Hempty).
  split; [apply Hgate; vm_compute; reflexivity|].
  split; [apply Hsame; vm_compute; reflexivity | exact Hempty].
Defined.

Lemma context_payload_bounded_witness :
  contextSummary (fifty_notes ++ [sample_note CHAT "Older" "Left out"])%list
  = contextSummary fifty_notes
  /\ (String.length (contextSummary fifty_notes) <= 50 * (40 + 1))%nat
  /\ map context_line (take 50 fifty_notes) !! 0%nat
     = Some (context_line (sample_note ARTICLE "Title" "Summary"))
  /\ context_line (sample_note ARTICLE "Title" "Summary")
     = "[ARTICLE] Title: Summary"%string.
Proof.
  destruct (context_payload_bounded fifty_notes)
    as (_ & _ & _ & Hline & Hshape & _ & _ & Hextra & Hsize & _).
  split; [|split; [|split]].
  - apply Hextra. apply Nat.leb_le. reflexivity.
  - apply Hsize. intros n Hn.
    rewrite take_ge in Hn
      by (unfold fifty_notes; rewrite length_replicate; apply le_n).
    apply elem_of_replicate in Hn as [-> _].
    apply Nat.leb_le. reflexivity.
  - apply Hline; [apply Nat.ltb_lt; reflexivity | reflexivity].
  - exact (Hshape (sample_note ARTICLE "Title" "Summary")).
Defined.

Lemma classifyContent_result_witness :
  exists r,
    classifyContent article_env "hello" None = Return r
    /\ cr_type r = ARTICLE
    /\ cr_title r = JStr "Untitled Note"
    /\ cr_summary r = JStr "No summary available."
    /\ cr_content r = JStr "hello".
Proof.
  destruct (classifyContent_result article_env "hello" None) as [_ Hobj].
  destruct (Hobj "key"%string {| text := Some "reply"%string |}
              (JObj [("type"%string, JStr "article")])
              eq_refl ltac:(discriminate) eq_refl eq_refl
              ltac:(discriminate))
    as (r & Hr & _ & Harticle & _ & _ & Htitle & Hsummary & Hcontent).
  exists r. split; [exact Hr|].
  split; [apply Harticle; reflexivity|].
  split; [apply Htitle; reflexivity|].
  split; [apply Hsummary; reflexivity | apply Hcontent; reflexivity].
Defined.

Lemma generateWeeklyReport_never_rejects_witness :
  generateWeeklyReport failing_env [sample_note THOUGHT "a" "b"]
  = Return "Failed to generate report. Please check your network or API quota."%string
  /\ generateWeeklyReport silent_env [sample_note THOUGHT "a" "b"]
     = Return "Failed to generate report."%string.
Proof.
  split.
  - destruct (generateWeeklyReport_never_rejects failing_env
                [sample_note THOUGHT "a" "b"] "key"%string eq_refl
                ltac:(discriminate)) as (_ & Hthrow & _).
    exact (Hthrow (Rejected "quota") eq_refl).
  - destruct (generateWeeklyReport_never_rejects silent_env
                [sample_note THOUGHT "a" "b"] "key"%string eq_refl
                ltac:(discriminate)) as (_ & _ & Hempty & _).
    exact (Hempty {| text := Some ""%string |} eq_refl eq_refl).
Defined.

(** A chunk that arrives after the scheduled audio has run out starts at
    the clock: on the session that plays source 6 over [5, 15), a chunk
    received at clock 100 starts at 100, 85 frames after source 6 ends. *)
Lemma late_chunk_leaves_gap :
  let s := onmessage (audio_message "BBBB" None) 100 {| frames := 10 |}
             playing in
  scheduled (world s) !! 6%nat
  = Some {| sch_ctx := 1; sch_when := 5; sch_duration := 10 |}
  /\ scheduled (world s) !! 7%nat
     = Some {| sch_ctx := 1; sch_when := 100; sch_duration := 10 |}.
Proof. split; vm_compute; reflexivity. Qed.

(** *** Where the code departs from the description *)

(** C3 as stated fails. One message with a chunk and an interruption, on the session that
    plays source 6 over [5, 15): the handler starts the chunk (source 7)
    on the old timeline at 15 and then stops it with source 6; applying
    the interruption first would leave source 7 active from clock 7. *)
Lemma chunk_precedes_interruption_in_one_message :
  let message := audio_message "AAAA" (Some true) in
  let audioBuffer := {| frames := 3 |} in
  let s2 := onmessage message 7 audioBuffer playing in
  let expected := onmessage_interruption_first message 7 audioBuffer playing in
  scheduled (world s2) !! 7%nat
  = Some {| sch_ctx := 1; sch_when := 15; sch_duration := 3 |}
  /\ elements (stopped (world s2)) = [6%nat; 7%nat]
  /\ elements (sourcesRef s2) = []
  /\ scheduled (world expected) !! 7%nat
     = Some {| sch_ctx := 1; sch_when := 7; sch_duration := 3 |}
  /\ elements (stopped (world expected)) = [6%nat]
  /\ elements (sourcesRef expected) = [7%nat]
  /\ s2 <> expected.
Proof.
  repeat split; try (vm_compute; reflexivity).
  intros Heq. apply (f_equal (fun s => elements (sourcesRef s))) in Heq.
  vm_compute in Heq. discriminate Heq.
Qed.

(** C4 as stated fails. A channel error on the session that plays
    source 6, started for frame 5 when the clock read 5: the capture
    nodes, the stream and both contexts stay in place, nothing is stopped
    or closed, source 6 is still active and sounds at frame 10, which it
    does not after the teardown. *)
Lemma channel_error_leaves_session_running :
  let s := onerror playing in
  error s = Some "Connection error."%string
  /\ processorRef s = Some 5%nat
  /\ sourceRef s = Some 4%nat
  /\ streamRef s = Some 3%nat
  /\ inputAudioContextRef s = Some 0%nat
  /\ outputAudioContextRef s = Some 1%nat
  /\ elements (disconnected (world s)) = []
  /\ elements (stopped_streams (world s)) = []
  /\ elements (closed_contexts (world s)) = []
  /\ elements (sourcesRef s) = [6%nat]
  /\ elements (stopped (world s)) = []
  /\ sounds (world s) 5 6%nat 10 = true
  /\ sounds (world (cleanupAudio playing)) 5 6%nat 10 = false.
Proof. repeat split; vm_compute; reflexivity. Qed.

(** C6 as stated fails. Two blocks of 4096 single-precision samples with
    the same mean absolute amplitude, which is above one hundredth and
    above the double 0.01: the handler reports speaking for the first
    and silence for the second, whose sum is rounded down to 4096 times
    the threshold. *)
Lemma rounding_splits_equal_means :
  length rounded_up = 4096%nat
  /\ length rounded_down = 4096%nat
  /\ forallb single rounded_up = true
  /\ forallb single rounded_down = true
  /\ exact_abs_sum rounded_up = exact_abs_sum rounded_down
  /\ (exists total threshold,
        exact_abs_sum rounded_down = Some total
        /\ exact_scaled vad_threshold = Some threshold
        /\ 4096 * 2 ^ 1074 < 100 * total
        /\ 4096 * threshold < total)
  /\ isSpeaking (onaudioprocess rounded_up opened) = true
  /\ isSpeaking (onaudioprocess rounded_down opened) = false.
Proof.
  split; [vm_compute; reflexivity|]. split; [vm_compute; reflexivity|].
  split; [vm_compute; reflexivity|]. split; [vm_compute; reflexivity|].
  split; [vm_compute; reflexivity|].
  split.
  { eexists _, _. split; [vm_compute; reflexivity|].
    split; [vm_compute; reflexivity|]. split; vm_compute; reflexivity. }
  split; vm_compute; reflexivity.
Qed.


(** An interruption handled while a chunk is being decoded: the chunk is
    started afterwards, at the reset cursor 0, and joins the active set
    with the indicator off. *)
Lemma inflight_chunk_outlives_interruption :
  let sys := run [Arrive (audio_message "BBBB" None) 8;
                  Arrive interruption_message 9;
                  Decoded 0 {| frames := 10 |}]
               {| st := playing; awaiting := [] |} in
  scheduled (world (st sys)) !! 7%nat
  = Some {| sch_ctx := 1; sch_when := 0; sch_duration := 10 |}
  /\ elements (sourcesRef (st sys)) = [7%nat]
  /\ elements (stopped (world (st sys))) = [6%nat]
  /\ isAIResponding (st sys) = false.
Proof. repeat split; vm_compute; reflexivity. Qed.

End Instances.

(* ===================================================================== *)
(** ** The timeline stays in order *)
(* ===================================================================== *)

Module PlaybackFacts.
Import Js Types VoiceChat VoiceChatFacts Playback.
Local Open Scope Z_scope.

Lemma same_timeline_in_order s s' :
  same_timeline s s' -> in_order s -> in_order s'.
Proof.
  intros (Hc & Hsrc & Hsch & Hst & Hl & Hid) [H1 H2 H3 H4 H5].
  split.
  - rewrite Hc. exact H1.
  - intros h e. rewrite Hsch. intros He.
    destruct (H2 h e He) as (Hlt & Hw & Hd).
    split; [lia | split; assumption].
  - intros h. rewrite Hst. intros Hh. specialize (H3 h Hh). lia.
  - intros h. rewrite Hsrc, Hst, Hl, Hsch, Hc. apply H4.
  - intros h1 h2 e1 e2. rewrite Hsrc, Hsch. apply H5.
Qed.

Lemma connect_same_timeline apiKey notes media s :
  same_timeline s (connectToLiveAPI apiKey notes media s).
Proof.
  unfold connectToLiveAPI, same_timeline.
  destruct (negb (str_truthy apiKey)).
  - repeat split; reflexivity.
  - destruct media; repeat split; try reflexivity; lazy; lia.
Qed.

Lemma onopen_same_timeline s : same_timeline s (onopen s).
Proof.
  destruct s as [? ? ? ? ictx ? stream ? ? ? ? ? ?]. unfold same_timeline.
  destruct ictx, stream; repeat split; try reflexivity; lazy; lia.
Qed.

Lemma onaudioprocess_same_timeline inputData s :
  same_timeline s (onaudioprocess inputData s).
Proof.
  unfold onaudioprocess, same_timeline.
  destruct (gtb (block_avg inputData) vad_threshold); repeat split; reflexivity.
Qed.

Lemma same_timeline_refl s : same_timeline s s.
Proof. repeat split; reflexivity. Qed.

Ltac expose_timeline :=
  lazy beta iota zeta delta
    [cleanupAudio world set_world set_sourcesRef setIsConnected
     setIsSpeaking setIsAIResponding set_processorRef set_sourceRef
     set_streamRef set_inputAudioContextRef set_outputAudioContextRef
     processorRef sourceRef streamRef inputAudioContextRef
     outputAudioContextRef sourcesRef nextStartTimeRef
     node_disconnect tracks_stop context_close
     set_disconnected set_stopped_streams set_closed_contexts set_stopped
     next_id ended_listeners].

Lemma cleanupAudio_ids s :
  next_id (world (cleanupAudio s)) = next_id (world s)
  /\ ended_listeners (world (cleanupAudio s)) = ended_listeners (world s).
Proof.
  destruct s as [? ? ? ? ictx octx stream processor source ? ? ? w].
  destruct processor, source, stream, ictx, octx;
    expose_timeline; rewrite stop_each_eq; expose_timeline;
    split; reflexivity.
Qed.

Lemma in_order_initial : in_order initial.
Proof.
  split.
  - reflexivity.
  - intros h e He.
    change ((∅ : gmap Handle Scheduled) !! h = Some e) in He.
    rewrite lookup_empty in He. discriminate.
  - intros h Hh. exfalso. exact (not_elem_of_empty h Hh).
  - intros h Hh. exfalso. exact (not_elem_of_empty h Hh).
  - intros h1 h2 e1 e2 Hh. exfalso. exact (not_elem_of_empty h1 Hh).
Qed.

(** Clearing the active set after stopping its sources. *)
Lemma in_order_cleared s s' :
  in_order s ->
  0 <= nextStartTimeRef s' ->
  sourcesRef s' = ∅ ->
  scheduled (world s') = scheduled (world s) ->
  stopped (world s') = sourcesRef s ∪ stopped (world s) ->
  next_id (world s') = next_id (world s) ->
  in_order s'.
Proof.
  intros [H1 H2 H3 H4 H5] Hc Hsrc Hsch Hst Hid. split.
  - exact Hc.
  - intros h e. rewrite Hsch, Hid. apply H2.
  - intros h. rewrite Hst, Hid. intros Hh.
    apply elem_of_union in Hh as [Hh|Hh]; [|apply H3, Hh].
    destruct (H4 h Hh) as (_ & _ & e & He & _).
    apply (H2 h e He).
  - intros h. rewrite Hsrc. intros Hh. exfalso. exact (not_elem_of_empty h Hh).
  - intros h1 h2 e1 e2. rewrite Hsrc. intros Hh. exfalso.
    exact (not_elem_of_empty h1 Hh).
Qed.

Lemma in_order_cleanupAudio s : in_order s -> in_order (cleanupAudio s).
Proof.
  intros Hs.
  destruct (cleanupAudio_world s) as (Hsch & Hst & _ & _ & _ & _ & Hc).
  destruct (cleanupAudio_refs s) as (_&_&_&_&_&Hsrc&_).
  destruct (cleanupAudio_ids s) as (Hid & _).
  apply (in_order_cleared s); try assumption.
  rewrite Hc. apply (cursor_nonneg s Hs).
Qed.

Lemma in_order_interrupt s : in_order s -> in_order (interrupt s).
Proof.
  intros Hs. apply (in_order_cleared s); try assumption.
  - reflexivity.
  - reflexivity.
  - rewrite interrupt_world. reflexivity.
  - rewrite interrupt_world. reflexivity.
  - rewrite interrupt_world. reflexivity.
Qed.

Lemma in_order_handle_interruption message s :
  in_order s -> in_order (handle_interruption message s).
Proof.
  intros Hs. unfold handle_interruption.
  destruct (is_interrupted message); [apply in_order_interrupt|]; exact Hs.
Qed.

Lemma in_order_prepare now s : in_order s -> in_order (prepare now s).
Proof.
  intros [H1 H2 H3 H4 H5]. split.
  - change (0 <= Z.max (nextStartTimeRef s) now). lia.
  - exact H2.
  - exact H3.
  - intros h Hh. destruct (H4 h Hh) as (Hns & Hl & e & He & Hend).
    split; [exact Hns|]. split; [exact Hl|]. exists e. split; [exact He|].
    change (span_end e <= Z.max (nextStartTimeRef s) now). lia.
  - exact H5.
Qed.

Section Schedule.
Variables (s : State) (ctx : nat) (audioBuffer : AudioBuffer).

Let s' := schedule ctx audioBuffer s.
Let source := next_id (world s).
Let entry := {| sch_ctx := ctx; sch_when := nextStartTimeRef s;
                sch_duration := duration audioBuffer |}.

Lemma schedule_cursor :
  nextStartTimeRef s' = nextStartTimeRef s + duration audioBuffer.
Proof. reflexivity. Qed.

Lemma schedule_sources : sourcesRef s' = {[source]} ∪ sourcesRef s.
Proof. reflexivity. Qed.

Lemma schedule_scheduled :
  scheduled (world s') = <[source := entry]> (scheduled (world s)).
Proof. reflexivity. Qed.

Lemma schedule_stopped : stopped (world s') = stopped (world s).
Proof. reflexivity. Qed.

Lemma schedule_listeners :
  ended_listeners (world s') = {[source]} ∪ ended_listeners (world s).
Proof. reflexivity. Qed.

Lemma schedule_next_id : next_id (world s') = S source.
Proof. reflexivity. Qed.

Lemma schedule_closed :
  closed_contexts (world s') = closed_contexts (world s).
Proof. reflexivity. Qed.

Lemma schedule_indicator : isAIResponding s' = isAIResponding s.
Proof. reflexivity. Qed.

Lemma schedule_context : outputAudioContextRef s' = outputAudioContextRef s.
Proof. reflexivity. Qed.
End Schedule.

Lemma duration_nonneg audioBuffer : 0 <= duration audioBuffer.
Proof. unfold duration. lia. Qed.

Lemma in_order_schedule ctx audioBuffer s :
  in_order s -> in_order (schedule ctx audioBuffer s).
Proof.
  intros [H1 H2 H3 H4 H5].
  pose proof (duration_nonneg audioBuffer) as Hd.
  assert (Hfresh : forall h e, scheduled (world s) !! h = Some e ->
                               h <> next_id (world s)).
  { intros h e He. destruct (H2 h e He) as (Hlt & _). lia. }
  split.
  - rewrite schedule_cursor. lia.
  - intros h e. rewrite schedule_scheduled, schedule_next_id.
    destruct (decide (h = next_id (world s))) as [->|Hne].
    + rewrite lookup_insert_eq. intros [= <-]. simpl. split; [lia|].
      split; assumption.
    + rewrite lookup_insert_ne by congruence. intros He.
      destruct (H2 h e He) as (Hlt & Hw & Hdur).
      split; [lia | split; assumption].
  - intros h. rewrite schedule_stopped, schedule_next_id. intros Hh.
    specialize (H3 h Hh). lia.
  - intros h. rewrite schedule_sources, schedule_stopped, schedule_listeners,
      schedule_scheduled, schedule_cursor.
    intros Hh. apply elem_of_union in Hh as [Hh|Hh].
    + apply elem_of_singleton in Hh as ->.
      split; [intros Hst; specialize (H3 _ Hst); lia|].
      split; [apply elem_of_union_l, elem_of_singleton; reflexivity|].
      eexists. split; [apply lookup_insert_eq|]. unfold span_end. simpl. lia.
    + destruct (H4 h Hh) as (Hns & Hl & e & He & Hend).
      split; [exact Hns|]. split; [apply elem_of_union_r, Hl|].
      exists e. split; [|lia].
      rewrite lookup_insert_ne; [exact He|].
      intros Heq. apply (Hfresh h e He). congruence.
  - intros h1 h2 e1 e2. rewrite schedule_sources, schedule_scheduled.
    intros Hh1 Hh2 Hne.
    destruct (decide (h1 = next_id (world s))) as [->|Hn1];
      destruct (decide (h2 = next_id (world s))) as [->|Hn2].
    + contradiction.
    + rewrite lookup_insert_eq, lookup_insert_ne by congruence.
      intros [= <-] He2.
      apply elem_of_union in Hh2 as [Hh2|Hh2];
        [apply elem_of_singleton in Hh2; contradiction|].
      destruct (H4 h2 Hh2) as (_ & _ & e & He & Hend).
      assert (e = e2) by congruence. subst e.
      right. simpl. exact Hend.
    + rewrite lookup_insert_ne, lookup_insert_eq by congruence.
      intros He1 [= <-].
      apply elem_of_union in Hh1 as [Hh1|Hh1];
        [apply elem_of_singleton in Hh1; contradiction|].
      destruct (H4 h1 Hh1) as (_ & _ & e & He & Hend).
      assert (e = e1) by congruence. subst e.
      left. simpl. exact Hend.
    + rewrite !lookup_insert_ne by congruence.
      apply elem_of_union in Hh1 as [Hh1|Hh1];
        [apply elem_of_singleton in Hh1; contradiction|].
      apply elem_of_union in Hh2 as [Hh2|Hh2];
        [apply elem_of_singleton in Hh2; contradiction|].
      apply H5; assumption.
Qed.

Lemma source_ended_timeline h s :
  nextStartTimeRef (source_ended h s) = nextStartTimeRef s
  /\ world (source_ended h s) = world s.
Proof.
  unfold source_ended.
  destruct (Nat.eqb (size (sourcesRef (set_sourcesRef (sourcesRef s ∖ {[h]}) s))) 0);
    split; reflexivity.
Qed.

Lemma in_order_source_ended h s : in_order s -> in_order (source_ended h s).
Proof.
  intros [H1 H2 H3 H4 H5].
  destruct (source_ended_timeline h s) as (Hc & Hw).
  assert (Hsub : forall x, x ∈ sourcesRef (source_ended h s) -> x ∈ sourcesRef s).
  { intros x. rewrite source_ended_sources. intros Hx.
    apply elem_of_difference in Hx as [Hx _]. exact Hx. }
  split.
  - rewrite Hc. exact H1.
  - rewrite Hw. exact H2.
  - rewrite Hw. exact H3.
  - intros x Hx. rewrite Hw, Hc. apply H4, Hsub, Hx.
  - intros h1 h2 e1 e2 Hh1 Hh2. rewrite Hw. apply H5; apply Hsub; assumption.
Qed.

Lemma in_order_call c s : in_order s -> in_order (call c s).
Proof.
  intros Hs. destruct c as [k n g| | | | |d|m now b|h]; simpl.
  - exact (same_timeline_in_order _ _ (connect_same_timeline k n g s) Hs).
  - apply in_order_cleanupAudio, Hs.
  - exact (same_timeline_in_order _ _ (onopen_same_timeline s) Hs).
  - exact (same_timeline_in_order s (onclose s) (same_timeline_refl s) Hs).
  - exact (same_timeline_in_order s (onerror s) (same_timeline_refl s) Hs).
  - destruct (processorRef s); [|exact Hs].
    exact (same_timeline_in_order _ _ (onaudioprocess_same_timeline d s) Hs).
  - unfold onmessage, onmessage_begin.
    destruct (outputAudioContextRef s) as [ctx|];
      [destruct (str_truthy (base64Audio m))|].
    + apply in_order_handle_interruption, in_order_schedule,
        in_order_prepare, Hs.
    + apply in_order_handle_interruption, Hs.
    + apply in_order_handle_interruption, Hs.
  - destruct (bool_decide _); [apply in_order_source_ended|]; exact Hs.
Qed.

Lemma in_order_step sys e : in_order (st sys) -> in_order (st (step sys e)).
Proof.
  intros Hs. destruct e as [c|m now|i b|i]; simpl; [| | |exact Hs].
  - apply in_order_call, Hs.
  - unfold onmessage_begin.
    destruct (outputAudioContextRef (st sys)) as [ctx|];
      [destruct (str_truthy (base64Audio m))|]; simpl.
    + apply in_order_prepare, Hs.
    + apply in_order_handle_interruption, Hs.
    + apply in_order_handle_interruption, Hs.
  - destruct (awaiting sys !! i) as [k|]; simpl; [|exact Hs].
    apply in_order_handle_interruption, in_order_schedule, Hs.
Qed.

Lemma in_order_run events sys :
  in_order (st sys) -> in_order (st (run events sys)).
Proof.
  revert sys. induction events as [|e events IH]; intros sys Hs; simpl.
  - exact Hs.
  - apply IH, in_order_step, Hs.
Qed.

End PlaybackFacts.

(* ===================================================================== *)
(** ** The session under interleaving, late events and failures *)
(* ===================================================================== *)

Module SessionFacts.
Import Js Types VoiceChat VoiceChatFacts Playback PlaybackFacts.
Local Open Scope Z_scope.

(** X1. In every state the component reaches from its initial state, in
    whatever order messages arrive, decodes resolve or are rejected and
    the other callbacks run, two different sources of the active set were
    started for intervals, from the start time over the duration, that do
    not overlap. So two active sources, each started for a time that was
    not yet past when [start] was called, never sound at the same frame. *)
Theorem active_sources_never_overlap (events : list Event) :
  let s := st (run events boot) in
  (forall h1 h2 e1 e2,
     h1 ∈ sourcesRef s -> h2 ∈ sourcesRef s -> h1 <> h2 ->
     scheduled (world s) !! h1 = Some e1 ->
     scheduled (world s) !! h2 = Some e2 ->
     sch_when e1 + sch_duration e1 <= sch_when e2
     \/ sch_when e2 + sch_duration e2 <= sch_when e1)
  /\ (forall h1 h2 e1 e2 called1 called2 t,
        h1 ∈ sourcesRef s -> h2 ∈ sourcesRef s ->
        scheduled (world s) !! h1 = Some e1 ->
        scheduled (world s) !! h2 = Some e2 ->
        called1 <= sch_when e1 -> called2 <= sch_when e2 ->
        sounds (world s) called1 h1 t = true ->
        sounds (world s) called2 h2 t = true ->
        h1 = h2).
Proof.
  intros s.
  assert (Hs : in_order s) by (apply in_order_run, in_order_initial).
  split.
  - intros h1 h2 e1 e2 Hh1 Hh2 Hne He1 He2.
    exact (active_apart s Hs h1 h2 e1 e2 Hh1 Hh2 Hne He1 He2).
  - intros h1 h2 e1 e2 called1 called2 t Hh1 Hh2 He1 He2 Hc1 Hc2 Hs1 Hs2.
    destruct (decide (h1 = h2)) as [|Hne]; [assumption|]. exfalso.
    unfold sounds in Hs1, Hs2. rewrite He1 in Hs1. rewrite He2 in Hs2.
    cbv zeta in Hs1, Hs2.
    apply andb_true_iff in Hs1 as [Hs1 _]. apply andb_true_iff in Hs1 as [Hs1 _].
    apply andb_true_iff in Hs2 as [Hs2 _]. apply andb_true_iff in Hs2 as [Hs2 _].
    apply bool_decide_eq_true in Hs1. apply bool_decide_eq_true in Hs2.
    destruct (active_apart s Hs h1 h2 e1 e2 Hh1 Hh2 Hne He1 He2) as [H|H];
      unfold span_end in H; lia.
Qed.

(** X2. In every reachable state the cursor is not negative and no
    source was ever started at a negative time; every source of the
    active set was started, carries its completion listener, was not
    stopped, and ends at or before the cursor. *)
Theorem active_set_is_live (events : list Event) :
  let s := st (run events boot) in
  0 <= nextStartTimeRef s
  /\ (forall h e, scheduled (world s) !! h = Some e -> 0 <= sch_when e)
  /\ (forall h, h ∈ sourcesRef s ->
        (h ∉ stopped (world s))
        /\ (h ∈ ended_listeners (world s))
        /\ (exists e, scheduled (world s) !! h = Some e
                      /\ sch_when e + sch_duration e <= nextStartTimeRef s)).
Proof.
  intros s.
  assert (Hs : in_order s) by (apply in_order_run, in_order_initial).
  split; [exact (cursor_nonneg s Hs)|]. split.
  - intros h e He. apply (started_known s Hs h e He).
  - intros h Hh. exact (active_live s Hs h Hh).
Qed.

(** *** What a message is read for *)

Lemma onmessage_begin_audio s ctx message now :
  outputAudioContextRef s = Some ctx ->
  str_truthy (base64Audio message) = true ->
  onmessage_begin message now s
  = (prepare now s, Some {| p_ctx := ctx; p_message := message |}).
Proof. intros Hc Ha. unfold onmessage_begin. rewrite Hc, Ha. reflexivity. Qed.

Lemma onmessage_begin_silent s message now :
  str_truthy (base64Audio message) = false ->
  onmessage_begin message now s = (handle_interruption message s, None).
Proof.
  intros Ha. unfold onmessage_begin. rewrite Ha.
  destruct (outputAudioContextRef s); reflexivity.
Qed.

Lemma onmessage_ext message message' now audioBuffer s :
  base64Audio message = base64Audio message' ->
  is_interrupted message = is_interrupted message' ->
  onmessage message now audioBuffer s = onmessage message' now audioBuffer s.
Proof.
  intros Hb Hi. unfold onmessage, onmessage_begin. rewrite Hb.
  destruct (outputAudioContextRef s) as [ctx|];
    [destruct (str_truthy (base64Audio message'))|];
    unfold onmessage_resume; cbn [p_message p_ctx];
    unfold handle_interruption; rewrite Hi; reflexivity.
Qed.

(** X3. The handler reads the audio of the first part only. Parts after
    the first never change what it does; when the first part holds no
    inline data, or an empty string, no source is started whatever the
    later parts hold, and a message without [serverContent] changes
    nothing at all. *)
Theorem only_first_part_is_played (s : State) (now : Z)
    (audioBuffer : AudioBuffer) (interruption : option bool) :
  (forall p rest rest',
     onmessage (parts_message (p :: rest) interruption) now audioBuffer s
     = onmessage (parts_message (p :: rest') interruption) now audioBuffer s)
  /\ (forall p rest,
        inlineData p = None \/ inlineData p = Some {| blob_data := None |}
        \/ inlineData p = Some {| blob_data := Some ""%string |} ->
        let message := parts_message (p :: rest) interruption in
        onmessage message now audioBuffer s = handle_interruption message s
        /\ scheduled (world (onmessage message now audioBuffer s))
           = scheduled (world s))
  /\ onmessage bare_message now audioBuffer s = s
  /\ onmessage_begin bare_message now s = (s, None).
Proof.
  split; [|split; [|split]].
  - intros p rest rest'. apply onmessage_ext; reflexivity.
  - intros p rest Hp message.
    assert (Hsilent : str_truthy (base64Audio message) = false).
    { unfold message, parts_message, base64Audio. cbn.
      destruct Hp as [->|[->| ->]]; reflexivity. }
    rewrite (onmessage_no_audio _ _ _ _ Hsilent).
    split; [reflexivity | apply handle_interruption_scheduled].
  - apply (onmessage_no_audio s bare_message). reflexivity.
  - apply (onmessage_begin_silent s bare_message). reflexivity.
Qed.

(** *** Events that arrive after the teardown *)

Lemma cleanupAudio_then_interrupt_timeline s :
  sourcesRef (interrupt (cleanupAudio s)) = ∅
  /\ isAIResponding (interrupt (cleanupAudio s)) = false
  /\ scheduled (world (interrupt (cleanupAudio s))) = scheduled (world s).
Proof.
  split; [reflexivity|]. split; [reflexivity|].
  rewrite interrupt_world.
  destruct (cleanupAudio_world s) as (Hsch & _). exact Hsch.
Qed.

Lemma onopen_without_context s :
  inputAudioContextRef s = None -> onopen s = setIsConnected true s.
Proof.
  intros Hi. unfold onopen.
  replace (inputAudioContextRef (setIsConnected true s)) with (@None nat)
    by (symmetry; exact Hi).
  reflexivity.
Qed.

Lemma setIsConnected_processor b s :
  processorRef (setIsConnected b s) = processorRef s.
Proof. reflexivity. Qed.

(** X4. After the teardown every inbound message is dropped: its chunk
    is not decoded, no source is started, the active set stays empty and
    the indicator stays off; the same holds whenever there is no output
    context. An open signal that arrives after the teardown creates no
    capture node, yet marks the session as connected, and capture ticks
    after it do nothing. *)
Theorem late_events_after_teardown (s : State) :
  (forall message now,
     snd (onmessage_begin message now (cleanupAudio s)) = None)
  /\ (forall message now audioBuffer,
        let s' := onmessage message now audioBuffer (cleanupAudio s) in
        scheduled (world s') = scheduled (world s)
        /\ sourcesRef s' = ∅
        /\ isAIResponding s' = false
        /\ (is_interrupted message = false -> s' = cleanupAudio s))
  /\ onopen (cleanupAudio s) = setIsConnected true (cleanupAudio s)
  /\ (forall inputData,
        call (CbAudioProcess inputData) (onopen (cleanupAudio s))
        = onopen (cleanupAudio s)).
Proof.
  destruct (cleanupAudio_refs s) as (Hp&Hn&Hstream&Hi&Ho&Hsrc&_&_&Hind).
  destruct (cleanupAudio_world s) as (Hsch & _).
  assert (Hopen : onopen (cleanupAudio s) = setIsConnected true (cleanupAudio s)).
  { apply onopen_without_context. exact Hi. }
  split; [|split; [|split]].
  - intros message now. unfold onmessage_begin. rewrite Ho. reflexivity.
  - intros message now audioBuffer s'. unfold s'.
    rewrite (onmessage_no_context _ _ _ _ Ho). unfold handle_interruption.
    destruct (is_interrupted message).
    + destruct (cleanupAudio_then_interrupt_timeline s) as (H1 & H2 & H3).
      split; [exact H3|]. split; [exact H1|]. split; [exact H2|]. discriminate.
    + split; [exact Hsch|]. split; [exact Hsrc|]. split; [exact Hind|].
      reflexivity.
  - exact Hopen.
  - intros inputData. rewrite Hopen. unfold call.
    rewrite setIsConnected_processor, Hp. reflexivity.
Qed.

(** *** A decode that resolves late *)

Lemma run_cons e events sys : run (e :: events) sys = run events (step sys e).
Proof. reflexivity. Qed.

Lemma step_arrive_audio s aw ctx message now :
  outputAudioContextRef s = Some ctx ->
  str_truthy (base64Audio message) = true ->
  step {| st := s; awaiting := aw |} (Arrive message now)
  = {| st := prepare now s;
       awaiting := aw ++ [{| p_ctx := ctx; p_message := message |}] |}.
Proof.
  intros Hc Ha. unfold step. cbn [st awaiting].
  rewrite (onmessage_begin_audio _ _ _ _ Hc Ha). reflexivity.
Qed.

Lemma step_arrive_silent s aw message now :
  str_truthy (base64Audio message) = false ->
  step {| st := s; awaiting := aw |} (Arrive message now)
  = {| st := handle_interruption message s; awaiting := aw |}.
Proof.
  intros Ha. unfold step. cbn [st awaiting].
  rewrite (onmessage_begin_silent _ _ _ Ha). reflexivity.
Qed.

Lemma step_decoded s aw i k audioBuffer :
  aw !! i = Some k ->
  step {| st := s; awaiting := aw |} (Decoded i audioBuffer)
  = {| st := onmessage_resume k audioBuffer s; awaiting := delete i aw |}.
Proof. intros Hk. unfold step. cbn [st awaiting]. rewrite Hk. reflexivity. Qed.

Lemma resume_chunk ctx message audioBuffer s :
  chunk_only message = true ->
  onmessage_resume {| p_ctx := ctx; p_message := message |} audioBuffer s
  = schedule ctx audioBuffer s.
Proof.
  intros Hc. apply chunk_only_spec in Hc as [_ Hi].
  unfold onmessage_resume, handle_interruption. cbn [p_message p_ctx].
  rewrite Hi. reflexivity.
Qed.

Lemma interrupt_next_id s : next_id (world (interrupt s)) = next_id (world s).
Proof. rewrite interrupt_world. reflexivity. Qed.

Lemma prepare_world now s : world (prepare now s) = world s.
Proof. reflexivity. Qed.

Lemma prepare_cursor now s :
  nextStartTimeRef (prepare now s) = Z.max (nextStartTimeRef s) now.
Proof. reflexivity. Qed.

Lemma prepare_sources now s : sourcesRef (prepare now s) = sourcesRef s.
Proof. reflexivity. Qed.

Lemma interruption_while_decoding s ctx message message' now now' audioBuffer :
  outputAudioContextRef s = Some ctx ->
  chunk_only message = true ->
  str_truthy (base64Audio message') = false ->
  is_interrupted message' = true ->
  st (run [Arrive message now; Arrive message' now'; Decoded 0 audioBuffer]
        {| st := s; awaiting := [] |})
  = schedule ctx audioBuffer (interrupt (prepare now s)).
Proof.
  intros Hctx Hchunk Hsilent Hint.
  destruct (chunk_only_spec _ Hchunk) as [Haudio _].
  rewrite run_cons, (step_arrive_audio s _ ctx _ _ Hctx Haudio).
  rewrite run_cons, (step_arrive_silent _ _ _ _ Hsilent).
  rewrite run_cons. erewrite step_decoded by reflexivity.
  cbn [run fold_left st].
  rewrite (resume_chunk _ _ _ _ Hchunk).
  unfold handle_interruption. rewrite Hint. reflexivity.
Qed.

(** X5. When a message with an interruption and no audio is handled
    while the decode of an earlier chunk is pending, that chunk is still
    started once its decode resolves: at the reset cursor 0, as the only
    member of the active set, and with the indicator off. *)
Theorem chunk_decoded_after_interruption (s : State) (ctx : nat)
    (message message' : LiveServerMessage) (now now' : Z)
    (audioBuffer : AudioBuffer) :
  outputAudioContextRef s = Some ctx ->
  chunk_only message = true ->
  str_truthy (base64Audio message') = false ->
  is_interrupted message' = true ->
  let s' := st (run [Arrive message now; Arrive message' now';
                     Decoded 0 audioBuffer]
                  {| st := s; awaiting := [] |}) in
  scheduled (world s') !! next_id (world s)
  = Some {| sch_ctx := ctx; sch_when := 0;
            sch_duration := duration audioBuffer |}
  /\ sourcesRef s' = {[next_id (world s)]}
  /\ nextStartTimeRef s' = duration audioBuffer
  /\ isAIResponding s' = false
  /\ sourcesRef s ⊆ stopped (world s').
Proof.
  intros Hctx Hchunk Hsilent Hint s'. unfold s'.
  rewrite (interruption_while_decoding _ _ _ _ _ _ _ Hctx Hchunk Hsilent Hint).
  split.
  { rewrite schedule_scheduled, interrupt_next_id. apply lookup_insert_eq. }
  split.
  { rewrite schedule_sources, interrupt_next_id.
    apply (right_id_L ∅ (∪)). }
  split; [reflexivity|]. split; [reflexivity|].
  rewrite schedule_stopped, interrupt_world.
  intros h Hh. apply elem_of_union_l. exact Hh.
Qed.

Lemma teardown_while_decoding s ctx message now audioBuffer :
  outputAudioContextRef s = Some ctx ->
  chunk_only message = true ->
  st (run [Arrive message now; Call CbCleanup; Decoded 0 audioBuffer]
        {| st := s; awaiting := [] |})
  = schedule ctx audioBuffer (cleanupAudio (prepare now s)).
Proof.
  intros Hctx Hchunk.
  destruct (chunk_only_spec _ Hchunk) as [Haudio _].
  rewrite run_cons, (step_arrive_audio s _ ctx _ _ Hctx Haudio).
  rewrite run_cons.
  change (step ?sys (Call CbCleanup))
    with {| st := cleanupAudio (st sys); awaiting := awaiting sys |}.
  cbn [st awaiting].
  rewrite run_cons. erewrite step_decoded by reflexivity.
  cbn [run fold_left st].
  apply (resume_chunk _ _ _ _ Hchunk).
Qed.

(** X6. When the teardown runs while the decode of a chunk is pending,
    the resumed handler still creates a source on the captured context
    and puts it in the active set, which the teardown had emptied: the
    source is the only member, the indicator stays off, and the source
    never sounds because its context is closed. *)
Theorem chunk_decoded_after_teardown (s : State) (ctx : nat)
    (message : LiveServerMessage) (now : Z) (audioBuffer : AudioBuffer) :
  outputAudioContextRef s = Some ctx ->
  chunk_only message = true ->
  let s' := st (run [Arrive message now; Call CbCleanup;
                     Decoded 0 audioBuffer]
                  {| st := s; awaiting := [] |}) in
  sourcesRef s' = {[next_id (world s)]}
  /\ isAIResponding s' = false
  /\ outputAudioContextRef s' = None
  /\ ctx ∈ closed_contexts (world s')
  /\ (forall called t,
        sounds (world s') called (next_id (world s)) t = false).
Proof.
  intros Hctx Hchunk s'. unfold s'.
  rewrite (teardown_while_decoding _ _ _ _ _ Hctx Hchunk).
  set (s0 := prepare now s).
  destruct (cleanupAudio_refs s0) as (_&_&_&_&Ho&Hsrc&_&_&Hind).
  destruct (cleanupAudio_world s0) as (_ & _ & Hclosed & _).
  destruct (cleanupAudio_ids s0) as (Hid & _).
  assert (Hin : ctx ∈ closed_contexts (world (cleanupAudio s0)))
    by (apply Hclosed; right; exact Hctx).
  split.
  { rewrite schedule_sources, Hsrc, Hid. apply (right_id_L ∅ (∪)). }
  split; [rewrite schedule_indicator; exact Hind|].
  split; [rewrite schedule_context; exact Ho|].
  split; [rewrite schedule_closed; exact Hin|].
  intros called t. eapply sounds_closed.
  - rewrite schedule_scheduled, Hid. apply lookup_insert_eq.
  - rewrite schedule_closed. exact Hin.
Qed.

(** X7. Chunks are placed on the timeline in the order in which their
    decodes resolve, not in the order of arrival: of two chunk messages
    both awaiting their decode, the one decoded first is started at the
    cursor and the other right after it, also when it arrived first. *)
Theorem decode_order_decides_play_order (s : State) (ctx : nat)
    (first second : LiveServerMessage) (t1 t2 : Z) (b1 b2 : AudioBuffer) :
  outputAudioContextRef s = Some ctx ->
  chunk_only first = true -> chunk_only second = true ->
  let s' := st (run [Arrive first t1; Arrive second t2;
                     Decoded 1 b2; Decoded 0 b1]
                  {| st := s; awaiting := [] |}) in
  let cursor := Z.max (Z.max (nextStartTimeRef s) t1) t2 in
  scheduled (world s') !! next_id (world s)
  = Some {| sch_ctx := ctx; sch_when := cursor; sch_duration := duration b2 |}
  /\ scheduled (world s') !! S (next_id (world s))
     = Some {| sch_ctx := ctx; sch_when := cursor + duration b2;
               sch_duration := duration b1 |}
  /\ nextStartTimeRef s' = cursor + duration b2 + duration b1.
Proof.
  intros Hctx H1 H2 s' cursor.
  destruct (chunk_only_spec _ H1) as [Ha1 _].
  destruct (chunk_only_spec _ H2) as [Ha2 _].
  assert (Hs' : s' = schedule ctx b1
                       (schedule ctx b2 (prepare t2 (prepare t1 s)))).
  { unfold s'.
    rewrite run_cons, (step_arrive_audio s _ ctx _ _ Hctx Ha1).
    rewrite run_cons, (step_arrive_audio (prepare t1 s) _ ctx _ _ Hctx Ha2).
    rewrite run_cons. erewrite step_decoded by reflexivity.
    rewrite (resume_chunk _ _ _ _ H2).
    rewrite run_cons. erewrite step_decoded by reflexivity.
    cbn [run fold_left st]. apply (resume_chunk _ _ _ _ H1). }
  rewrite Hs'. split.
  { rewrite schedule_scheduled, schedule_next_id, !prepare_world.
    rewrite lookup_insert_ne by lia.
    rewrite schedule_scheduled, !prepare_world.
    rewrite lookup_insert_eq, !prepare_cursor. reflexivity. }
  split.
  { rewrite schedule_scheduled, schedule_next_id, !prepare_world.
    rewrite lookup_insert_eq, schedule_cursor, !prepare_cursor. reflexivity. }
  rewrite !schedule_cursor, !prepare_cursor. reflexivity.
Qed.

(** *** Completion events of sources no longer active *)

Lemma difference_absent (X : gset Handle) (h : Handle) :
  h ∉ X -> X ∖ {[h]} = X.
Proof.
  intros Hh. apply leibniz_equiv. intros x. rewrite elem_of_difference.
  split; [intros [Hx _]; exact Hx|].
  intros Hx. split; [exact Hx|]. rewrite elem_of_singleton.
  intros ->. exact (Hh Hx).
Qed.

Lemma set_sourcesRef_same s : set_sourcesRef (sourcesRef s) s = s.
Proof. destruct s; reflexivity. Qed.

Lemma setIsAIResponding_same s :
  setIsAIResponding (isAIResponding s) s = s.
Proof. destruct s; reflexivity. Qed.

(** X8. Between handlers that run to completion, the completion event
    of a source that is no longer in the active set (one stopped by an
    interruption or by the teardown, or one never registered) changes
    nothing: it cannot remove another source or lower the indicator
    while audio is scheduled. *)
Theorem stale_completion_changes_nothing (s : State) (h : Handle) :
  serial_reachable s -> h ∉ sourcesRef s -> call (CbEnded h) s = s.
Proof.
  intros Hreach Hh. unfold call.
  destruct (bool_decide (h ∈ ended_listeners (world s))); [|reflexivity].
  unfold source_ended. rewrite (difference_absent _ _ Hh), set_sourcesRef_same.
  destruct (Nat.eqb (size (sourcesRef s)) 0) eqn:Hsize; [|reflexivity].
  apply Nat.eqb_eq, size_empty_iff in Hsize. apply leibniz_equiv in Hsize.
  assert (Hoff : isAIResponding s = false).
  { pose proof (serial_reachable_matches s Hreach) as Hm.
    destruct (isAIResponding s) eqn:E; [|reflexivity].
    exfalso. apply Hm in E. exact (E Hsize). }
  rewrite <- Hoff. apply setIsAIResponding_same.
Qed.

(** *** Failing to connect, and opening again *)

Lemma setError_twice e e' s : setError e (setError e' s) = setError e s.
Proof. destruct s; reflexivity. Qed.

Lemma connect_without_key apiKey notes media s :
  str_truthy apiKey = false ->
  connectToLiveAPI apiKey notes media s = setError (Some connect_failed) s.
Proof.
  intros Hk. unfold connectToLiveAPI. rewrite Hk. apply setError_twice.
Qed.

Lemma str_truthy_present k : k <> ""%string -> str_truthy (Some k) = true.
Proof.
  intros Hk. unfold str_truthy.
  destruct (String.eqb_spec k ""); [contradiction | reflexivity].
Qed.

Lemma connect_denied k notes e s :
  k <> ""%string ->
  let s' := connectToLiveAPI (Some k) notes (Throw e) s in
  error s' = Some connect_failed
  /\ inputAudioContextRef s' = Some (next_id (world s))
  /\ outputAudioContextRef s' = Some (S (next_id (world s)))
  /\ streamRef s' = streamRef s
  /\ sessionRef s' = sessionRef s
  /\ live_config (world s') = live_config (world s)
  /\ closed_contexts (world s') = closed_contexts (world s).
Proof.
  intros Hk s'. unfold s', connectToLiveAPI.
  rewrite (str_truthy_present k Hk). repeat split; reflexivity.
Qed.

Lemma connect_granted k notes s :
  k <> ""%string ->
  let s' := connectToLiveAPI (Some k) notes (Return tt) s in
  error s' = None
  /\ inputAudioContextRef s' = Some (next_id (world s))
  /\ outputAudioContextRef s' = Some (S (next_id (world s)))
  /\ streamRef s' = Some (S (S (S (next_id (world s)))))
  /\ sessionRef s' = true.
Proof.
  intros Hk s'. unfold s', connectToLiveAPI.
  rewrite (str_truthy_present k Hk). repeat split; reflexivity.
Qed.

(** X9. Connecting fails in two ways, with the same message. Without an
    API key (absent or empty) nothing is allocated: the state is the old
    one with the message set. With a key but the microphone refused, the
    two audio contexts have already been created and stay referenced and
    open, no stream, session or instruction is recorded; the teardown
    then closes both contexts. *)
Theorem connect_failures (notes : list NoteItem) (s : State) :
  (forall media,
     connectToLiveAPI None notes media s = setError (Some connect_failed) s
     /\ connectToLiveAPI (Some ""%string) notes media s
        = setError (Some connect_failed) s)
  /\ (forall k e, k <> ""%string ->
        let s' := connectToLiveAPI (Some k) notes (Throw e) s in
        error s' = Some connect_failed
        /\ inputAudioContextRef s' = Some (next_id (world s))
        /\ outputAudioContextRef s' = Some (S (next_id (world s)))
        /\ streamRef s' = streamRef s
        /\ sessionRef s' = sessionRef s
        /\ live_config (world s') = live_config (world s)
        /\ closed_contexts (world s') = closed_contexts (world s)
        /\ (next_id (world s) ∈ closed_contexts (world (cleanupAudio s')))
        /\ (S (next_id (world s)) ∈ closed_contexts (world (cleanupAudio s')))).
Proof.
  split.
  - intros media. split; apply connect_without_key; reflexivity.
  - intros k e Hk s'.
    destruct (connect_denied k notes e s Hk) as (He & Hi & Ho & Hst & Hse & Hl & Hc).
    fold s' in He, Hi, Ho, Hst, Hse, Hl, Hc.
    destruct (cleanupAudio_world s') as (_ & _ & Hclosed & _).
    do 7 (split; [assumption|]).
    split; apply Hclosed; [left | right]; assumption.
Qed.

(** X10. The teardown keeps the cursor, and so does connecting again:
    the first chunk of a new session, whose output clock starts over, is
    started at the maximum of the old session's cursor and the new clock,
    not at the clock. *)
Theorem cursor_survives_reopening (s : State) (k : string)
    (notes : list NoteItem) (message : LiveServerMessage) (now : Z)
    (audioBuffer : AudioBuffer) :
  k <> ""%string ->
  str_truthy (base64Audio message) = true ->
  let s1 := connectToLiveAPI (Some k) notes (Return tt) (cleanupAudio s) in
  nextStartTimeRef s1 = nextStartTimeRef s
  /\ exists e,
       scheduled (world (onmessage message now audioBuffer s1))
         !! next_id (world s1) = Some e
       /\ sch_when e = Z.max (nextStartTimeRef s) now.
Proof.
  intros Hk Haudio s1.
  destruct (connect_granted k notes (cleanupAudio s) Hk) as (_ & _ & Ho & _).
  fold s1 in Ho.
  destruct (connect_same_timeline (Some k) notes (Return tt) (cleanupAudio s))
    as (Hc & _).
  fold s1 in Hc.
  destruct (cleanupAudio_world s) as (_ & _ & _ & _ & _ & _ & Hkeep).
  assert (Hcur : nextStartTimeRef s1 = nextStartTimeRef s) by congruence.
  split; [exact Hcur|].
  eexists. split.
  - apply (enqueue_not_before_clock s1 _ message now audioBuffer Ho Haudio).
  - cbn [sch_when]. rewrite Hcur. reflexivity.
Qed.

Lemma connect_keeps_released apiKey notes media s :
  let s' := connectToLiveAPI apiKey notes media s in
  closed_contexts (world s') = closed_contexts (world s)
  /\ stopped_streams (world s') = stopped_streams (world s)
  /\ disconnected (world s') = disconnected (world s)
  /\ stopped (world s') = stopped (world s)
  /\ sourcesRef s' = sourcesRef s.
Proof.
  intros s'. unfold s', connectToLiveAPI.
  destruct (negb (str_truthy apiKey)); [repeat split; reflexivity|].
  destruct media; repeat split; reflexivity.
Qed.

(** X11. Whenever [isOpen] changes, the effect first tears down what
    the previous state held: both contexts are closed, the microphone
    stream is stopped, the capture nodes are disconnected and the active
    sources are stopped and dropped, before anything new is created.
    Closing the modal runs the teardown twice, which is the teardown. *)
Theorem modal_releases_previous_session (isOpen : bool)
    (apiKey : option string) (notes : list NoteItem)
    (getUserMedia : result unit) (s : State) :
  isOpen_changed false apiKey notes getUserMedia s = cleanupAudio s
  /\ (let s' := isOpen_changed isOpen apiKey notes getUserMedia s in
      (forall c, inputAudioContextRef s = Some c
                 \/ outputAudioContextRef s = Some c ->
         c ∈ closed_contexts (world s'))
      /\ (forall stream, streamRef s = Some stream ->
            stream ∈ stopped_streams (world s'))
      /\ (forall n, processorRef s = Some n \/ sourceRef s = Some n ->
            n ∈ disconnected (world s'))
      /\ sourcesRef s ⊆ stopped (world s')
      /\ sourcesRef s' = ∅).
Proof.
  assert (Htwice : cleanupAudio (cleanupAudio s) = cleanupAudio s).
  { destruct (cleanupAudio_refs s) as (?&?&?&?&?&?&?&?&?).
    apply cleanupAudio_clean; assumption. }
  split; [exact Htwice|].
  intros s'.
  destruct (cleanupAudio_world s) as (_ & Hstop & Hclosed & Hdisc & Hstream & _).
  destruct (cleanupAudio_refs s) as (_&_&_&_&_&Hsrc&_).
  assert (Hframe :
            closed_contexts (world s') = closed_contexts (world (cleanupAudio s))
            /\ stopped_streams (world s') = stopped_streams (world (cleanupAudio s))
            /\ disconnected (world s') = disconnected (world (cleanupAudio s))
            /\ stopped (world s') = stopped (world (cleanupAudio s))
            /\ sourcesRef s' = sourcesRef (cleanupAudio s)).
  { unfold s', isOpen_changed, modal_effect, modal_effect_cleanup.
    destruct isOpen.
    - apply connect_keeps_released.
    - rewrite Htwice. repeat split; reflexivity. }
  destruct Hframe as (Hc & Hs & Hd & Hst & Hsr).
  split; [intros c Hin; rewrite Hc; apply Hclosed, Hin|].
  split; [intros stream Hin; rewrite Hs; apply Hstream, Hin|].
  split; [intros n Hin; rewrite Hd; apply Hdisc, Hin|].
  split.
  - rewrite Hst, Hstop. intros h Hh. apply elem_of_union_l, Hh.
  - rewrite Hsr. exact Hsrc.
Qed.

(** *** Capture *)

Lemma same_timeline_trans s1 s2 s3 :
  same_timeline s1 s2 -> same_timeline s2 s3 -> same_timeline s1 s3.
Proof.
  intros (A1&A2&A3&A4&A5&A6) (B1&B2&B3&B4&B5&B6).
  unfold same_timeline. repeat split; try congruence. lia.
Qed.

Lemma onaudioprocess_capture inputData s :
  processorRef (onaudioprocess inputData s) = processorRef s
  /\ realtime_input (world (onaudioprocess inputData s))
     = (realtime_input (world s) ++ [inputData])%list.
Proof.
  unfold onaudioprocess.
  destruct (gtb (block_avg inputData) vad_threshold); split; reflexivity.
Qed.

(** X12. While a processor is in place, a run of capture ticks queues
    every block for the session, once each and in tick order, leaves the
    playback timeline and the responding indicator as they were, and
    leaves the speaking indicator at the gate of the last block alone.
    Without a processor the ticks do nothing. *)
Theorem capture_forwards_blocks_in_order
    (blocks : list (list PrimFloat.float)) :
  forall s,
    (forall p, processorRef s = Some p ->
       let s' := capture blocks s in
       realtime_input (world s') = (realtime_input (world s) ++ blocks)%list
       /\ same_timeline s s'
       /\ isAIResponding s' = isAIResponding s
       /\ isSpeaking s'
          = match last blocks with
            | Some inputData => gtb (block_avg inputData) vad_threshold
            | None => isSpeaking s
            end)
    /\ (processorRef s = None -> capture blocks s = s).
Proof.
  induction blocks as [|d rest IH]; intros s.
  - split.
    + intros p Hp. cbn [capture fold_left last].
      rewrite app_nil_r. repeat split; try reflexivity.
    + reflexivity.
  - split.
    + intros p Hp s'.
      assert (Hstep : capture (d :: rest) s = capture rest (onaudioprocess d s)).
      { unfold capture. cbn [fold_left call]. rewrite Hp. reflexivity. }
      unfold s'. rewrite Hstep.
      destruct (onaudioprocess_capture d s) as (Hproc & Hin).
      destruct (proj1 (IH (onaudioprocess d s)) p (eq_trans Hproc Hp))
        as (Hall & Htl & Hai & Hsp).
      split; [rewrite Hall, Hin, <- app_assoc; reflexivity|].
      split.
      { exact (same_timeline_trans _ _ _ (onaudioprocess_same_timeline d s) Htl). }
      split.
      { rewrite Hai. apply (onaudioprocess_playback d s). }
      rewrite Hsp, last_cons.
      destruct (last rest); [reflexivity|].
      apply isSpeaking_onaudioprocess.
    + intros Hnone.
      assert (Hstep : capture (d :: rest) s = capture rest s).
      { unfold capture. cbn [fold_left call]. rewrite Hnone. reflexivity. }
      rewrite Hstep. apply (proj2 (IH s)), Hnone.
Qed.

End SessionFacts.

(* ===================================================================== *)
(** ** Enqueueing and interruption when handlers interleave *)
(* ===================================================================== *)

Module InterleavingFacts.
Import Js Types VoiceChat VoiceChatFacts Playback PlaybackFacts SessionFacts.
Local Open Scope Z_scope.

(** *** The two halves of the handler *)

Lemma suspends_audio s ctx message :
  outputAudioContextRef s = Some ctx ->
  str_truthy (base64Audio message) = true -> suspends message s = true.
Proof. intros Hc Ha. unfold suspends. rewrite Hc. exact Ha. Qed.

Lemma suspends_spec s message :
  suspends message s = true ->
  exists ctx, outputAudioContextRef s = Some ctx
              /\ str_truthy (base64Audio message) = true.
Proof.
  unfold suspends. destruct (outputAudioContextRef s) as [ctx|]; [|discriminate].
  intros Ha. exists ctx. split; [reflexivity | exact Ha].
Qed.

Lemma onmessage_begin_through s message now :
  suspends message s = false ->
  onmessage_begin message now s = (handle_interruption message s, None).
Proof.
  unfold suspends, onmessage_begin.
  destruct (outputAudioContextRef s); [|reflexivity].
  intros ->. reflexivity.
Qed.

Lemma step_arrive sys ctx message now :
  outputAudioContextRef (st sys) = Some ctx ->
  str_truthy (base64Audio message) = true ->
  step sys (Arrive message now)
  = {| st := prepare now (st sys);
       awaiting := awaiting sys ++ [{| p_ctx := ctx; p_message := message |}] |}.
Proof. destruct sys as [s aw]. apply step_arrive_audio. Qed.

Lemma step_arrive_through sys message now :
  suspends message (st sys) = false ->
  step sys (Arrive message now)
  = {| st := handle_interruption message (st sys); awaiting := awaiting sys |}.
Proof.
  intros Hs. unfold step. rewrite (onmessage_begin_through _ _ _ Hs).
  reflexivity.
Qed.

Lemma step_resume sys i k audioBuffer :
  awaiting sys !! i = Some k ->
  st (step sys (Decoded i audioBuffer))
  = handle_interruption (p_message k) (schedule (p_ctx k) audioBuffer (st sys)).
Proof. intros Hk. unfold step. rewrite Hk. reflexivity. Qed.

Lemma started_at_cursor sys i k audioBuffer :
  awaiting sys !! i = Some k ->
  scheduled (world (st (step sys (Decoded i audioBuffer))))
    !! next_id (world (st sys))
  = Some {| sch_ctx := p_ctx k; sch_when := nextStartTimeRef (st sys);
            sch_duration := duration audioBuffer |}.
Proof.
  intros Hk. rewrite (step_resume _ _ _ _ Hk).
  rewrite handle_interruption_scheduled, schedule_scheduled.
  apply lookup_insert_eq.
Qed.


(** *** The cursor only goes down by an interruption *)

Lemma duration_not_negative audioBuffer : 0 <= duration audioBuffer.
Proof. unfold duration. lia. Qed.

Lemma cursor_same_timeline s s' :
  same_timeline s s' -> nextStartTimeRef s' = nextStartTimeRef s.
Proof. intros (H & _). exact H. Qed.

Lemma cursor_call c s :
  applies_interruption {| st := s; awaiting := [] |} (Call c) = false ->
  nextStartTimeRef s <= nextStartTimeRef (call c s).
Proof.
  intros Hq. destruct c as [k n g| | | | |d|m now b|h]; cbn [call].
  - rewrite (cursor_same_timeline _ _ (connect_same_timeline k n g s)). lia.
  - destruct (cleanupAudio_world s) as (_&_&_&_&_&_&->). lia.
  - rewrite (cursor_same_timeline _ _ (onopen_same_timeline s)). lia.
  - unfold onclose. cbn. lia.
  - unfold onerror. cbn. lia.
  - destruct (processorRef s); [|lia].
    rewrite (cursor_same_timeline _ _ (onaudioprocess_same_timeline d s)). lia.
  - cbn in Hq.
    assert (Hsame : forall s0, handle_interruption m s0 = s0).
    { intros s0. unfold handle_interruption. rewrite Hq. reflexivity. }
    destruct (outputAudioContextRef s) as [ctx|] eqn:Hctx.
    + destruct (str_truthy (base64Audio m)) eqn:Haudio.
      * rewrite (onmessage_audio _ _ _ _ _ Hctx Haudio), Hsame.
        rewrite schedule_cursor, prepare_cursor.
        pose proof (duration_not_negative b). lia.
      * rewrite (onmessage_no_audio _ _ _ _ Haudio), Hsame. lia.
    + rewrite (onmessage_no_context _ _ _ _ Hctx), Hsame. lia.
  - destruct (bool_decide _); [|lia].
    destruct (source_ended_timeline h s) as [-> _]. lia.
Qed.

Lemma cursor_step sys e :
  applies_interruption sys e = false ->
  nextStartTimeRef (st sys) <= nextStartTimeRef (st (step sys e)).
Proof.
  intros Hq. destruct e as [c|m now|i b|i].
  - cbn [step st]. apply cursor_call.
    destruct c; try reflexivity. exact Hq.
  - cbn [applies_interruption] in Hq.
    destruct (suspends m (st sys)) eqn:Hsus.
    + apply suspends_spec in Hsus as (ctx & Hctx & Haudio).
      rewrite (step_arrive _ _ _ _ Hctx Haudio). cbn [st].
      rewrite prepare_cursor. lia.
    + rewrite (step_arrive_through _ _ _ Hsus). cbn [st].
      rewrite andb_true_r in Hq.
      unfold handle_interruption. rewrite Hq. lia.
  - cbn [applies_interruption] in Hq.
    destruct (awaiting sys !! i) as [k|] eqn:Hk.
    + rewrite (step_resume _ _ _ _ Hk).
      unfold handle_interruption. rewrite Hq.
      rewrite schedule_cursor. pose proof (duration_not_negative b). lia.
    + unfold step. rewrite Hk. lia.
  - cbn [step st]. lia.
Qed.

Lemma cursor_run events :
  forall sys,
    undisturbed sys events = true ->
    nextStartTimeRef (st sys) <= nextStartTimeRef (st (run events sys)).
Proof.
  induction events as [|e events IH]; intros sys Hq.
  - cbn. lia.
  - cbn [undisturbed] in Hq. apply andb_true_iff in Hq as [He Hrest].
    apply negb_true_iff in He.
    rewrite run_cons. specialize (IH _ Hrest).
    pose proof (cursor_step sys e He). lia.
Qed.

(** *** Chunks that stream in *)






(** C2, as amended. Right after the interruption of lines 167-172 the
    active set is empty, the cursor is zero and every source that was
    active is stopped. A chunk whose message arrives afterwards is
    started at or after the output clock that its handler read on
    arrival, provided no interruption is applied between that arrival and
    the end of its decode, whatever else runs in between; the clock is
    not read again when the source is started. When the handler runs
    with nothing in between, the chunk that follows an interruption
    starts at the maximum of zero and the clock. *)
Theorem interrupt_then_enqueue (s : State) :
  sourcesRef (interrupt s) = ∅
  /\ nextStartTimeRef (interrupt s) = 0
  /\ sourcesRef s ⊆ stopped (world (interrupt s))
  /\ (forall ctx message now audioBuffer,
        outputAudioContextRef s = Some ctx ->
        str_truthy (base64Audio message) = true ->
        exists e,
          scheduled (world (onmessage message now audioBuffer (interrupt s)))
            !! next_id (world (interrupt s)) = Some e
          /\ sch_when e = Z.max 0 now
          /\ now <= sch_when e)
  /\ (forall sys message now events i k audioBuffer,
        suspends message (st sys) = true ->
        let sys1 := step sys (Arrive message now) in
        undisturbed sys1 events = true ->
        let sys2 := run events sys1 in
        awaiting sys2 !! i = Some k ->
        exists e,
          scheduled (world (st (step sys2 (Decoded i audioBuffer))))
            !! next_id (world (st sys2)) = Some e
          /\ sch_when e = nextStartTimeRef (st sys2)
          /\ now <= sch_when e).
Proof.
  destruct (interrupt_whole_handler s) as (Hempty & Hzero & Hnext & _).
  split; [exact Hempty|]. split; [exact Hzero|]. split.
  { rewrite interrupt_world. cbn. intros h Hh. apply elem_of_union_l, Hh. }
  split; [exact Hnext|].
  intros sys message now events i k audioBuffer Hsus sys1 Hq sys2 Hk.
  eexists. split; [apply (started_at_cursor _ _ _ _ Hk)|].
  cbn [sch_when]. split; [reflexivity|].
  pose proof (cursor_run events sys1 Hq) as Hmono. fold sys2 in Hmono.
  apply suspends_spec in Hsus as (ctx & Hctx & Haudio).
  assert (Hcur : nextStartTimeRef (st sys1)
                 = Z.max (nextStartTimeRef (st sys)) now).
  { unfold sys1. rewrite (step_arrive _ _ _ _ Hctx Haudio). reflexivity. }
  lia.
Qed.

(** C3, as amended. A message with an interruption and no playable chunk
    applies the interruption on arrival. A message that holds both a
    chunk and an interruption is handled chunk first: on arrival nothing
    is interrupted, and when the decode of the chunk resolves, whatever
    ran in between, the chunk is started on the timeline as it then
    stands and the interruption is applied after it, so that the chunk's
    own source is stopped with every other active source, the active set
    is empty, the cursor is zero and the indicator is off. When the
    handler runs with nothing in between, the chunk was started at the
    maximum of the cursor and the clock. After an interruption has been
    applied, the chunk of a message that arrives next and is handled
    with nothing in between is the only member of the active set and
    starts a new timeline at the maximum of zero and the clock. *)
Theorem interruption_follows_own_chunk (sys : Sys)
    (message : LiveServerMessage) (now : Z) :
  is_interrupted message = true ->
  let s := st sys in
  (suspends message s = false ->
     step sys (Arrive message now)
     = {| st := interrupt s; awaiting := awaiting sys |})
  /\ (forall ctx,
        outputAudioContextRef s = Some ctx ->
        str_truthy (base64Audio message) = true ->
        step sys (Arrive message now)
        = {| st := prepare now s;
             awaiting := (awaiting sys
                          ++ [{| p_ctx := ctx; p_message := message |}])%list |}
        /\ sourcesRef (prepare now s) = sourcesRef s
        /\ world (prepare now s) = world s)
  /\ (forall later i ctx audioBuffer,
        awaiting later !! i = Some {| p_ctx := ctx; p_message := message |} ->
        let s2 := st later in
        let s3 := st (step later (Decoded i audioBuffer)) in
        s3 = interrupt (schedule ctx audioBuffer s2)
        /\ scheduled (world s3) !! next_id (world s2)
           = Some {| sch_ctx := ctx; sch_when := nextStartTimeRef s2;
                     sch_duration := duration audioBuffer |}
        /\ next_id (world s2) ∈ stopped (world s3)
        /\ sourcesRef s2 ⊆ stopped (world s3)
        /\ sourcesRef s3 = ∅
        /\ nextStartTimeRef s3 = 0
        /\ isAIResponding s3 = false)
  /\ (forall ctx audioBuffer,
        outputAudioContextRef s = Some ctx ->
        str_truthy (base64Audio message) = true ->
        let s1 := onmessage message now audioBuffer s in
        s1 = interrupt (schedule ctx audioBuffer (prepare now s))
        /\ scheduled (world s1) !! next_id (world s)
           = Some {| sch_ctx := ctx;
                     sch_when := Z.max (nextStartTimeRef s) now;
                     sch_duration := duration audioBuffer |})
  /\ (forall before ctx message' now' audioBuffer',
        outputAudioContextRef before = Some ctx ->
        chunk_only message' = true ->
        let s2 := onmessage message' now' audioBuffer' (interrupt before) in
        sourcesRef s2 = {[next_id (world before)]}
        /\ scheduled (world s2) !! next_id (world before)
           = Some {| sch_ctx := ctx; sch_when := Z.max 0 now';
                     sch_duration := duration audioBuffer' |}).
Proof.
  intros Hint s.
  assert (Happly : forall s0, handle_interruption message s0 = interrupt s0).
  { intros s0. unfold handle_interruption. rewrite Hint. reflexivity. }
  split; [|split; [|split; [|split]]].
  - intros Hsus. rewrite (step_arrive_through _ _ _ Hsus), Happly. reflexivity.
  - intros ctx Hctx Haudio.
    split; [apply step_arrive; assumption|]. split; reflexivity.
  - intros later i ctx audioBuffer Hk s2 s3.
    assert (Hs3 : s3 = interrupt (schedule ctx audioBuffer s2)).
    { unfold s3. rewrite (step_resume _ _ _ _ Hk). cbn [p_message p_ctx].
      apply Happly. }
    split; [exact Hs3|]. split.
    { unfold s3. rewrite (started_at_cursor _ _ _ _ Hk). reflexivity. }
    rewrite Hs3, interrupt_world.
    split.
    { cbn [stopped set_stopped]. rewrite schedule_sources.
      apply elem_of_union_l, elem_of_union_l, elem_of_singleton. reflexivity. }
    split.
    { cbn [stopped set_stopped]. rewrite schedule_sources.
      intros h Hh. apply elem_of_union_l, elem_of_union_r, Hh. }
    split; [reflexivity|]. split; reflexivity.
  - intros ctx audioBuffer Hctx Haudio s1.
    assert (Hs1 : s1 = interrupt (schedule ctx audioBuffer (prepare now s))).
    { unfold s1. rewrite (onmessage_audio _ _ _ _ _ Hctx Haudio).
      apply Happly. }
    split; [exact Hs1|].
    unfold s1. apply enqueue_not_before_clock; assumption.
  - intros before ctx message' now' audioBuffer' Hctx Hchunk s2. unfold s2.
    assert (Hctx' : outputAudioContextRef (interrupt before) = Some ctx)
      by exact Hctx.
    rewrite (onmessage_chunk _ _ _ _ _ Hctx' Hchunk).
    split.
    + rewrite enqueue_sources, interrupt_next_id. apply (right_id_L ∅ (∪)).
    + rewrite enqueue_scheduled, interrupt_next_id. apply lookup_insert_eq.
Qed.

End InterleavingFacts.

(* ===================================================================== *)
(** ** The services: keys, errors and the shape of the response *)
(* ===================================================================== *)

Module ServiceFacts.
Import Js Types GeminiService GeminiServiceFacts Samples.

Lemma getClient_absent env :
  str_truthy (API_KEY env) = false ->
  getClient env = Throw (Error "API Key not found").
Proof.
  unfold str_truthy, getClient. destruct (API_KEY env) as [k|]; [|reflexivity].
  destruct (String.eqb k ""); [reflexivity | discriminate].
Qed.

(** X13. Without an API key, absent or empty, both services reject with
    the error "API Key not found" before any request is built: the
    generation backend is not consulted, and the report service does not
    turn this failure into its fallback text. *)
Theorem services_need_api_key (env : Env) (text_in : string)
    (media_in : option Media) (items : list NoteItem) :
  str_truthy (API_KEY env) = false ->
  classifyContent env text_in media_in = Throw (Error "API Key not found")
  /\ generateWeeklyReport env items = Throw (Error "API Key not found").
Proof.
  intros Hk. unfold classifyContent, generateWeeklyReport.
  rewrite (getClient_absent env Hk). split; reflexivity.
Qed.

(** X14. [classifyContent] passes every failure on unchanged: the error
    of the generation call, the error of [JSON.parse] on the cleaned
    text, and the TypeError of reading a member of [null] when the
    response text is the JSON [null]. *)
Theorem classifyContent_rethrows (env : Env) (text_in : string)
    (media_in : option Media) (k : string) :
  API_KEY env = Some k -> k <> "" ->
  let request :=
    {| model := "gemini-2.5-flash";
       contents := ClassifyParts (classify_parts text_in media_in) |} in
  let cleaned response :=
    strip_close_fence (strip_open_fence (str_or (text response) "{}")) in
  (forall e, generateContent env request = Throw e ->
     classifyContent env text_in media_in = Throw e)
  /\ (forall response e,
        generateContent env request = Return response ->
        JSON_parse env (cleaned response) = Throw e ->
        classifyContent env text_in media_in = Throw e)
  /\ (forall response,
        generateContent env request = Return response ->
        JSON_parse env (cleaned response) = Return JNull ->
        classifyContent env text_in media_in = Throw TypeError).
Proof.
  intros Hk Hne request cleaned.
  unfold classifyContent. rewrite (getClient_present _ _ Hk Hne).
  cbn [bind]. fold request.
  split; [|split].
  - intros e ->. reflexivity.
  - intros response e -> Hp. cbn [bind try_catch].
    unfold cleaned in Hp. rewrite Hp. reflexivity.
  - intros response -> Hp. cbn [bind try_catch].
    unfold cleaned in Hp. rewrite Hp. reflexivity.
Qed.

(** X15. A response without text, or with an empty text, is read as the
    empty object: when that parses, the result is a thought titled
    "Untitled Note" with the summary "No summary available.", the
    caller's text as content and no source URL. *)
Theorem empty_response_gives_default_note (env : Env) (text_in : string)
    (media_in : option Media) (k : string) (response : Response) :
  API_KEY env = Some k -> k <> "" ->
  generateContent env
    {| model := "gemini-2.5-flash";
       contents := ClassifyParts (classify_parts text_in media_in) |}
  = Return response ->
  str_truthy (text response) = false ->
  JSON_parse env "{}" = Return (JObj []) ->
  classifyContent env text_in media_in
  = Return {| cr_type := THOUGHT;
              cr_title := JStr "Untitled Note";
              cr_summary := JStr "No summary available.";
              cr_sourceUrl := None;
              cr_content := JStr text_in |}.
Proof.
  intros Hk Hne Hgen Hempty Hparse.
  assert (Htext : str_or (text response) "{}" = "{}").
  { unfold str_truthy in Hempty. unfold str_or.
    destruct (text response) as [t|]; [|reflexivity].
    destruct (String.eqb t ""); [reflexivity | discriminate]. }
  unfold classifyContent. rewrite (getClient_present _ _ Hk Hne).
  cbn [bind]. rewrite Hgen. cbn [bind try_catch]. rewrite Htext.
  change (strip_close_fence (strip_open_fence "{}")) with "{}".
  rewrite Hparse. reflexivity.
Qed.

(** *** Removing the Markdown fence *)

Lemma starts_with_app p l : starts_with p (p ++ l)%list = Some l.
Proof.
  induction p as [|a p IH]; [reflexivity|]. simpl.
  rewrite Ascii.eqb_refl. exact IH.
Qed.

(** *** White space at either end *)

Lemma space_width_le l : space_width l <= length l.
Proof.
  destruct l as [|a [|b [|c l]]]; cbn [space_width length];
    repeat match goal with |- context [if ?t then _ else _] => destruct t end;
    lia.
Qed.

Lemma space_width_back_le r : space_width_back r <= length r.
Proof.
  destruct r as [|a [|b [|c r]]]; cbn [space_width_back length];
    repeat match goal with |- context [if ?t then _ else _] => destruct t end;
    lia.
Qed.

Lemma drop_while_enough width :
  (forall l, width l <= length l) ->
  forall fuel fuel' l,
    length l <= fuel -> length l <= fuel' ->
    drop_while width fuel l = drop_while width fuel' l.
Proof.
  intros Hle. induction fuel as [|fuel IH]; intros fuel' l Hf Hf'.
  - destruct l; [|simpl in Hf; lia].
    destruct fuel'; [reflexivity|]. cbn [drop_while].
    pose proof (Hle []) as H0. simpl in H0.
    destruct (width []); [reflexivity | lia].
  - destruct fuel' as [|fuel'].
    + destruct l; [|simpl in Hf'; lia]. cbn [drop_while].
      pose proof (Hle []) as H0. simpl in H0.
      destruct (width []); [reflexivity | lia].
    + cbn [drop_while]. destruct (width l) as [|w] eqn:Hw; [reflexivity|].
      pose proof (Hle l) as Hl. rewrite Hw in Hl.
      apply IH; rewrite length_drop; lia.
Qed.

Lemma drop_while_stop width fuel l : width l = 0 -> drop_while width fuel l = l.
Proof. intros Hw. destruct fuel; [reflexivity|]. cbn. rewrite Hw. reflexivity. Qed.

Lemma drop_while_char width (w l : list ascii) :
  (forall l0, width l0 <= length l0) ->
  w <> [] -> width (w ++ l)%list = length w ->
  drop_while width (length (w ++ l)%list) (w ++ l)%list
  = drop_while width (length l) l.
Proof.
  intros Hle Hne Hw. rewrite length_app.
  destruct w as [|a w]; [contradiction|].
  cbn [length Nat.add drop_while]. rewrite Hw. cbn [length].
  change (drop (S (length w)) ((a :: w) ++ l)%list)
    with (drop (length w) (w ++ l)%list).
  rewrite drop_app_length.
  apply (drop_while_enough width Hle); lia.
Qed.

Lemma space_width_app w l :
  space_char w = true -> space_width (w ++ l)%list = length w.
Proof.
  unfold space_char. intros H. apply andb_true_iff in H as [Hw Hne].
  apply Nat.eqb_eq in Hw.
  destruct w as [|a [|b [|c [|d w]]]]; cbn [app length] in *;
    try discriminate.
  - cbn [space_width] in *. destruct (is_space a); [reflexivity|discriminate].
  - cbn [space_width] in *. destruct (is_space a); [discriminate|].
    destruct (is_space2 a b); [reflexivity|discriminate].
  - cbn [space_width] in *. destruct (is_space a); [discriminate|].
    destruct (is_space2 a b); [discriminate|].
    destruct (is_space3 a b c); [reflexivity|discriminate].
  - pose proof (space_width_le (a :: b :: c :: d :: w)) as Hle.
    cbn [space_width] in Hw.
    repeat match type of Hw with context [if ?t then _ else _] => destruct t end;
      discriminate.
Qed.

Lemma space_char_nonempty w : space_char w = true -> w <> [].
Proof. intros H ->. discriminate H. Qed.

Lemma drop_spaces_white ws l :
  Forall (fun w => space_char w = true) ws ->
  drop_spaces (concat ws ++ l)%list = drop_spaces l.
Proof.
  induction 1 as [|w ws Hw _ IH]; [reflexivity|].
  cbn [concat]. rewrite <- app_assoc. unfold drop_spaces in *.
  rewrite (drop_while_char space_width w _ space_width_le
             (space_char_nonempty w Hw) (space_width_app w _ Hw)).
  exact IH.
Qed.

Lemma drop_spaces_stop l : space_width l = 0 -> drop_spaces l = l.
Proof. apply drop_while_stop. Qed.

Lemma drop_spaces_back_stop r :
  space_width_back r = 0 -> drop_spaces_back r = r.
Proof. apply drop_while_stop. Qed.

(** The bytes of a white-space character are not themselves white
    space, except for a character of one byte. *)
Lemma is_space_low c : is_space c = true -> (code c <= 32)%N.
Proof.
  unfold is_space. cbv zeta. intros H.
  repeat (apply orb_true_iff in H as [H|H]); apply N.eqb_eq in H; lia.
Qed.

Lemma is_space2_bytes a b :
  is_space2 a b = true -> code a = 194%N /\ code b = 160%N.
Proof.
  unfold is_space2. intros H. apply andb_true_iff in H as [Ha Hb].
  apply N.eqb_eq in Ha, Hb. auto.
Qed.

Lemma is_space3_bytes a b c :
  is_space3 a b c = true ->
  (225 <= code a)%N /\ (128 <= code b <= 187)%N
  /\ (128 <= code c <= 191)%N.
Proof.
  unfold is_space3. cbv zeta. intros H.
  repeat (apply orb_true_iff in H as [H|H]);
    repeat match goal with
           | H : (_ && _)%bool = true |- _ => apply andb_true_iff in H as [? ?]
           | H : (_ || _)%bool = true |- _ => apply orb_true_iff in H as [?|?]
           | H : (_ =? _)%N = true |- _ => apply N.eqb_eq in H
           | H : (_ <=? _)%N = true |- _ => apply N.leb_le in H
           end; lia.
Qed.

Lemma not_space_high c : (33 <= code c)%N -> is_space c = false.
Proof.
  intros H. destruct (is_space c) eqn:E; [|reflexivity].
  apply is_space_low in E. lia.
Qed.

Lemma not_space2 a b : code a <> 194%N -> is_space2 a b = false.
Proof.
  intros H. destruct (is_space2 a b) eqn:E; [|reflexivity].
  apply is_space2_bytes in E as [E _]. contradiction.
Qed.

Lemma space_width_back_app w r :
  space_char w = true -> space_width_back (rev w ++ r)%list = length w.
Proof.
  unfold space_char. intros H. apply andb_true_iff in H as [Hw Hne].
  apply Nat.eqb_eq in Hw.
  destruct w as [|a [|b [|c [|d w]]]]; cbn [app length] in *;
    try discriminate.
  - cbn [space_width] in Hw. cbn [rev app space_width_back].
    destruct (is_space a); [reflexivity|discriminate].
  - cbn [space_width] in Hw. cbn [rev app space_width_back].
    destruct (is_space a); [discriminate|].
    destruct (is_space2 a b) eqn:E2; [|discriminate].
    apply is_space2_bytes in E2 as E. destruct E as [_ Hb].
    rewrite (not_space_high b) by lia. reflexivity.
  - cbn [space_width] in Hw. cbn [rev app space_width_back].
    destruct (is_space a); [discriminate|].
    destruct (is_space2 a b); [discriminate|].
    destruct (is_space3 a b c) eqn:E3; [|discriminate].
    apply is_space3_bytes in E3 as E. destruct E as (Ha & Hb & Hc).
    rewrite (not_space_high c) by lia.
    rewrite (not_space2 b c) by lia. reflexivity.
  - cbn [space_width] in Hw.
    repeat match type of Hw with context [if ?t then _ else _] => destruct t end;
      discriminate.
Qed.

Lemma drop_spaces_back_white ws r :
  Forall (fun w => space_char w = true) ws ->
  drop_spaces_back (rev (concat ws) ++ r)%list = drop_spaces_back r.
Proof.
  intros Hall. revert r. induction Hall as [|w ws Hw _ IH]; intros r.
  - reflexivity.
  - cbn [concat]. rewrite rev_app_distr, <- app_assoc, IH.
    unfold drop_spaces_back.
    apply (drop_while_char space_width_back (rev w) r space_width_back_le).
    + intros Hnil. apply (space_char_nonempty w Hw).
      rewrite <- (rev_involutive w), Hnil. reflexivity.
    + rewrite length_rev. apply space_width_back_app, Hw.
Qed.

Lemma not_space2_second a x :
  (code x < 128)%N \/ (192 <= code x)%N -> is_space2 a x = false.
Proof.
  intros H. destruct (is_space2 a x) eqn:E; [|reflexivity].
  apply is_space2_bytes in E as [_ E]. lia.
Qed.

Lemma not_space3_second a x y :
  (code x < 128)%N \/ (192 <= code x)%N -> is_space3 a x y = false.
Proof.
  intros H. destruct (is_space3 a x y) eqn:E; [|reflexivity].
  apply is_space3_bytes in E as (_ & E & _). lia.
Qed.

Lemma not_space3_third a b x :
  (code x < 128)%N \/ (192 <= code x)%N -> is_space3 a b x = false.
Proof.
  intros H. destruct (is_space3 a b x) eqn:E; [|reflexivity].
  apply is_space3_bytes in E as (_ & _ & E). lia.
Qed.

Lemma space_width_keep body tail :
  body <> [] -> space_width body = 0 -> starts_afresh tail ->
  space_width (body ++ tail)%list = 0.
Proof.
  intros Hne Hw Htail.
  destruct body as [|a [|b [|c body]]]; [contradiction| | |exact Hw].
  - cbn [space_width] in Hw. cbn [app space_width].
    destruct (is_space a); [discriminate|].
    destruct tail as [|x [|y tail]]; [reflexivity| |]; cbn [starts_afresh] in Htail.
    + rewrite (not_space2_second a x Htail). reflexivity.
    + rewrite (not_space2_second a x Htail), (not_space3_second a x y Htail).
      reflexivity.
  - cbn [space_width] in Hw. cbn [app space_width].
    destruct (is_space a); [discriminate|].
    destruct (is_space2 a b); [discriminate|].
    destruct tail as [|x tail]; [reflexivity|]. cbn [starts_afresh] in Htail.
    rewrite (not_space3_third a b x Htail). reflexivity.
Qed.

Lemma space_char_first w l :
  space_char w = true -> starts_afresh (w ++ l)%list.
Proof.
  unfold space_char. intros H. apply andb_true_iff in H as [Hw Hne].
  apply Nat.eqb_eq in Hw.
  destruct w as [|a w]; [discriminate|]. cbn [app starts_afresh].
  destruct w as [|b [|c w]]; cbn [space_width length] in Hw.
  - destruct (is_space a) eqn:E; [|discriminate].
    apply is_space_low in E. lia.
  - destruct (is_space a) eqn:E; [discriminate|].
    destruct (is_space2 a b) eqn:E2; [|discriminate].
    apply is_space2_bytes in E2. lia.
  - destruct (is_space a) eqn:E; [apply is_space_low in E; lia|].
    destruct (is_space2 a b) eqn:E2; [apply is_space2_bytes in E2; lia|].
    destruct (is_space3 a b c) eqn:E3; [|destruct w; discriminate].
    apply is_space3_bytes in E3. lia.
Qed.

Lemma white_then_fence_afresh ws :
  Forall (fun w => space_char w = true) ws ->
  starts_afresh (concat ws ++ fence)%list.
Proof.
  intros [|w rest Hw _].
  - cbn. left. reflexivity.
  - cbn [concat]. rewrite <- app_assoc. apply space_char_first, Hw.
Qed.

(** X16. A response wrapped in a Markdown fence is unwrapped: from the
    opening fence with its language tag, white space, a body, white
    space and the closing fence, exactly the body is left, provided the
    body neither begins nor ends with white space. White space is any
    run of characters of the class [\s], the ideographic and no-break
    spaces among them. A text that neither begins with the opening fence
    nor ends with the closing one is left as it is. *)
Theorem fenced_json_is_unwrapped (body : list ascii)
    (before after : list (list ascii)) :
  Forall (fun w => space_char w = true) before ->
  Forall (fun w => space_char w = true) after ->
  space_width body = 0 -> space_width_back (rev body) = 0 ->
  strip_close_fence
    (strip_open_fence
       (string_of_list_ascii
          (fence ++ list_ascii_of_string "json" ++ concat before ++ body
             ++ concat after ++ fence)%list))
  = string_of_list_ascii body
  /\ (forall s,
        starts_with (fence ++ list_ascii_of_string "json")%list
          (list_ascii_of_string s) = None ->
        starts_with fence (rev (list_ascii_of_string s)) = None ->
        strip_close_fence (strip_open_fence s) = s).
Proof.
  intros Hbefore Hafter Hlead Htrail. split.
  - unfold strip_open_fence.
    rewrite list_ascii_of_string_of_list_ascii.
    replace (fence ++ list_ascii_of_string "json" ++ concat before ++ body
               ++ concat after ++ fence)%list
      with ((fence ++ list_ascii_of_string "json")
              ++ (concat before ++ body ++ concat after ++ fence))%list
      by (rewrite <- app_assoc; reflexivity).
    rewrite starts_with_app, (drop_spaces_white _ _ Hbefore).
    destruct body as [|c body].
    + cbn [app]. rewrite (drop_spaces_white _ _ Hafter).
      reflexivity.
    + rewrite drop_spaces_stop
        by (apply space_width_keep;
            [discriminate | exact Hlead
             | apply white_then_fence_afresh, Hafter]).
      unfold strip_close_fence.
      rewrite list_ascii_of_string_of_list_ascii.
      rewrite !rev_app_distr.
      change (rev fence) with fence.
      rewrite <- app_assoc, starts_with_app.
      rewrite (drop_spaces_back_white _ _ Hafter).
      rewrite (drop_spaces_back_stop _ Htrail).
      rewrite rev_involutive. reflexivity.
  - intros s Hopen Hclose.
    unfold strip_open_fence. rewrite Hopen.
    unfold strip_close_fence. rewrite Hclose. reflexivity.
Qed.

Lemma assoc_without_same k members : assoc k (without k members) = None.
Proof.
  induction members as [|[a x] rest IH]; [reflexivity|].
  unfold without in *. cbn [List.filter fst].
  destruct (String.eqb k a) eqn:E; cbn [negb]; [exact IH|].
  cbn [assoc]. rewrite E. exact IH.
Qed.

Lemma assoc_without_other k k' members :
  k' <> k -> assoc k' (without k members) = assoc k' members.
Proof.
  intros Hne. induction members as [|[a x] rest IH]; [reflexivity|].
  unfold without in *. cbn [List.filter fst].
  destruct (String.eqb_spec k a) as [<-|Hka]; cbn [negb assoc].
  - destruct (String.eqb_spec k' k); [contradiction | exact IH].
  - rewrite IH. reflexivity.
Qed.

(** A reading of a member that does not tell an empty value from a
    missing one reads the same from the object without that member. *)
Lemma read_without {A} (f : option json -> A) k v members key :
  assoc k members = Some v -> f (Some v) = f None ->
  f (assoc key (without k members)) = f (assoc key members).
Proof.
  intros Hk Hf. destruct (String.eqb_spec key k) as [->|Hne].
  - rewrite assoc_without_same, Hk. symmetry. exact Hf.
  - rewrite (assoc_without_other _ _ _ Hne). reflexivity.
Qed.

Lemma map_type_empty v : truthy v = false -> map_type (Some v) = map_type None.
Proof.
  destruct v as [|b|q|t|l|m]; try reflexivity; try discriminate.
  cbn [truthy]. intros Ht. apply negb_false_iff, String.eqb_eq in Ht.
  subst t. reflexivity.
Qed.

Lemma or_else_empty v d : truthy v = false -> or_else (Some v) d = or_else None d.
Proof. intros Ht. unfold or_else. rewrite Ht. reflexivity. Qed.

Lemma or_undefined_empty v :
  truthy v = false -> or_undefined (Some v) = or_undefined None.
Proof. intros Ht. unfold or_undefined. rewrite Ht. reflexivity. Qed.

(** X17. A member that is present but empty counts as missing. When a
    member of the parsed object, whichever it is, holds the empty string,
    [null], [false] or 0, the result is the one the same object gives
    with that member taken out: the type, the title, the summary, the
    content and the source URL are all the same. *)
Theorem empty_members_count_as_missing (text_in : string)
    (members : list (string * json)) (k : string) (v : json) :
  assoc k members = Some v -> truthy v = false ->
  build_result text_in (JObj members)
  = build_result text_in (JObj (without k members)).
Proof.
  intros Hk Hv.
  rewrite !build_result_object by discriminate.
  unfold member. cbn [get].
  rewrite (read_without map_type k v members "type" Hk (map_type_empty v Hv)).
  rewrite (read_without (fun a => or_else a (JStr "Untitled Note"))
             k v members "title" Hk (or_else_empty v _ Hv)).
  rewrite (read_without (fun a => or_else a (JStr "No summary available."))
             k v members "summary" Hk (or_else_empty v _ Hv)).
  rewrite (read_without (fun a => or_else a (JStr text_in))
             k v members "content" Hk (or_else_empty v _ Hv)).
  rewrite (read_without or_undefined k v members "sourceUrl" Hk
             (or_undefined_empty v Hv)).
  reflexivity.
Qed.

End ServiceFacts.

(* ===================================================================== *)
(** ** The feed: sending, recording, attaching, reporting *)
(* ===================================================================== *)

Module AppFacts.
Import Js Types GeminiService GeminiServiceFacts ServiceFacts App.

(** *** The attachment *)

Lemma split_comma_free (s : string) :
  ~ In ","%char (list_ascii_of_string s) -> split_comma s = [s].
Proof.
  induction s as [|c s IH]; intros Hfree; [reflexivity|].
  cbn [split_comma]. cbn [list_ascii_of_string] in Hfree.
  destruct (Ascii.eqb_spec c ","%char) as [->|Hc].
  - exfalso. apply Hfree. left. reflexivity.
  - rewrite IH; [reflexivity|]. intros Hin. apply Hfree. right. exact Hin.
Qed.

Lemma split_comma_at (p q : string) :
  ~ In ","%char (list_ascii_of_string p) ->
  split_comma (p ++ String ","%char q) = p :: split_comma q.
Proof.
  induction p as [|c p IH]; intros Hfree.
  - reflexivity.
  - simpl. simpl in Hfree.
    destruct (Ascii.eqb_spec c ","%char) as [->|Hc].
    + exfalso. apply Hfree. left. reflexivity.
    + rewrite IH; [reflexivity|]. intros Hin. apply Hfree. right. exact Hin.
Qed.

(** X18. Choosing a file stores, as the data of the attachment, exactly
    the payload that follows the comma of the data URL, with the MIME
    type of the file and the kind video for a type that begins with
    "video/"; a read result without a comma leaves the data undefined.
    With no file chosen, or when the read failed, nothing is stored. *)
Theorem attachment_is_payload_of_data_url (s : AppState)
    (mime header payload : string) :
  ~ In ","%char (list_ascii_of_string header) ->
  ~ In ","%char (list_ascii_of_string payload) ->
  handleFileSelect
    (Some {| file_type := mime;
             reader_result := Some (header ++ String ","%char payload) |}) s
  = setSelectedFile
      (Some {| sf_data := Some payload; sf_mimeType := mime;
               sf_preview := header ++ String ","%char payload;
               sf_video := String.prefix "video/" mime |}) s
  /\ handleFileSelect
       (Some {| file_type := mime; reader_result := Some header |}) s
     = setSelectedFile
         (Some {| sf_data := None; sf_mimeType := mime;
                  sf_preview := header;
                  sf_video := String.prefix "video/" mime |}) s
  /\ handleFileSelect None s = s
  /\ handleFileSelect (Some {| file_type := mime; reader_result := None |}) s
     = s.
Proof.
  intros Hheader Hpayload.
  split; [|split; [|split; reflexivity]].
  - unfold handleFileSelect. cbn [reader_result file_type].
    rewrite (split_comma_at _ _ Hheader), (split_comma_free _ Hpayload).
    reflexivity.
  - unfold handleFileSelect. cbn [reader_result file_type].
    rewrite (split_comma_free _ Hheader). reflexivity.
Qed.

(** *** Sending *)

Lemma guard_open s :
  blank (inputText s) = false \/ selectedFile s <> None ->
  (blank (inputText s)
   && match selectedFile s with Some _ => false | None => true end)%bool
  = false.
Proof.
  intros [Hb|Hf].
  - rewrite Hb. reflexivity.
  - destruct (selectedFile s); [apply andb_false_r | contradiction].
Qed.

Lemma blank_white ws :
  Forall (fun w => space_char w = true) ws ->
  blank (string_of_list_ascii (concat ws)) = true.
Proof.
  intros Hws. unfold blank. rewrite list_ascii_of_string_of_list_ascii.
  rewrite <- (app_nil_r (concat ws)), (drop_spaces_white _ _ Hws).
  reflexivity.
Qed.

(** X19. [handleSend] does nothing when the text is blank and no file
    is attached: the classifier is not called and the state is the same.
    A text is blank when nothing is left of it once its white space is
    removed, as is every run of white-space characters, the ideographic
    and no-break spaces among them. When the classification fails, for
    whatever reason, the feed, the typed text and the attachment are
    kept, one alert is raised and the processing flag is off again. *)
Theorem send_without_effect (env : Env) (id_ms created_ms : N)
    (s : AppState) :
  (blank (inputText s) = true -> selectedFile s = None ->
     handleSend env id_ms created_ms s = Some s)
  /\ (forall ws,
        Forall (fun w => space_char w = true) ws ->
        inputText s = string_of_list_ascii (concat ws) ->
        selectedFile s = None ->
        handleSend env id_ms created_ms s = Some s)
  /\ (forall payload e,
        blank (inputText s) = false \/ selectedFile s <> None ->
        mediaPayload (selectedFile s) = Some payload ->
        classifyContent env (inputText s) payload = Throw e ->
        exists s',
          handleSend env id_ms created_ms s = Some s'
          /\ notes s' = notes s
          /\ inputText s' = inputText s
          /\ selectedFile s' = selectedFile s
          /\ isProcessing s' = false
          /\ alerts s'
             = (alerts s ++ ["Failed to process content. Check console."])%list).
Proof.
  assert (Hnone : blank (inputText s) = true -> selectedFile s = None ->
                  handleSend env id_ms created_ms s = Some s).
  { intros Hb Hf. unfold handleSend. rewrite Hb, Hf. reflexivity. }
  split; [exact Hnone|]. split.
  - intros ws Hws Htext Hf. apply Hnone; [|exact Hf].
    rewrite Htext. apply blank_white, Hws.
  - intros payload e Hguard Hpayload Hthrow.
    unfold handleSend. rewrite (guard_open s Hguard), Hpayload.
    cbn [inputText setIsProcessing]. rewrite Hthrow.
    eexists. split; [reflexivity|]. repeat split; reflexivity.
Qed.

Lemma classified_type_known env text_in media_in r :
  classifyContent env text_in media_in = Return r -> cr_type r <> UNKNOWN.
Proof.
  intros Hr. apply classifyContent_returns in Hr as [parsed Hb].
  exact (build_result_type _ _ _ Hb).
Qed.

Lemma newNote_strings id_ms created_ms r fallback m ti su co url :
  cr_title r = JStr ti -> cr_summary r = JStr su -> cr_content r = JStr co ->
  declared_url (cr_sourceUrl r) = Some url ->
  newNote id_ms created_ms r fallback m
  = Some {| id := toString id_ms;
            content := if String.eqb co "" then fallback else co;
            type := cr_type r; title := ti; summary := su;
            createdAt := Z.of_N created_ms; sourceUrl := url; media := m |}.
Proof.
  intros Hti Hsu Hco Hurl. unfold newNote.
  rewrite Hti, Hsu, Hco, Hurl. cbn [or_else truthy declared_string].
  destruct (String.eqb co ""); reflexivity.
Qed.

(** X20. When the classification returns, with strings in its title,
    summary and content, [handleSend] puts exactly one new note at the
    front of the feed and keeps the older notes in their order. The note
    carries the classified type, never unknown, the two readings of the
    clock, the attachment, and as content the classified content or,
    when that is empty, the typed text. The text field and the
    attachment are cleared and no alert is raised. *)
Theorem send_prepends_note (env : Env) (id_ms created_ms : N)
    (s : AppState) (payload : option Media) (r : ClassificationResult)
    (ti su co : string) (url : option string) :
  blank (inputText s) = false \/ selectedFile s <> None ->
  mediaPayload (selectedFile s) = Some payload ->
  classifyContent env (inputText s) payload = Return r ->
  cr_title r = JStr ti -> cr_summary r = JStr su -> cr_content r = JStr co ->
  declared_url (cr_sourceUrl r) = Some url ->
  exists note s',
    handleSend env id_ms created_ms s = Some s'
    /\ notes s' = note :: notes s
    /\ type note = cr_type r /\ type note <> UNKNOWN
    /\ title note = ti /\ summary note = su
    /\ content note = (if String.eqb co "" then inputText s else co)
    /\ id note = toString id_ms /\ createdAt note = Z.of_N created_ms
    /\ sourceUrl note = url /\ media note = payload
    /\ inputText s' = "" /\ selectedFile s' = None
    /\ isProcessing s' = false /\ alerts s' = alerts s.
Proof.
  intros Hguard Hpayload Hr Hti Hsu Hco Hurl.
  pose proof (classified_type_known _ _ _ _ Hr) as Hknown.
  eexists _, _. split.
  { unfold handleSend. rewrite (guard_open s Hguard), Hpayload.
    cbn [inputText setIsProcessing]. rewrite Hr.
    rewrite (newNote_strings _ _ _ _ _ _ _ _ _ Hti Hsu Hco Hurl).
    reflexivity. }
  cbn. repeat split; try reflexivity. exact Hknown.
Qed.

(** X21. A recording is classified with an empty text and its audio as
    media, typed "audio/webm" when the recorder reports no type. On
    success one note is put at the front of the feed, with the
    transcription as content or "(Audio Note)" when there is none, and
    the typed text is left alone; on failure the feed is kept and the
    alert "Failed to transcribe audio." is raised. Either way the
    processing flag ends off. *)
Theorem audio_note_is_prepended (env : Env) (blob_type base64Data : string)
    (id_ms created_ms : N) (s : AppState) :
  let recording :=
    {| mimeType := if String.eqb blob_type "" then "audio/webm" else blob_type;
       data := base64Data |} in
  (forall e,
     classifyContent env "" (Some recording) = Throw e ->
     exists s',
       handleSendAudio env blob_type base64Data id_ms created_ms s = Some s'
       /\ notes s' = notes s
       /\ isProcessing s' = false
       /\ alerts s' = (alerts s ++ ["Failed to transcribe audio."])%list)
  /\ (forall r ti su co url,
        classifyContent env "" (Some recording) = Return r ->
        cr_title r = JStr ti -> cr_summary r = JStr su ->
        cr_content r = JStr co ->
        declared_url (cr_sourceUrl r) = Some url ->
        exists note s',
          handleSendAudio env blob_type base64Data id_ms created_ms s = Some s'
          /\ notes s' = note :: notes s
          /\ content note = (if String.eqb co "" then "(Audio Note)" else co)
          /\ media note = Some recording
          /\ type note <> UNKNOWN
          /\ inputText s' = inputText s
          /\ isProcessing s' = false
          /\ alerts s' = alerts s).
Proof.
  intros recording.
  assert (Hrec : {| mimeType := str_or (Some blob_type) "audio/webm";
                    data := base64Data |} = recording) by reflexivity.
  split.
  - intros e Hthrow. unfold handleSendAudio. rewrite Hrec, Hthrow.
    eexists. split; [reflexivity|]. repeat split; reflexivity.
  - intros r ti su co url Hr Hti Hsu Hco Hurl.
    pose proof (classified_type_known _ _ _ _ Hr) as Hknown.
    eexists _, _. split.
    { unfold handleSendAudio. rewrite Hrec, Hr.
      rewrite (newNote_strings _ _ _ _ _ _ _ _ _ Hti Hsu Hco Hurl).
      reflexivity. }
    cbn. repeat split; try reflexivity. exact Hknown.
Qed.

(** *** The weekly report *)

Lemma report_never_empty env items k :
  API_KEY env = Some k -> k <> "" ->
  exists report,
    generateWeeklyReport env items = Return report /\ report <> "".
Proof.
  intros Hk Hne. unfold generateWeeklyReport.
  rewrite (getClient_present _ _ Hk Hne). cbn [bind].
  destruct (generateContent env _) as [response|e]; cbn [bind try_catch].
  - eexists. split; [reflexivity|]. unfold str_or.
    destruct (text response) as [t|]; [|discriminate].
    destruct (String.eqb_spec t ""); [discriminate | assumption].
  - eexists. split; [reflexivity | discriminate].
Qed.

(** X22. With an empty feed [handleGenerateReport] does nothing and
    sends no request. Otherwise it switches to the report view, leaves
    the feed as it is, and ends with the generating flag off: the report
    shown is the text the service returned, and when the service rejects
    the previous report is kept and nothing is reported to the user. *)
Theorem report_generation (env : Env) (s : AppState) :
  (notes s = [] -> handleGenerateReport env s = s)
  /\ (notes s <> [] ->
      let s' := handleGenerateReport env s in
      viewMode s' = REPORT
      /\ isGeneratingReport s' = false
      /\ notes s' = notes s
      /\ alerts s' = alerts s
      /\ (forall report,
            generateWeeklyReport env (notes s) = Return report ->
            weeklyReport s' = report)
      /\ (forall e,
            generateWeeklyReport env (notes s) = Throw e ->
            weeklyReport s' = weeklyReport s)).
Proof.
  split.
  - intros Hempty. unfold handleGenerateReport. rewrite Hempty. reflexivity.
  - intros Hne s'. unfold s', handleGenerateReport.
    destruct (notes s) as [|n rest] eqn:Hnotes; [contradiction|].
    cbn [length Nat.eqb].
    destruct (generateWeeklyReport env (n :: rest)) as [report|e];
      (split; [reflexivity|]); (split; [reflexivity|]);
      (split; [exact Hnotes|]); (split; [reflexivity|]); split.
    + intros report' [= <-]. reflexivity.
    + intros e' Hd. discriminate Hd.
    + intros report' Hd. discriminate Hd.
    + intros e' _. reflexivity.
Qed.

(** X23. Pressing the report button with notes in the feed: with an API
    key the report shown afterwards is never empty, it is the generated
    text or one of the two failure texts; without a key the view changes
    to the report but the report text stays what it was. *)
Theorem report_with_and_without_key (env : Env) (s : AppState) :
  notes s <> [] ->
  (forall k, API_KEY env = Some k -> k <> "" ->
     weeklyReport (handleGenerateReport env s) <> "")
  /\ (str_truthy (API_KEY env) = false ->
      weeklyReport (handleGenerateReport env s) = weeklyReport s
      /\ viewMode (handleGenerateReport env s) = REPORT).
Proof.
  intros Hne. split.
  - intros k Hk Hkne.
    destruct (report_never_empty env (notes s) k Hk Hkne) as (report & Hr & Hnz).
    unfold handleGenerateReport.
    destruct (notes s) as [|n rest] eqn:Hnotes; [contradiction|].
    cbn [length Nat.eqb]. rewrite Hr. exact Hnz.
  - intros Hk. unfold handleGenerateReport.
    destruct (notes s) as [|n rest] eqn:Hnotes; [contradiction|].
    cbn [length Nat.eqb].
    assert (Hrej : generateWeeklyReport env (n :: rest)
                   = Throw (Error "API Key not found")).
    { unfold generateWeeklyReport, getClient. unfold str_truthy in Hk.
      destruct (API_KEY env) as [k|]; [|reflexivity].
      destruct (String.eqb k ""); [reflexivity | discriminate]. }
    rewrite Hrej. split; reflexivity.
Qed.

End AppFacts.

(* ===================================================================== *)
(** ** Further instances *)
(* ===================================================================== *)

Module MoreInstances.
Import Js Types GeminiService VoiceChat App Playback Samples.
Import GeminiServiceFacts VoiceChatFacts PlaybackFacts SessionFacts.
Import InterleavingFacts ServiceFacts AppFacts.
Local Open Scope Z_scope.

(** *** Enqueueing under interleaving *)



(** After an interruption on the playing session, a chunk arrives at
    clock 7 and is handled with nothing in between: it starts at 7. And
    on the playing session a chunk arrives at clock 20 and is decoded
    after other events, none of them an interruption: it starts at the
    cursor, not before 20. *)
Lemma interrupt_then_enqueue_witness :
  (exists e,
     scheduled
       (world (onmessage (audio_message "AAAA" None) 7 {| frames := 3 |}
                 (interrupt playing)))
       !! next_id (world (interrupt playing)) = Some e
     /\ sch_when e = Z.max 0 7
     /\ 7 <= sch_when e)
  /\ (exists e,
        scheduled
          (world (st (step (run busy_decode
                              (step playing_sys
                                 (Arrive (audio_message "BBBB" None) 20)))
                        (Decoded 0 {| frames := 10 |}))))
          !! next_id (world (st (run busy_decode
                                   (step playing_sys
                                      (Arrive (audio_message "BBBB" None) 20)))))
        = Some e
        /\ sch_when e
           = nextStartTimeRef
               (st (run busy_decode
                      (step playing_sys (Arrive (audio_message "BBBB" None) 20))))
        /\ 20 <= sch_when e).
Proof.
  destruct (interrupt_then_enqueue playing) as (_ & _ & _ & Hnext & Hlater).
  split.
  - exact (Hnext 1%nat (audio_message "AAAA" None) 7 {| frames := 3 |}
             eq_refl eq_refl).
  - apply (Hlater playing_sys (audio_message "BBBB" None) 20 busy_decode
             0%nat {| p_ctx := 1; p_message := audio_message "BBBB" None |}
             {| frames := 10 |}).
    + reflexivity.
    + vm_compute. reflexivity.
    + vm_compute. reflexivity.
Defined.

(** C2 as stated fails. After an interruption on the playing session the
    active set is empty and the cursor is zero. A chunk then arrives at
    clock 20, and a second interruption is handled before its decode
    resolves: the chunk is enqueued after both interruptions and is
    started at 0, before the clock 20 that its handler read. *)
Lemma second_interruption_restarts_pending_chunk :
  let sys :=
    run [Arrive (audio_message "BBBB" None) 20;
         Arrive interruption_message 21;
         Decoded 0 {| frames := 10 |}]
      {| st := interrupt playing; awaiting := [] |} in
  elements (sourcesRef (interrupt playing)) = []
  /\ nextStartTimeRef (interrupt playing) = 0
  /\ scheduled (world (st sys)) !! 7%nat
     = Some {| sch_ctx := 1; sch_when := 0; sch_duration := 10 |}
  /\ elements (sourcesRef (st sys)) = [7%nat]
  /\ 0 < 20.
Proof. repeat split; vm_compute; reflexivity. Qed.

(** One message with a chunk and an interruption on the playing session,
    whose cursor is 15: when the decode resolves the chunk is started at
    15 and stopped at once with source 6. *)
Lemma interruption_follows_own_chunk_witness :
  let later := step playing_sys (Arrive (audio_message "AAAA" (Some true)) 7) in
  let s3 := st (step later (Decoded 0 {| frames := 3 |})) in
  scheduled (world s3) !! next_id (world (st later))
  = Some {| sch_ctx := 1; sch_when := nextStartTimeRef (st later);
            sch_duration := duration {| frames := 3 |} |}
  /\ (next_id (world (st later)) ∈ stopped (world s3))
  /\ sourcesRef (st later) ⊆ stopped (world s3)
  /\ sourcesRef s3 = ∅
  /\ nextStartTimeRef s3 = 0.
Proof.
  intros later s3.
  destruct (interruption_follows_own_chunk playing_sys
              (audio_message "AAAA" (Some true)) 7 eq_refl)
    as (_ & _ & Hresume & _).
  destruct (Hresume later 0%nat 1%nat {| frames := 3 |} eq_refl)
    as (_ & Hsch & Hown & Hothers & Hempty & Hzero & _).
  split; [exact Hsch|]. split; [exact Hown|]. split; [exact Hothers|].
  split; [exact Hempty | exact Hzero].
Defined.

(** A rejected decode ends the handler: the interruption of the same
    message is not applied, source 6 stays active and the indicator
    stays on. *)
Lemma rejected_decode_skips_the_rest :
  let sys := run [Arrive (audio_message "AAAA" (Some true)) 7; Failed 0]
               playing_sys in
  elements (sourcesRef (st sys)) = [6%nat]
  /\ elements (stopped (world (st sys))) = []
  /\ nextStartTimeRef (st sys) = 15
  /\ isAIResponding (st sys) = true
  /\ awaiting sys = [].
Proof. repeat split; vm_compute; reflexivity. Qed.

(** A source started for a time already past overlaps the next one: after
    an interruption handled during its decode a chunk is started for
    frame 0 when the clock reads 9, and the chunk that arrives at clock 9
    is started for frame 10; both sound at frame 12. *)
Lemma past_start_overlaps_next :
  let sys :=
    run [Arrive (audio_message "BBBB" None) 8;
         Arrive interruption_message 9;
         Decoded 0 {| frames := 10 |};
         Call (CbMessage (audio_message "CCCC" None) 9 {| frames := 10 |})]
      playing_sys in
  scheduled (world (st sys)) !! 7%nat
  = Some {| sch_ctx := 1; sch_when := 0; sch_duration := 10 |}
  /\ scheduled (world (st sys)) !! 8%nat
     = Some {| sch_ctx := 1; sch_when := 10; sch_duration := 10 |}
  /\ sounds (world (st sys)) 9 7%nat 12 = true
  /\ sounds (world (st sys)) 9 8%nat 12 = true.
Proof. repeat split; vm_compute; reflexivity. Qed.

(** *** The session *)

Lemma interleaved_sources :
  let s := st (run interleaved boot) in
  6%nat ∈ sourcesRef s /\ 7%nat ∈ sourcesRef s
  /\ scheduled (world s) !! 6%nat
     = Some {| sch_ctx := 1; sch_when := 6%Z; sch_duration := 3%Z |}
  /\ scheduled (world s) !! 7%nat
     = Some {| sch_ctx := 1; sch_when := 9%Z; sch_duration := 10%Z |}.
Proof.
  split; [|split; [|split]].
  - apply (bool_decide_unpack (6%nat ∈ sourcesRef (st (run interleaved boot)))).
    vm_compute. exact I.
  - apply (bool_decide_unpack (7%nat ∈ sourcesRef (st (run interleaved boot)))).
    vm_compute. exact I.
  - vm_compute. reflexivity.
  - vm_compute. reflexivity.
Defined.

Lemma active_sources_never_overlap_witness :
  (6 + 3 <= 9 \/ 9 + 10 <= 6)%Z
  /\ (sounds (world (st (run interleaved boot))) 6 6%nat 8 = true ->
      sounds (world (st (run interleaved boot))) 6 7%nat 8 = true ->
      6%nat = 7%nat).
Proof.
  destruct interleaved_sources as (H6 & H7 & E6 & E7).
  destruct (active_sources_never_overlap interleaved) as [Hapart Hsound].
  split.
  - exact (Hapart 6%nat 7%nat _ _ H6 H7 ltac:(discriminate) E6 E7).
  - apply (Hsound 6%nat 7%nat _ _ 6%Z 6%Z 8%Z H6 H7 E6 E7);
      cbn [sch_when]; lia.
Defined.

Lemma active_set_is_live_witness :
  (6%nat ∉ stopped (world (st (run interleaved boot))))
  /\ (6%nat ∈ ended_listeners (world (st (run interleaved boot))))
  /\ (exists e, scheduled (world (st (run interleaved boot))) !! 6%nat = Some e
                /\ (sch_when e + sch_duration e
                    <= nextStartTimeRef (st (run interleaved boot)))%Z).
Proof.
  destruct interleaved_sources as (H6 & _).
  destruct (active_set_is_live interleaved) as (_ & _ & Hlive).
  exact (Hlive 6%nat H6).
Defined.

Lemma only_first_part_is_played_witness :
  let message := parts_message [silent_part; audio_part] None in
  onmessage message 7 {| frames := 3 |} playing
  = handle_interruption message playing
  /\ scheduled (world (onmessage message 7 {| frames := 3 |} playing))
     = scheduled (world playing).
Proof.
  destruct (only_first_part_is_played playing 7 {| frames := 3 |} None)
    as (_ & Hsilent & _).
  exact (Hsilent silent_part [audio_part] (or_introl eq_refl)).
Defined.

Lemma late_events_after_teardown_witness :
  onmessage (audio_message "AAAA" None) 7 {| frames := 3 |}
    (cleanupAudio playing)
  = cleanupAudio playing.
Proof.
  destruct (late_events_after_teardown playing) as (_ & Hdrop & _).
  destruct (Hdrop (audio_message "AAAA" None) 7%Z {| frames := 3 |})
    as (_ & _ & _ & Hsame).
  exact (Hsame eq_refl).
Defined.

Lemma chunk_decoded_after_interruption_witness :
  let s' := st (run [Arrive (audio_message "BBBB" None) 8;
                     Arrive interruption_message 9;
                     Decoded 0 {| frames := 10 |}]
                  {| st := playing; awaiting := [] |}) in
  scheduled (world s') !! next_id (world playing)
  = Some {| sch_ctx := 1; sch_when := 0;
            sch_duration := duration {| frames := 10 |} |}
  /\ sourcesRef s' = {[next_id (world playing)]}
  /\ nextStartTimeRef s' = duration {| frames := 10 |}
  /\ isAIResponding s' = false
  /\ sourcesRef playing ⊆ stopped (world s').
Proof.
  exact (chunk_decoded_after_interruption playing 1%nat
           (audio_message "BBBB" None) interruption_message 8 9
           {| frames := 10 |} eq_refl eq_refl eq_refl eq_refl).
Defined.

Lemma chunk_decoded_after_teardown_witness :
  let s' := st (run [Arrive (audio_message "BBBB" None) 8; Call CbCleanup;
                     Decoded 0 {| frames := 10 |}]
                  {| st := playing; awaiting := [] |}) in
  sourcesRef s' = {[next_id (world playing)]}
  /\ isAIResponding s' = false
  /\ outputAudioContextRef s' = None
  /\ (1%nat ∈ closed_contexts (world s'))
  /\ (forall called t,
        sounds (world s') called (next_id (world playing)) t = false).
Proof.
  exact (chunk_decoded_after_teardown playing 1%nat
           (audio_message "BBBB" None) 8 {| frames := 10 |} eq_refl eq_refl).
Defined.

Lemma decode_order_decides_play_order_witness :
  let s' := st (run [Arrive (audio_message "AAAA" None) 20;
                     Arrive (audio_message "BBBB" None) 21;
                     Decoded 1 {| frames := 3 |};
                     Decoded 0 {| frames := 10 |}]
                  {| st := playing; awaiting := [] |}) in
  let cursor := Z.max (Z.max (nextStartTimeRef playing) 20) 21 in
  scheduled (world s') !! next_id (world playing)
  = Some {| sch_ctx := 1; sch_when := cursor;
            sch_duration := duration {| frames := 3 |} |}
  /\ scheduled (world s') !! S (next_id (world playing))
     = Some {| sch_ctx := 1;
               sch_when := (cursor + duration {| frames := 3 |})%Z;
               sch_duration := duration {| frames := 10 |} |}
  /\ nextStartTimeRef s'
     = (cursor + duration {| frames := 3 |} + duration {| frames := 10 |})%Z.
Proof.
  exact (decode_order_decides_play_order playing 1%nat
           (audio_message "AAAA" None) (audio_message "BBBB" None) 20 21
           {| frames := 10 |} {| frames := 3 |} eq_refl eq_refl eq_refl).
Defined.

Lemma stale_completion_changes_nothing_witness :
  let s := call (CbMessage interruption_message 9 {| frames := 0 |}) playing in
  (6%nat ∈ ended_listeners (world s))
  /\ (6%nat ∈ stopped (world s))
  /\ call (CbEnded 6%nat) s = s.
Proof.
  intros s. split; [|split].
  - apply (bool_decide_unpack (6%nat ∈ ended_listeners (world s))).
    vm_compute. exact I.
  - apply (bool_decide_unpack (6%nat ∈ stopped (world s))).
    vm_compute. exact I.
  - apply stale_completion_changes_nothing.
    + apply serial_call. exact Instances.playing_serial_reachable.
    + apply (bool_decide_unpack (6%nat ∉ sourcesRef s)).
      vm_compute. exact I.
Defined.

Lemma connect_failures_witness :
  let s' := connectToLiveAPI (Some "key") [] (Throw (Rejected "denied"))
              VoiceChat.initial in
  VoiceChat.error s' = Some connect_failed
  /\ inputAudioContextRef s' = Some 0%nat
  /\ outputAudioContextRef s' = Some 1%nat
  /\ streamRef s' = None
  /\ (0%nat ∈ closed_contexts (world (cleanupAudio s')))
  /\ (1%nat ∈ closed_contexts (world (cleanupAudio s'))).
Proof.
  destruct (connect_failures [] VoiceChat.initial) as [_ Hdenied].
  destruct (Hdenied "key" (Rejected "denied") ltac:(discriminate))
    as (He & Hi & Ho & Hst & _ & _ & _ & H0 & H1).
  repeat split; assumption.
Defined.

Lemma cursor_survives_reopening_witness :
  let s1 := connectToLiveAPI (Some "key") [] (Return tt)
              (cleanupAudio playing) in
  nextStartTimeRef s1 = nextStartTimeRef playing
  /\ exists e,
       scheduled
         (world (onmessage (audio_message "AAAA" None) 2 {| frames := 3 |} s1))
         !! next_id (world s1) = Some e
       /\ sch_when e = Z.max (nextStartTimeRef playing) 2.
Proof.
  exact (cursor_survives_reopening playing "key" []
           (audio_message "AAAA" None) 2 {| frames := 3 |}
           ltac:(discriminate) eq_refl).
Defined.

Lemma modal_releases_previous_session_witness :
  let s' := isOpen_changed true (Some "key") [] (Return tt) playing in
  (1%nat ∈ closed_contexts (world s'))
  /\ (3%nat ∈ stopped_streams (world s'))
  /\ (5%nat ∈ disconnected (world s')).
Proof.
  destruct (modal_releases_previous_session true (Some "key") []
              (Return tt) playing) as (_ & Hc & Hs & Hd & _).
  split; [exact (Hc 1%nat (or_intror eq_refl))|].
  split; [exact (Hs 3%nat eq_refl) | exact (Hd 5%nat (or_introl eq_refl))].
Defined.

Lemma capture_forwards_blocks_in_order_witness :
  let blocks := [loud; quiet] in
  realtime_input (world (capture blocks opened))
  = (realtime_input (world opened) ++ blocks)%list
  /\ isSpeaking (capture blocks opened) = gtb (block_avg quiet) vad_threshold.
Proof.
  intros blocks.
  destruct (proj1 (capture_forwards_blocks_in_order blocks opened) 5%nat eq_refl)
    as (Hall & _ & _ & Hsp).
  split; [exact Hall | exact Hsp].
Defined.

Lemma services_need_api_key_witness :
  classifyContent keyless_env "hello" None = Throw (Error "API Key not found")
  /\ generateWeeklyReport keyless_env [] = Throw (Error "API Key not found").
Proof. exact (services_need_api_key keyless_env "hello" None [] eq_refl). Defined.

Lemma classifyContent_rethrows_witness :
  classifyContent failing_env "hello" None = Throw (Rejected "quota")
  /\ classifyContent silent_env "hello" None = Throw SyntaxError
  /\ classifyContent null_env "hello" None = Throw TypeError.
Proof.
  split; [|split].
  - destruct (classifyContent_rethrows failing_env "hello" None "key"
                eq_refl ltac:(discriminate)) as (H & _).
    exact (H (Rejected "quota") eq_refl).
  - destruct (classifyContent_rethrows silent_env "hello" None "key"
                eq_refl ltac:(discriminate)) as (_ & H & _).
    exact (H {| text := Some "" |} SyntaxError eq_refl eq_refl).
  - destruct (classifyContent_rethrows null_env "hello" None "key"
                eq_refl ltac:(discriminate)) as (_ & _ & H).
    exact (H {| text := Some "null" |} eq_refl eq_refl).
Defined.

Lemma empty_response_gives_default_note_witness :
  classifyContent textless_env "hello" None
  = Return {| cr_type := THOUGHT;
              cr_title := JStr "Untitled Note";
              cr_summary := JStr "No summary available.";
              cr_sourceUrl := None;
              cr_content := JStr "hello" |}.
Proof.
  exact (empty_response_gives_default_note textless_env "hello" None "key"
           {| text := None |} eq_refl ltac:(discriminate) eq_refl eq_refl
           eq_refl).
Defined.

Lemma fenced_json_is_unwrapped_witness :
  strip_close_fence
    (strip_open_fence
       (string_of_list_ascii
          (fence ++ list_ascii_of_string "json" ++ concat [line_feed]
             ++ list_ascii_of_string "{}"
             ++ concat [ideographic_space; no_break_space; line_feed]
             ++ fence)%list))
  = string_of_list_ascii (list_ascii_of_string "{}").
Proof.
  destruct (fenced_json_is_unwrapped (list_ascii_of_string "{}")
              [line_feed] [ideographic_space; no_break_space; line_feed])
    as [H _].
  - repeat constructor.
  - repeat constructor.
  - reflexivity.
  - reflexivity.
  - exact H.
Defined.

Lemma empty_members_count_as_missing_witness :
  build_result "typed" (JObj sparse)
  = build_result "typed" (JObj (without "summary" sparse))
  /\ build_result "typed" (JObj (without "summary" sparse))
     = Return {| cr_type := THOUGHT; cr_title := JStr "Untitled Note";
                 cr_summary := JStr "No summary available.";
                 cr_sourceUrl := None; cr_content := JStr "typed" |}.
Proof.
  split.
  - exact (empty_members_count_as_missing "typed" sparse "summary" JNull
             eq_refl eq_refl).
  - reflexivity.
Defined.

Lemma attachment_is_payload_of_data_url_witness :
  App.selectedFile
    (handleFileSelect
       (Some {| file_type := "image/png";
                reader_result := Some "data:image/png;base64,iVBORw0KGgo" |})
       App.initial)
  = Some {| sf_data := Some "iVBORw0KGgo"; sf_mimeType := "image/png";
            sf_preview := "data:image/png;base64,iVBORw0KGgo";
            sf_video := false |}.
Proof.
  destruct (attachment_is_payload_of_data_url App.initial "image/png"
              "data:image/png;base64" "iVBORw0KGgo") as (H & _).
  - vm_compute. intuition discriminate.
  - vm_compute. intuition discriminate.
  - exact (f_equal App.selectedFile H).
Defined.

Lemma send_without_effect_witness :
  handleSend chat_env 1700000000000 1700000000001 idle = Some idle
  /\ exists s',
       handleSend failing_env 1700000000000 1700000000001 typing = Some s'
       /\ App.notes s' = App.notes typing
       /\ App.inputText s' = "hello"%string.
Proof.
  split.
  - destruct (send_without_effect chat_env 1700000000000 1700000000001 idle)
      as (_ & Hwhite & _).
    apply (Hwhite [list_ascii_of_string " "; ideographic_space; no_break_space]).
    + repeat constructor.
    + reflexivity.
    + reflexivity.
  - destruct (send_without_effect failing_env 1700000000000 1700000000001
                typing) as (_ & _ & Hfail).
    destruct (Hfail None (Rejected "quota") (or_introl eq_refl) eq_refl eq_refl)
      as (s' & Hs & Hn & Hi & _).
    exists s'. split; [exact Hs | split; [exact Hn | exact Hi]].
Defined.

Lemma send_prepends_note_witness :
  exists note s',
    handleSend chat_env 1700000000000 1700000000001 typing = Some s'
    /\ App.notes s' = [note]
    /\ type note = CHAT
    /\ content note = "hello"
    /\ App.inputText s' = "".
Proof.
  destruct (send_prepends_note chat_env 1700000000000 1700000000001 typing
              None chat_result "Lunch" "Plans for lunch." "hello" None
              (or_introl eq_refl) eq_refl eq_refl eq_refl eq_refl eq_refl
              eq_refl)
    as (note & s' & Hs & Hn & Ht & _ & _ & _ & Hc & _ & _ & _ & _ & Hi & _).
  exists note, s'. repeat split; assumption.
Defined.

Lemma audio_note_is_prepended_witness :
  (exists s',
     handleSendAudio failing_env "" "UklGRg" 1700000000000 1700000000001
       App.initial = Some s'
     /\ App.notes s' = []
     /\ App.alerts s' = ["Failed to transcribe audio."])
  /\ (exists note s',
        handleSendAudio chat_env "" "UklGRg" 1700000000000 1700000000001
          App.initial = Some s'
        /\ App.notes s' = [note]
        /\ content note = "(Audio Note)"
        /\ media note = Some recording).
Proof.
  split.
  - destruct (audio_note_is_prepended failing_env "" "UklGRg" 1700000000000
                1700000000001 App.initial) as [Hfail _].
    destruct (Hfail (Rejected "quota") eq_refl) as (s' & Hs & Hn & _ & Ha).
    exists s'. repeat split; assumption.
  - destruct (audio_note_is_prepended chat_env "" "UklGRg" 1700000000000
                1700000000001 App.initial) as [_ Hok].
    destruct (Hok voice_result "Lunch" "Plans for lunch." "" None
                eq_refl eq_refl eq_refl eq_refl eq_refl)
      as (note & s' & Hs & Hn & Hc & Hm & _).
    exists note, s'. repeat split; assumption.
Defined.

Lemma report_generation_witness :
  App.viewMode (handleGenerateReport failing_env one_note) = REPORT
  /\ App.weeklyReport (handleGenerateReport failing_env one_note)
     = "Failed to generate report. Please check your network or API quota."
  /\ handleGenerateReport failing_env App.initial = App.initial.
Proof.
  destruct (report_generation failing_env one_note) as [_ Hrun].
  destruct (Hrun ltac:(discriminate)) as (Hv & _ & _ & _ & Hr & _).
  split; [exact Hv|]. split; [exact (Hr _ eq_refl)|].
  destruct (report_generation failing_env App.initial) as [Hnone _].
  exact (Hnone eq_refl).
Defined.

Lemma report_with_and_without_key_witness :
  App.weeklyReport (handleGenerateReport chat_env one_note) <> ""
  /\ App.weeklyReport (handleGenerateReport keyless_env one_note)
     = App.weeklyReport one_note.
Proof.
  split.
  - destruct (report_with_and_without_key chat_env one_note
                ltac:(discriminate)) as [Hkey _].
    exact (Hkey "key" eq_refl ltac:(discriminate)).
  - destruct (report_with_and_without_key keyless_env one_note
                ltac:(discriminate)) as [_ Hnone].
    exact (proj1 (Hnone eq_refl)).
Defined.

End MoreInstances.
